(** * Pull policies and the pull ledger of [pkg/image]

    A shallow embedding of the Go package [image] of pack:
    - [pull_policy.go]: the policy enumeration and its parser, the duration
      parser, the JSON ledger ([image.json]) with its read, interval check
      and prune operations;
    - [fetcher.go]: the fetcher with the [ImagePullChecker] interface;
    - the earlier revision of the fetcher, whose [Fetch] calls the ledger
      methods of [pull_policy.go] directly (module [Legacy]).

    Conventions.  Go's [int] and [time.Duration] are 64-bit two's complement
    integers, modelled in [Z] with the wrap-around written out.  A Go string
    is a sequence of bytes, modelled by [string] (one [ascii] per byte).  A
    Go function returning [(T, error)] returns a [result T]; a function that
    may panic returns an [outcome].  Wall-clock instants are nanoseconds
    since the Unix epoch, in [Z]. *)

From Stdlib Require Import ZArith Ascii String List Bool Lia.
From stdpp Require Import base option gmap strings.

Open Scope string_scope.
Open Scope Z_scope.

(** ** Errors, results, panics *)

Inductive NumErrKind := ErrSyntax | ErrRange.

(** The error values that flow through the package.  [ErrNotFound] is the
    package sentinel; [ErrWrap] is [errors.Wrap]/[errors.Wrapf];
    [ErrNew] is [errors.New]/[errors.Errorf]; [ErrNum] is
    [*strconv.NumError]; [ErrExt] is a failure reported by a library outside
    the package, with the answer of [client.IsErrNotFound] on it. *)
Inductive error : Type :=
| ErrNotFound
| ErrNew (msg : string)
| ErrWrap (cause : error) (msg : string)
| ErrNum (fn input : string) (k : NumErrKind)
| ErrExt (msg : string) (notFound : bool).

Inductive result (A : Type) : Type :=
| Ok (a : A)
| Err (e : error).
Arguments Ok {A} a.
Arguments Err {A} e.

Inductive outcome (A : Type) : Type :=
| Ret (a : A)
| Panic (msg : string)
| Diverge.
Arguments Ret {A} a.
Arguments Panic {A} msg.
Arguments Diverge {A}.

Definition quoted (s : string) : string :=
  String (ascii_of_nat 34) s +:+ String (ascii_of_nat 34) "".

(** [err.Error()] *)

Fixpoint Error (e : error) : string :=
  match e with
  | ErrNotFound => "not found"
  | ErrNew msg => msg
  | ErrWrap cause msg => msg +:+ ": " +:+ Error cause
  | ErrNum fn input ErrSyntax =>
      "strconv." +:+ fn +:+ ": parsing " +:+ quoted input +:+ ": invalid syntax"
  | ErrNum fn input ErrRange =>
      "strconv." +:+ fn +:+ ": parsing " +:+ quoted input +:+ ": value out of range"
  | ErrExt msg _ => msg
  end.

(** [errors.Is(err, ErrNotFound)]: the sentinel, possibly wrapped. *)
Fixpoint IsNotFound (e : error) : bool :=
  match e with
  | ErrNotFound => true
  | ErrWrap cause _ => IsNotFound cause
  | _ => false
  end.

(** [client.IsErrNotFound(err)] *)
Definition client_IsErrNotFound (e : error) : bool :=
  match e with
  | ErrExt _ nf => nf
  | _ => false
  end.

(** [strings.Contains(s, substr)] *)
Fixpoint strings_Contains (s substr : string) : bool :=
  String.prefix substr s ||
  match s with
  | EmptyString => false
  | String _ s' => strings_Contains s' substr
  end.

(** ** Machine integers *)

Definition int_min : Z := - 2 ^ 63.
Definition int_max : Z := 2 ^ 63 - 1.

(** Two's complement wrap-around of a 64-bit signed integer. *)
Definition wrap64 (z : Z) : Z := (z + 2 ^ 63) mod 2 ^ 64 - 2 ^ 63.

Definition int_add (a b : Z) : Z := wrap64 (a + b).
Definition int_mul (a b : Z) : Z := wrap64 (a * b).

(** [time.Minute], in nanoseconds. *)
Definition Minute : Z := 60000000000.

(** ** strconv.Atoi *)

Definition isDigit (c : ascii) : bool :=
  (48 <=? nat_of_ascii c)%nat && (nat_of_ascii c <=? 57)%nat.

Definition digitVal (c : ascii) : Z := Z.of_nat (nat_of_ascii c) - 48.

(** The digit loop of [strconv.ParseUint] in base 10: a byte that is not a
    digit is a syntax error, a value above [2^64 - 1] is a range error. *)
Fixpoint parseUint (s : string) (n : Z) : NumErrKind + Z :=
  match s with
  | EmptyString => inr n
  | String c s' =>
      if isDigit c then
        let n1 := n * 10 + digitVal c in
        if 2 ^ 64 - 1 <? n1 then inl ErrRange else parseUint s' n1
      else inl ErrSyntax
  end.

Definition Atoi (s : string) : result Z :=
  let fail k := Err (ErrNum "Atoi" s k) in
  match s with
  | EmptyString => fail ErrSyntax
  | String c s' =>
      let neg := Ascii.eqb c "-" in
      let digits := if neg || Ascii.eqb c "+" then s' else s in
      match digits with
      | EmptyString => fail ErrSyntax
      | _ =>
          match parseUint digits 0 with
          | inl k => fail k
          | inr un =>
              if neg then (if 2 ^ 63 <? un then fail ErrRange else Ok (- un))
              else (if 2 ^ 63 <=? un then fail ErrRange else Ok un)
          end
      end
  end.

(** ** The duration parser ([pull_policy.go], [parseDurationString]) *)

(** The inner loop:
    [for endIndex < len(durationStr) && durationStr[endIndex] >= '0' &&
         durationStr[endIndex] <= '9' { endIndex++ }],
    run on the bytes from [endIndex] on. *)
Fixpoint skipDigits (rest : string) (endIndex : nat) : nat :=
  match rest with
  | EmptyString => endIndex
  | String c rest' =>
      if isDigit c then skipDigits rest' (S endIndex) else endIndex
  end.

(** [s[n:]] *)
Fixpoint string_drop (n : nat) (s : string) : string :=
  match n, s with
  | O, _ => s
  | S n', String _ s' => string_drop n' s'
  | S _, EmptyString => EmptyString
  end.

(** One run of the outer loop body per unit of [fuel]; [i] and
    [totalMinutes] are the loop variables of the source. *)
Fixpoint parseDurationLoop (fuel : nat) (durationStr : string)
    (i : nat) (totalMinutes : Z) : outcome (result Z) :=
  if (String.length durationStr <=? i)%nat then
    Ret (Ok (int_mul totalMinutes Minute))
  else
    match fuel with
    | O => Diverge
    | S fuel' =>
        let endIndex := skipDigits (string_drop (i + 1) durationStr) (i + 1) in
        match Atoi (String.substring i (endIndex - i) durationStr) with
        | Err err =>
            Ret (Err (ErrWrap err ("invalid interval format: " +:+ durationStr)))
        | Ok value =>
            match String.get endIndex durationStr with
            | None => Panic "index out of range"
            | Some unit =>
                let next := parseDurationLoop fuel' durationStr (endIndex + 1)%nat in
                if Ascii.eqb unit "d" then
                  next (int_add totalMinutes (int_mul (int_mul value 24) 60))
                else if Ascii.eqb unit "h" then
                  next (int_add totalMinutes (int_mul value 60))
                else if Ascii.eqb unit "m" then
                  next (int_add totalMinutes value)
                else
                  Ret (Err (ErrNew ("invalid interval uniit: " +:+ String unit "")))
            end
        end
    end.

Definition parseDurationString (durationStr : string) : outcome (result Z) :=
  parseDurationLoop (String.length durationStr) durationStr 0 0.

(** ** The interval grammar ([intervalRegex]) *)

(** Regular expressions over bytes, matched by derivatives.  The pattern of
    the source is anchored at both ends, so [FindStringSubmatch] finds a
    match exactly when the whole text is in the language. *)
Inductive regex : Type :=
| RNone
| REps
| RClass (p : ascii -> bool)
| RCat (r1 r2 : regex)
| RAlt (r1 r2 : regex)
| RStar (r : regex).

Fixpoint nullable (r : regex) : bool :=
  match r with
  | RNone => false
  | REps => true
  | RClass _ => false
  | RCat r1 r2 => nullable r1 && nullable r2
  | RAlt r1 r2 => nullable r1 || nullable r2
  | RStar _ => true
  end.

Fixpoint deriv (c : ascii) (r : regex) : regex :=
  match r with
  | RNone => RNone
  | REps => RNone
  | RClass p => if p c then REps else RNone
  | RCat r1 r2 =>
      if nullable r1 then RAlt (RCat (deriv c r1) r2) (deriv c r2)
      else RCat (deriv c r1) r2
  | RAlt r1 r2 => RAlt (deriv c r1) (deriv c r2)
  | RStar r1 => RCat (deriv c r1) (RStar r1)
  end.

Fixpoint MatchString (r : regex) (s : string) : bool :=
  match s with
  | EmptyString => nullable r
  | String c s' => MatchString (deriv c r) s'
  end.

Definition RPlus (r : regex) : regex := RCat r (RStar r).
Definition ROpt (r : regex) : regex := RAlt r REps.
Definition RChar (c : ascii) : regex := RClass (Ascii.eqb c).

(** [^(\d+d)?(\d+h)?(\d+m)?$] *)
Definition intervalRegex : regex :=
  RCat (ROpt (RCat (RPlus (RClass isDigit)) (RChar "d")))
 (RCat (ROpt (RCat (RPlus (RClass isDigit)) (RChar "h")))
       (ROpt (RCat (RPlus (RClass isDigit)) (RChar "m")))).

(** ** The policy enumeration *)

(** [pull_policy.go] declares the first four values.  Modelled from the
    spec: [PullHourly], [PullDaily] and [PullWeekly] are named by
    [fetcher.go] and declared in no file at hand; they are the fixed
    aliases of the interval policy. *)
Inductive PullPolicy : Type :=
| PullAlways
| PullNever
| PullIfNotPresent
| PullWithInterval
| PullHourly
| PullDaily
| PullWeekly.

#[global] Instance PullPolicy_eq_dec : EqDecision PullPolicy.
Proof. solve_decision. Defined.

(** [nameMap] *)
Definition nameMap : gmap string PullPolicy :=
  <["always" := PullAlways]> (<["never" := PullNever]>
  (<["if-not-present" := PullIfNotPresent]> (<["" := PullAlways]> ∅))).

(** ** Time *)

(** The two functions of package [time] that read and write the ledger's
    timestamps: [time.Parse(time.RFC3339, s)] and [t.Format(time.RFC3339)].
    They belong to Go's library, so the package is modelled over any pair
    of them; [RFC3339.utc] below is the instance used on concrete ledgers. *)
Class TimeLib : Type := {
  time_Parse : string -> result Z;
  time_Format : Z -> string
}.

(** [-d] on a [time.Duration] *)
Definition Duration_neg (d : Z) : Z := wrap64 (- d).

(** [t.Add(d)] *)
Definition Time_Add (t d : Z) : Z := t + d.

(** [t.Before(u)] *)
Definition Time_Before (t u : Z) : bool := t <? u.

(** [t.Sub(u)]: the difference, saturated to the range of a Duration. *)
Definition Time_Sub (t u : Z) : Z :=
  if int_max <? t - u then int_max
  else if t - u <? int_min then int_min
  else t - u.

Module RFC3339.

(** Timestamps [YYYY-MM-DDTHH:MM:SS] followed by [Z] or by [+hh:mm] or
    [-hh:mm], which is what [Format] writes; [Format] is taken in UTC. *)

Fixpoint number (s : string) (acc : Z) : option Z :=
  match s with
  | EmptyString => Some acc
  | String c s' =>
      if isDigit c then number s' (acc * 10 + digitVal c) else None
  end.

Definition field (s : string) (pos len : nat) : option Z :=
  let f := String.substring pos len s in
  if (String.length f =? len)%nat then number f 0 else None.

Definition is_leap (y : Z) : bool :=
  (y mod 4 =? 0) && (negb (y mod 100 =? 0) || (y mod 400 =? 0)).

Definition days_in (y m : Z) : Z :=
  if m =? 2 then (if is_leap y then 29 else 28)
  else if (m =? 4) || (m =? 6) || (m =? 9) || (m =? 11) then 30
  else 31.

(** Days from 1970-01-01 to the civil date [y]-[m]-[d]. *)
Definition days_from_civil (y m d : Z) : Z :=
  let y' := if m <=? 2 then y - 1 else y in
  let era := y' / 400 in
  let yoe := y' - era * 400 in
  let mp := (m + 9) mod 12 in
  let doy := (153 * mp + 2) / 5 + d - 1 in
  let doe := yoe * 365 + yoe / 4 - yoe / 100 + doy in
  era * 146097 + doe - 719468.

Definition civil_from_days (z : Z) : Z * Z * Z :=
  let z := z + 719468 in
  let era := z / 146097 in
  let doe := z - era * 146097 in
  let yoe := (doe - doe / 1460 + doe / 36524 - doe / 146096) / 365 in
  let doy := doe - (365 * yoe + yoe / 4 - yoe / 100) in
  let mp := (5 * doy + 2) / 153 in
  let d := doy - (153 * mp + 2) / 5 + 1 in
  let m := if mp <? 10 then mp + 3 else mp - 9 in
  (if m <=? 2 then yoe + era * 400 + 1 else yoe + era * 400, m, d).

Definition zone (s : string) : option Z :=
  if String.eqb s "Z" then Some 0
  else
    match String.get 0 s, field s 1 2, String.get 3 s, field s 4 2 with
    | Some sign, Some hh, Some colon, Some mm =>
        if (String.length s =? 6)%nat && Ascii.eqb colon ":"
           && (hh <? 24) && (mm <? 60) then
          if Ascii.eqb sign "+" then Some (hh * 3600 + mm * 60)
          else if Ascii.eqb sign "-" then Some (- (hh * 3600 + mm * 60))
          else None
        else None
    | _, _, _, _ => None
    end.

Definition sep (s : string) (pos : nat) (c : ascii) : bool :=
  match String.get pos s with
  | Some c' => Ascii.eqb c' c
  | None => false
  end.

Definition Parse (s : string) : result Z :=
  let bad := Err (ErrExt ("parsing time " +:+ quoted s) false) in
  match field s 0 4, field s 5 2, field s 8 2,
        field s 11 2, field s 14 2, field s 17 2,
        zone (string_drop 19 s) with
  | Some y, Some mo, Some d, Some h, Some mi, Some sec, Some off =>
      if sep s 4 "-" && sep s 7 "-" && sep s 10 "T"
         && sep s 13 ":" && sep s 16 ":"
         && (1 <=? mo) && (mo <=? 12) && (1 <=? d) && (d <=? days_in y mo)
         && (h <? 24) && (mi <? 60) && (sec <? 60) then
        Ok ((days_from_civil y mo d * 86400 + h * 3600 + mi * 60 + sec - off)
            * 1000000000)
      else bad
  | _, _, _, _, _, _, _ => bad
  end.

Definition digit (n : Z) : ascii := ascii_of_nat (Z.to_nat (48 + n mod 10)).

Definition pad2 (n : Z) : string := String (digit (n / 10)) (String (digit n) "").

Definition pad4 (n : Z) : string := pad2 (n / 100) +:+ pad2 (n mod 100).

Definition Format (t : Z) : string :=
  let secs := t / 1000000000 in
  let days := secs / 86400 in
  let rem := secs mod 86400 in
  let '(y, m, d) := civil_from_days days in
  pad4 y +:+ "-" +:+ pad2 m +:+ "-" +:+ pad2 d +:+ "T"
    +:+ pad2 (rem / 3600) +:+ ":" +:+ pad2 (rem mod 3600 / 60) +:+ ":"
    +:+ pad2 (rem mod 60) +:+ "Z".

Definition utc : TimeLib := {| time_Parse := Parse; time_Format := Format |}.

End RFC3339.

(** ** The ledger document and the file system *)

(** [ImageJSON].  A nil map and an empty map behave alike for lookup, range
    and delete, and the one assignment is guarded by [make]; both are the
    empty [gmap]. *)
Record IntervalJSON : Type := {
  PullingInterval : string;
  PruningIinterval : string;
  LastPrune : string
}.

Record ImageRecords : Type := {
  ImageIDtoTIME : gmap string string
}.

Record ImageJSON : Type := {
  Interval : IntervalJSON;
  Image : ImageRecords
}.

(** The bytes of a file, up to what [json.Unmarshal] makes of them. *)
Inductive Content : Type :=
| Json (doc : ImageJSON)
| Malformed (raw : string).

Definition json_MarshalIndent (imageJSON : ImageJSON) : Content := Json imageJSON.

Definition json_Unmarshal (data : Content) : result ImageJSON :=
  match data with
  | Json doc => Ok doc
  | Malformed _ => Err (ErrExt "invalid character in JSON input" false)
  end.

(** The literal written when [image.json] is missing. *)
Definition minimumJSON : Content :=
  Json {| Interval := {| PullingInterval := ""; PruningIinterval := "7d";
                         LastPrune := "" |};
          Image := {| ImageIDtoTIME := ∅ |} |}.

(** The directory [<home>/.pack] and the file [image.json] in it. *)
Inductive Disk : Type :=
| NoDir
| NoFile
| File (data : Content).

(** The part of the file system the package touches.  [fs_mkdir],
    [fs_write] and [fs_read] hold the error with which [os.MkdirAll],
    [os.WriteFile] and [os.ReadFile] fail, if they do; [fs_writes] counts
    the writes that went through. *)
Record FS : Type := {
  fs_home : result string;
  fs_disk : Disk;
  fs_mkdir : option error;
  fs_write : option error;
  fs_read : option error;
  fs_writes : nat
}.

Definition with_disk (fs : FS) (d : Disk) (n : nat) : FS :=
  {| fs_home := fs_home fs; fs_disk := d; fs_mkdir := fs_mkdir fs;
     fs_write := fs_write fs; fs_read := fs_read fs; fs_writes := n |}.

(** [filepath.Join(homeDir, ".pack", "image.json")] and its [filepath.Dir] *)
Definition ledgerDir (homeDir : string) : string := homeDir +:+ "/.pack".
Definition ledgerPath (homeDir : string) : string := ledgerDir homeDir +:+ "/image.json".

Definition is_ledger_path (fs : FS) (path : string) : bool :=
  match fs_home fs with
  | Ok homeDir => String.eqb path (ledgerPath homeDir)
  | Err _ => false
  end.

Definition no_such_file (path : string) : error :=
  ErrExt ("open " +:+ path +:+ ": no such file or directory") false.

(** [os.IsNotExist] of the error of [os.Stat(dirPath)] *)
Definition dir_missing (fs : FS) : bool :=
  match fs_disk fs with
  | NoDir => true
  | _ => false
  end.

(** [os.IsNotExist] of the error of [os.Stat(imagePath)] *)
Definition file_missing (fs : FS) : bool :=
  match fs_disk fs with
  | File _ => false
  | _ => true
  end.

Definition os_MkdirAll (fs : FS) : option error * FS :=
  match fs_mkdir fs with
  | Some err => (Some err, fs)
  | None =>
      match fs_disk fs with
      | NoDir => (None, with_disk fs NoFile (fs_writes fs))
      | _ => (None, fs)
      end
  end.

Definition os_WriteFile (path : string) (data : Content) (fs : FS) : option error * FS :=
  if is_ledger_path fs path then
    match fs_write fs, fs_disk fs with
    | Some err, _ => (Some err, fs)
    | None, NoDir => (Some (no_such_file path), fs)
    | None, _ => (None, with_disk fs (File data) (S (fs_writes fs)))
    end
  else (Some (no_such_file path), fs).

(** [os.ReadFile]; the boolean is [os.IsNotExist] of the error. *)
Definition os_ReadFile (path : string) (fs : FS) : result Content * bool :=
  if is_ledger_path fs path then
    match fs_disk fs with
    | File data =>
        match fs_read fs with
        | Some err => (Err err, false)
        | None => (Ok data, false)
        end
    | _ => (Err (no_such_file path), true)
    end
  else (Err (no_such_file path), true).

(** ** Process state *)

Inductive LogLine : Type :=
| Debugf (msg : string)
| Warnf (msg : string)
| Errorf (msg : string).

(** The package variables [interval] and [imagePath], the file system and
    the wall clock: the [n]-th call of [time.Now] reads [ticks n]. *)
Record State : Type := {
  interval : string;
  imagePath : string;
  fs : FS;
  ticks : nat -> Z;
  reads : nat
}.

(** Computations over a state [S] that may panic; the lines handed to the
    loggers are collected next to the result, oldest first. *)
Definition M (S A : Type) : Type := S -> outcome (A * S * list LogLine).

Definition ret {S A : Type} (a : A) : M S A := fun s => Ret (a, s, []).

Definition bind {S A B : Type} (c : M S A) (k : A -> M S B) : M S B :=
  fun s =>
    match c s with
    | Ret (a, s', l) =>
        match k a s' with
        | Ret (b, s'', l') => Ret (b, s'', (l ++ l')%list)
        | Panic msg => Panic msg
        | Diverge => Diverge
        end
    | Panic msg => Panic msg
    | Diverge => Diverge
    end.

Notation "'let!' x ':=' c 'in' k" := (bind c (fun x => k))
  (at level 10, x pattern, c at level 100, k at level 200, only parsing).

Definition lift_outcome {S A : Type} (o : outcome A) : M S A :=
  fun s =>
    match o with
    | Ret a => Ret (a, s, [])
    | Panic msg => Panic msg
    | Diverge => Diverge
    end.

Definition panic {S A : Type} (msg : string) : M S A := fun _ => Panic msg.

Definition set_interval (v : string) : M State unit := fun st =>
  Ret (tt, {| interval := v; imagePath := imagePath st; fs := fs st;
              ticks := ticks st; reads := reads st |}, []).

Definition set_imagePath (v : string) : M State unit := fun st =>
  Ret (tt, {| interval := interval st; imagePath := v; fs := fs st;
              ticks := ticks st; reads := reads st |}, []).

Definition get_state : M State State := fun st => Ret (st, st, []).

Definition with_fs {A : Type} (op : FS -> A * FS) : M State A := fun st =>
  let '(a, fs') := op (fs st) in
  Ret (a, {| interval := interval st; imagePath := imagePath st; fs := fs';
             ticks := ticks st; reads := reads st |}, []).

Definition log {S : Type} (line : LogLine) : M S unit := fun s => Ret (tt, s, [line]).

(** [time.Now()] *)
Definition time_Now : M State Z := fun st =>
  Ret (ticks st (reads st),
       {| interval := interval st; imagePath := imagePath st; fs := fs st;
          ticks := ticks st; reads := S (reads st) |}, []).

(** ** [pull_policy.go] *)

Section PullPolicyGo.

(** [readImageJSON]: sets [imagePath], creates the directory and the file
    when they are missing, then reads and decodes the file. *)
Definition readImageJSON : M State (result ImageJSON) :=
  let! st := get_state in
  match fs_home (fs st) with
  | Err err => ret (Err (ErrWrap err "failed to get home directory"))
  | Ok homeDir =>
      let! _ := set_imagePath (ledgerPath homeDir) in
      let dirPath := ledgerDir homeDir in
      let! made :=
        (if dir_missing (fs st) then
           let! _ := log (Warnf ("missing `.pack` directory under " +:+ homeDir
                                 +:+ " directory " +:+ Error (no_such_file dirPath))) in
           let! _ := log (Debugf ("creating `.pack` directory under " +:+ homeDir
                                  +:+ " directory")) in
           with_fs os_MkdirAll
         else ret None) in
      match made with
      | Some err => ret (Err (ErrWrap err "failed to create directory"))
      | None =>
          let! st1 := get_state in
          let! created :=
            (if file_missing (fs st1) then
               let! _ := log (Warnf ("missing `image.json` file under " +:+ dirPath
                                     +:+ " directory "
                                     +:+ Error (no_such_file (ledgerPath homeDir)))) in
               let! _ := log (Debugf ("creating `image.json` file under " +:+ dirPath
                                      +:+ " directory")) in
               with_fs (os_WriteFile (ledgerPath homeDir) minimumJSON)
             else ret None) in
          match created with
          | Some err => ret (Err (ErrWrap err "failed to create image.json file"))
          | None =>
              let! st2 := get_state in
              match os_ReadFile (ledgerPath homeDir) (fs st2) with
              | (Err err, false) => ret (Err (ErrWrap err "failed to read image.json"))
              | (Err _, true) =>
                  ret (Err (ErrWrap (ErrExt "unexpected end of JSON input" false)
                                    "failed to unmarshal image.json"))
              | (Ok jsonData, _) =>
                  match json_Unmarshal jsonData with
                  | Err err => ret (Err (ErrWrap err "failed to unmarshal image.json"))
                  | Ok imageJSON => ret (Ok imageJSON)
                  end
              end
          end
      end
  end.

Definition updateImageJSONDuration (intervalStr : string) : M State (option error) :=
  let! r := readImageJSON in
  match r with
  | Err err => ret (Some err)
  | Ok imageJSON =>
      let imageJSON :=
        {| Interval := {| PullingInterval := intervalStr;
                          PruningIinterval := PruningIinterval (Interval imageJSON);
                          LastPrune := LastPrune (Interval imageJSON) |};
           Image := Image imageJSON |} in
      let updatedJSON := json_MarshalIndent imageJSON in
      let! st := get_state in
      with_fs (os_WriteFile (imagePath st) updatedJSON)
  end.

(** [ParsePullPolicy]; on failure the source returns [PullAlways] next to
    the error. *)
Definition ParsePullPolicy (policy : string) : M State (result PullPolicy) :=
  match nameMap !! policy with
  | Some val => ret (Ok val)
  | None =>
      if String.prefix "interval=" policy then
        let! _ := set_interval policy in
        let intervalStr := string_drop 9 policy in
        if negb (MatchString intervalRegex intervalStr) then
          ret (Err (ErrNew ("invalid interval format: " +:+ intervalStr)))
        else
          let! _ := updateImageJSONDuration intervalStr in
          ret (Ok PullWithInterval)
      else ret (Err (ErrNew ("invalid pull policy " +:+ policy)))
  end.

(** [PullPolicy.String]; it reads the package variable [interval]. *)
Definition String_ (p : PullPolicy) (st : State) : string :=
  match p with
  | PullAlways => "always"
  | PullNever => "never"
  | PullIfNotPresent => "if-not-present"
  | PullWithInterval => "interval=" +:+ interval st
  | _ => ""
  end.

Context `{TimeLib}.

(** The method [CheckImagePullInterval] of [Fetcher]; the source returns
    [false] next to an error. *)
Definition CheckImagePullInterval_method (imageID : string)
    : M State (bool * option error) :=
  let! r := readImageJSON in
  match r with
  | Err err => ret (false, Some err)
  | Ok imageJSON =>
      match ImageIDtoTIME (Image imageJSON) !! imageID with
      | None => ret (true, None)
      | Some timestamp =>
          match time_Parse timestamp with
          | Err err =>
              ret (false, Some (ErrWrap err "failed to parse image timestamp from JSON"))
          | Ok imageTimestamp =>
              let durationStr := PullingInterval (Interval imageJSON) in
              let! d := lift_outcome (parseDurationString durationStr) in
              match d with
              | Err err =>
                  ret (false, Some (ErrWrap err "failed to parse duration from JSON"))
              | Ok duration =>
                  let! now := time_Now in
                  let timeThreshold := Time_Add now (Duration_neg duration) in
                  ret (Time_Before imageTimestamp timeThreshold, None)
              end
          end
      end
  end.

(** The range loop of [PruneOldImages] over the entries in the order
    [entries]; Go leaves the order open.  An entry deleted by the loop is
    not visited again, and no entry is added. *)
Fixpoint pruneLoop (entries : list (string * string))
    (images : gmap string string) (pruningThreshold : Z)
    : result (gmap string string) :=
  match entries with
  | [] => Ok images
  | (imageID, timestamp) :: rest =>
      match time_Parse timestamp with
      | Err err => Err (ErrWrap err "failed to parse image timestamp fron JSON")
      | Ok imageTimestamp =>
          if Time_Before imageTimestamp pruningThreshold then
            pruneLoop rest (delete imageID images) pruningThreshold
          else pruneLoop rest images pruningThreshold
      end
  end.

Definition PruneOldImages : M State (option error) :=
  let! r := readImageJSON in
  match r with
  | Err err => ret (Some err)
  | Ok imageJSON =>
      let! skip :=
        (if negb (String.eqb (LastPrune (Interval imageJSON)) "") then
           match time_Parse (LastPrune (Interval imageJSON)) with
           | Err err =>
               ret (inl (ErrWrap err "failed to parse last prune timestamp from JSON"))
           | Ok lastPruneTime =>
               let! d := lift_outcome
                           (parseDurationString (PruningIinterval (Interval imageJSON))) in
               match d with
               | Err err =>
                   ret (inl (ErrWrap err "failed to parse pruning interval from JSON"))
               | Ok pruningInterval =>
                   let! now := time_Now in
                   ret (inr (Time_Sub now lastPruneTime <? pruningInterval))
               end
           end
         else ret (inr false)) in
      match skip with
      | inl err => ret (Some err)
      | inr true => ret None
      | inr false =>
          let! d := lift_outcome
                      (parseDurationString (PruningIinterval (Interval imageJSON))) in
          match d with
          | Err err => ret (Some (ErrWrap err "failed to parse pruning interval from JSON"))
          | Ok pruningDuration =>
              let! now := time_Now in
              let pruningThreshold := Time_Add now (Duration_neg pruningDuration) in
              let images := ImageIDtoTIME (Image imageJSON) in
              match pruneLoop (map_to_list images) images pruningThreshold with
              | Err err => ret (Some err)
              | Ok images' =>
                  let! now' := time_Now in
                  let imageJSON :=
                    {| Interval :=
                         {| PullingInterval := PullingInterval (Interval imageJSON);
                            PruningIinterval := PruningIinterval (Interval imageJSON);
                            LastPrune := time_Format now' |};
                       Image := {| ImageIDtoTIME := images' |} |} in
                  let updatedJSON := json_MarshalIndent imageJSON in
                  let! st := get_state in
                  let! w := with_fs (os_WriteFile (imagePath st) updatedJSON) in
                  match w with
                  | Some err => ret (Some (ErrWrap err "failed to write updated image.json"))
                  | None => ret None
                  end
              end
          end
      end
  end.

End PullPolicyGo.

(** ** [fetcher.go] *)

Record LayoutOption : Type := {
  Path : string;
  Sparse : bool
}.

(** [FetchOptions]; the fields [PullPolicy] and [LayoutOption] carry a
    trailing underscore, their names being those of their types. *)
Record FetchOptions : Type := {
  Daemon : bool;
  Platform : string;
  PullPolicy_ : PullPolicy;
  LayoutOption_ : LayoutOption
}.

(** [options.LayoutOption != LayoutOption{}] *)
Definition layout_set (o : LayoutOption) : bool :=
  negb (String.eqb (Path o) "" && negb (Sparse o)).

Definition intervalPolicy (options : FetchOptions) : bool :=
  bool_decide (PullPolicy_ options = PullWithInterval)
  || bool_decide (PullPolicy_ options = PullHourly)
  || bool_decide (PullPolicy_ options = PullDaily)
  || bool_decide (PullPolicy_ options = PullWeekly).

(** The interface [ImagePullChecker].  An implementation may keep a state
    [C] of its own next to the process state; [ReadImageJSON] returns a
    pointer, [None] being nil. *)
Module ImagePullChecker.
Record t (C : Type) : Type := {
  CheckImagePullInterval : string -> M (C * State) (bool * option error);
  ReadImageJSON : M (C * State) (option ImageJSON * option error);
  PruneOldImages : M (C * State) (option error);
  UpdateImagePullRecord : string -> string -> M (C * State) (option error)
}.
Arguments CheckImagePullInterval {C} _ _ _.
Arguments ReadImageJSON {C} _ _.
Arguments PruneOldImages {C} _ _.
Arguments UpdateImagePullRecord {C} _ _ _ _.
End ImagePullChecker.

(** What a call of [Fetch] runs in: the process state, the daemon and the
    checker's own state. *)
Record World (D C : Type) : Type := {
  proc : State;
  daemon : D;
  checker : C
}.
Arguments proc {D C} _.
Arguments daemon {D C} _.
Arguments checker {D C} _.

Section Fetcher.

Context `{TimeLib}.
Context {D C Img V1Image Authenticator Stream : Type}.

(** What [Fetch] consumes from outside the package: the mirror translation
    of [internal/name], the image constructors of imgutil, the credential
    lookup and the daemon client, over a daemon state [D]; and
    [style.Symbol].  [Authorization] stands for [a.Authorization()] with the
    JSON and base64 encoding that [registryAuth] applies to its result. *)
Record Collaborators : Type := {
  TranslateRegistry : string -> result string;
  local_NewImage : string -> D -> result Img;
  remote_NewImage : string -> result Img;
  remote_NewV1Image : string -> result V1Image;
  sparse_NewImage : string -> V1Image -> result Img;
  layout_NewImage : string -> V1Image -> result Img;
  Found : Img -> bool;
  Save : Img -> option error;
  auth_ReferenceForRepoName : string -> result Authenticator;
  Authorization : Authenticator -> result string;
  docker_ImagePull : string -> string -> string -> D -> result Stream * D;
  DisplayJSONMessagesStream : Stream -> option error;
  Close : Stream -> option error;
  style_Symbol : string -> string
}.

Variable ext : Collaborators.

Definition in_proc {A : Type} (c : M State A) : M (World D C) A := fun w =>
  match c (proc w) with
  | Ret (a, st', l) =>
      Ret (a, {| proc := st'; daemon := daemon w; checker := checker w |}, l)
  | Panic msg => Panic msg
  | Diverge => Diverge
  end.

Definition in_checker {A : Type} (c : M (C * State) A) : M (World D C) A := fun w =>
  match c (checker w, proc w) with
  | Ret (a, (c', st'), l) =>
      Ret (a, {| proc := st'; daemon := daemon w; checker := c' |}, l)
  | Panic msg => Panic msg
  | Diverge => Diverge
  end.

Definition get_daemon : M (World D C) D := fun w => Ret (daemon w, w, []).

Definition set_daemon (d : D) : M (World D C) unit := fun w =>
  Ret (tt, {| proc := proc w; daemon := d; checker := checker w |}, []).

Definition fetchDaemonImage (name : string) : M (World D C) (result Img) :=
  let! d := get_daemon in
  match local_NewImage ext name d with
  | Err err => ret (Err err)
  | Ok image =>
      if negb (Found ext image) then
        ret (Err (ErrWrap ErrNotFound
                    ("image " +:+ style_Symbol ext name
                     +:+ " does not exist on the daemon")))
      else ret (Ok image)
  end.

Definition fetchRemoteImage (name : string) : M (World D C) (result Img) :=
  match remote_NewImage ext name with
  | Err err => ret (Err err)
  | Ok image =>
      if negb (Found ext image) then
        ret (Err (ErrWrap ErrNotFound
                    ("image " +:+ style_Symbol ext name
                     +:+ " does not exist in registry")))
      else ret (Ok image)
  end.

Definition fetchLayoutImage (name : string) (options : LayoutOption)
    : M (World D C) (result Img) :=
  match remote_NewV1Image ext name with
  | Err err => ret (Err err)
  | Ok v1Image =>
      let made :=
        if Sparse options then sparse_NewImage ext (Path options) v1Image
        else layout_NewImage ext (Path options) v1Image in
      match made with
      | Err err => ret (Err err)
      | Ok image =>
          match Save ext image with
          | Some err => ret (Err err)
          | None => ret (Ok image)
          end
      end
  end.

Definition registryAuth (ref : string) : result string :=
  match auth_ReferenceForRepoName ext ref with
  | Err err => Err (ErrWrap err ("resolve auth for ref " +:+ ref))
  | Ok a => Authorization ext a
  end.

Definition pullImage (imageID platform : string) : M (World D C) (option error) :=
  match registryAuth imageID with
  | Err err => ret (Some err)
  | Ok regAuth =>
      let! d := get_daemon in
      let '(pulled, d') := docker_ImagePull ext imageID regAuth platform d in
      let! _ := set_daemon d' in
      match pulled with
      | Err err =>
          if client_IsErrNotFound err then
            ret (Some (ErrWrap ErrNotFound
                         ("image " +:+ style_Symbol ext imageID
                          +:+ " does not exist on the daemon")))
          else ret (Some err)
      | Ok rc =>
          match DisplayJSONMessagesStream ext rc with
          | Some err => ret (Some err)
          | None => ret (Close ext rc)
          end
      end
  end.

(** The pull with its one retry, shared by both fetchers:
    [if err = f.pullImage(ctx, name, options.Platform); err != nil { ... }] *)
Definition pullWithRetry (name platform : string) : M (World D C) (option error) :=
  let! err := pullImage name platform in
  match err with
  | Some e =>
      if strings_Contains (Error e) "does not match the specified platform" then
        pullImage name ""
      else ret (Some e)
  | None => ret None
  end.

(** Modelled from the spec: [WriteFile] is called by [fetcher.go] and
    defined in no file at hand.  The ledger's Write overwrites the file
    and fails when the write fails; the file is the one [imagePath] names,
    as in the writes of [pull_policy.go]. *)
Definition WriteFile (data : Content) : M State (option error) :=
  let! st := get_state in
  with_fs (os_WriteFile (imagePath st) data).

(** Modelled from the spec: [ReadImageJSON] is called by [fetcher.go] and
    defined in no file at hand.  The ledger's Read loads the document,
    creating directory and file when absent, as [readImageJSON] does. *)
Definition ReadImageJSON : M State (result ImageJSON) := readImageJSON.

Definition UpdateImagePullRecord (imageID timestamp : string) : M State (option error) :=
  let! r := ReadImageJSON in
  match r with
  | Err err => ret (Some err)
  | Ok imageJSON =>
      let imageJSON :=
        {| Interval := Interval imageJSON;
           Image := {| ImageIDtoTIME :=
                         <[imageID := timestamp]> (ImageIDtoTIME (Image imageJSON)) |} |} in
      let updatedJSON := json_MarshalIndent imageJSON in
      WriteFile updatedJSON
  end.

Definition CheckImagePullInterval (imageID : string) : M State (bool * option error) :=
  let! r := ReadImageJSON in
  match r with
  | Err err => ret (false, Some err)
  | Ok imageJSON =>
      match ImageIDtoTIME (Image imageJSON) !! imageID with
      | None => ret (true, None)
      | Some timestamp =>
          match time_Parse timestamp with
          | Err err =>
              ret (false, Some (ErrWrap err "failed to parse image timestamp from JSON"))
          | Ok imageTimestamp =>
              let durationStr := PullingInterval (Interval imageJSON) in
              let! d := lift_outcome (parseDurationString durationStr) in
              match d with
              | Err err =>
                  ret (false, Some (ErrWrap err "failed to parse duration from JSON"))
              | Ok duration =>
                  let! now := time_Now in
                  let timeThreshold := Time_Add now (Duration_neg duration) in
                  ret (Time_Before imageTimestamp timeThreshold, None)
              end
          end
      end
  end.

Variable imagePullChecker : ImagePullChecker.t C.

(** The branch [if !pull { ... }] of [Fetch]: the daemon lookup, and on
    NotFound the removal of the image's entry from the ledger. *)
Definition fetchWithoutPull (name : string) : M (World D C) (result Img) :=
  let! r := fetchDaemonImage name in
  let! _ :=
    (match r with
     | Err err =>
         if IsNotFound err then
           let! (ptr, _) := in_checker (ImagePullChecker.ReadImageJSON imagePullChecker) in
           match ptr with
           | None => panic "invalid memory address or nil pointer dereference"
           | Some imageJSON =>
               let imageJSON :=
                 {| Interval := Interval imageJSON;
                    Image := {| ImageIDtoTIME :=
                                  delete name (ImageIDtoTIME (Image imageJSON)) |} |} in
               let updatedJSON := json_MarshalIndent imageJSON in
               let! w := in_proc (WriteFile updatedJSON) in
               match w with
               | Some err =>
                   log (Errorf ("failed to write updated image.json " +:+ Error err))
               | None => ret tt
               end
           end
         else ret tt
     | Ok _ => ret tt
     end) in
  ret r.

(** The tail of [Fetch] from [f.logger.Debugf("Pulling image %s", ...)]
    on; [record] is what follows the second daemon lookup. *)
Definition pullAndResolve (name : string) (options : FetchOptions)
    (record : M (World D C) (option error)) : M (World D C) (result Img) :=
  let! _ := log (Debugf ("Pulling image " +:+ style_Symbol ext name)) in
  let! err := pullWithRetry name (Platform options) in
  let resolve : M (World D C) (result Img) :=
    let! r := fetchDaemonImage name in
    match r with
    | Err err => ret (Err err)
    | Ok image =>
        let! u := record in
        match u with
        | Some err => ret (Err err)
        | None => ret (Ok image)
        end
    end in
  match err with
  | Some e => if negb (IsNotFound e) then ret (Err e) else resolve
  | None => resolve
  end.

(** The case [PullWithInterval, PullDaily, PullHourly, PullWeekly] of the
    switch of [Fetch]: [Some r] when [Fetch] returns [r] from it, [None]
    when it goes on to the pull. *)
Definition intervalCase (name : string) : M (World D C) (option (result Img)) :=
  let! (pull, err) :=
    in_checker (ImagePullChecker.CheckImagePullInterval imagePullChecker name) in
  let! _ :=
    (match err with
     | Some e =>
         log (Warnf ("failed to check pulling interval for image "
                     +:+ name +:+ ", " +:+ Error e))
     | None => ret tt
     end) in
  if negb pull then
    let! r := fetchWithoutPull name in ret (Some r)
  else
    let! err := in_checker (ImagePullChecker.PruneOldImages imagePullChecker) in
    let! _ :=
      (match err with
       | Some e => log (Warnf ("Failed to prune images, " +:+ Error e))
       | None => ret tt
       end) in
    ret None.

(** [if intervalPolicy(options) { ... UpdateImagePullRecord ... }] *)
Definition recordPull (name : string) (options : FetchOptions)
    : M (World D C) (option error) :=
  if intervalPolicy options then
    let! now := in_proc time_Now in
    in_checker (ImagePullChecker.UpdateImagePullRecord imagePullChecker
                  name (time_Format now))
  else ret None.

Definition Fetch (name : string) (options : FetchOptions) : M (World D C) (result Img) :=
  match TranslateRegistry ext name with
  | Err err => ret (Err err)
  | Ok name =>
      if layout_set (LayoutOption_ options) then
        fetchLayoutImage name (LayoutOption_ options)
      else if negb (Daemon options) then fetchRemoteImage name
      else
        let! returned :=
          (match PullPolicy_ options with
           | PullNever =>
               let! r := fetchDaemonImage name in ret (Some r)
           | PullIfNotPresent =>
               let! r := fetchDaemonImage name in
               match r with
               | Ok img => ret (Some (Ok img))
               | Err err => if negb (IsNotFound err) then ret (Some (Err err)) else ret None
               end
           | PullWithInterval | PullDaily | PullHourly | PullWeekly =>
               intervalCase name
           | PullAlways => ret None
           end) in
        match returned with
        | Some r => ret r
        | None => pullAndResolve name options (recordPull name options)
        end
  end.

End Fetcher.

(** ** The checker of [fetcher.go] and the earlier fetcher *)

Section PullChecker.

Context `{TimeLib}.

Definition on_process {A : Type} (c : M State A) : M (unit * State) A := fun s =>
  match c (snd s) with
  | Ret (a, st', l) => Ret (a, (tt, st'), l)
  | Panic msg => Panic msg
  | Diverge => Diverge
  end.

(** [PullChecker], whose methods call the package functions.  The pointer
    that [ReadImageJSON] returns next to an error is [failed]: its body is
    in no file at hand.  Modelled from the spec: [PruneOldImages(l, f)] is
    the prune of the ledger, as the method of [pull_policy.go]. *)
Definition PullChecker (failed : option ImageJSON) : ImagePullChecker.t unit := {|
  ImagePullChecker.CheckImagePullInterval := fun imageID =>
    on_process (CheckImagePullInterval imageID);
  ImagePullChecker.ReadImageJSON :=
    on_process (let! r := ReadImageJSON in
                match r with
                | Ok imageJSON => ret (Some imageJSON, None)
                | Err err => ret (failed, Some err)
                end);
  ImagePullChecker.PruneOldImages := on_process PruneOldImages;
  ImagePullChecker.UpdateImagePullRecord := fun imageID timestamp =>
    on_process (UpdateImagePullRecord imageID timestamp)
|}.

End PullChecker.

Module Legacy.
Section LegacyFetcher.

Context `{TimeLib}.
Context {D C Img V1Image Authenticator Stream : Type}.
Variable ext : @Collaborators D Img V1Image Authenticator Stream.

(** [strings.Split(name, "@")]; [cur] is the part being read. *)
Fixpoint split_at (s cur : string) : list string :=
  match s with
  | EmptyString => [cur]
  | String c s' =>
      if Ascii.eqb c "@" then cur :: split_at s' ""
      else split_at s' (cur +:+ String c "")
  end.

Definition imageID_of (name : string) : string :=
  match split_at name "" with
  | _ :: part1 :: _ => part1
  | part0 :: _ => part0
  | [] => ""
  end.

Definition updateImagePullRecord (imageID timestamp : string) : M State (option error) :=
  let! r := readImageJSON in
  match r with
  | Err err => ret (Some err)
  | Ok imageJSON =>
      let imageJSON :=
        {| Interval := Interval imageJSON;
           Image := {| ImageIDtoTIME :=
                         <[imageID := timestamp]> (ImageIDtoTIME (Image imageJSON)) |} |} in
      let updatedJSON := json_MarshalIndent imageJSON in
      let! st := get_state in
      with_fs (os_WriteFile (imagePath st) updatedJSON)
  end.

Definition Fetch (name : string) (options : FetchOptions) : M (World D C) (result Img) :=
  match TranslateRegistry ext name with
  | Err err => ret (Err err)
  | Ok name =>
      let imageID := imageID_of name in
      if layout_set (LayoutOption_ options) then
        fetchLayoutImage ext name (LayoutOption_ options)
      else if negb (Daemon options) then fetchRemoteImage ext name
      else
        let! returned :=
          (match PullPolicy_ options with
           | PullNever =>
               let! r := fetchDaemonImage ext name in ret (Some r)
           | PullIfNotPresent =>
               let! r := fetchDaemonImage ext name in
               match r with
               | Ok img => ret (Some (Ok img))
               | Err err => if negb (IsNotFound err) then ret (Some (Err err)) else ret None
               end
           | PullWithInterval =>
               let! (pull, err) := in_proc (CheckImagePullInterval_method imageID) in
               match err with
               | Some e => ret (Some (Err e))
               | None =>
                   let! r := fetchDaemonImage ext name in
                   let prune : M (World D C) (option (result Img)) :=
                     let! err := in_proc PruneOldImages in
                     let! _ :=
                       (match err with
                        | Some e =>
                            log (Warnf ("Failed to prune images that are older than 7 days, "
                                        +:+ Error e))
                        | None => ret tt
                        end) in
                     ret None in
                   match r with
                   | Err e =>
                       if negb pull && negb (IsNotFound e) then ret (Some (Err e))
                       else prune
                   | Ok _ => prune
                   end
               end
           | _ => ret None
           end) in
        match returned with
        | Some r => ret r
        | None =>
            pullAndResolve ext name options
              (let! now := in_proc time_Now in
               in_proc (updateImagePullRecord imageID (time_Format now)))
        end
  end.

End LegacyFetcher.
End Legacy.

(** ** A daemon and a registry to run the fetchers on *)

Module Sim.

(** The daemon state is the list of the images it holds; [registry] lists
    what can be pulled.  An image handle is its name and whether it was
    found. *)
Definition has (name : string) (images : list string) : bool :=
  existsb (String.eqb name) images.

Definition ext (registry : list string)
    : @Collaborators (list string) (string * bool) string string string := {|
  TranslateRegistry := fun name => Ok name;
  local_NewImage := fun name d => Ok (name, has name d);
  remote_NewImage := fun name => Ok (name, has name registry);
  remote_NewV1Image := fun name => Ok name;
  sparse_NewImage := fun _ v1Image => Ok (v1Image, true);
  layout_NewImage := fun _ v1Image => Ok (v1Image, true);
  Found := snd;
  Save := fun _ => None;
  auth_ReferenceForRepoName := fun ref => Ok ref;
  Authorization := fun _ => Ok "e30=";
  docker_ImagePull := fun name _ _ d =>
    if has name registry then (Ok name, name :: d)
    else (Err (ErrExt ("manifest for " +:+ name +:+ " not found") true), d);
  DisplayJSONMessagesStream := fun _ => None;
  Close := fun _ => None;
  style_Symbol := fun s => "'" +:+ s +:+ "'"
|}.

Definition ledger (pulling pruning lastPrune : string)
    (images : list (string * string)) : ImageJSON :=
  {| Interval := {| PullingInterval := pulling; PruningIinterval := pruning;
                    LastPrune := lastPrune |};
     Image := {| ImageIDtoTIME := list_to_map images |} |}.

(** A home directory [/home/pack] holding [disk]; [write] is the error of
    a write, if writes fail. *)
Definition files (disk : Disk) (write : option error) : FS :=
  {| fs_home := Ok "/home/pack"; fs_disk := disk; fs_mkdir := None;
     fs_write := write; fs_read := None; fs_writes := 0 |}.

(** A process whose clock reads [now] at every call. *)
Definition process (files : FS) (now : Z) : State :=
  {| interval := ""; imagePath := ""; fs := files;
     ticks := fun _ => now; reads := 0 |}.

Definition world (st : State) (images : list string) : World (list string) unit :=
  {| proc := st; daemon := images; checker := tt |}.

Definition daemon_mode (policy : PullPolicy) : FetchOptions :=
  {| Daemon := true; Platform := ""; PullPolicy_ := policy;
     LayoutOption_ := {| Path := ""; Sparse := false |} |}.

(** 2024-01-01T00:00:00Z, and an hour and a day in nanoseconds. *)
Definition t_2024 : Z := 1704067200000000000.
Definition hour : Z := 60 * Minute.
Definition day : Z := 24 * hour.

(** A ledger with a pulling interval of one hour and busybox pulled at
    [t_2024]. *)
Definition busybox_ledger : ImageJSON :=
  ledger "1h" "7d" "" [("busybox", "2024-01-01T00:00:00Z")].

(** A ledger pruned at [t_2024], with one entry from twelve days before
    and one from eight days after. *)
Definition stale_ledger : ImageJSON :=
  ledger "1d" "7d" "2024-01-01T00:00:00Z"
    [("busybox", "2023-12-20T00:00:00Z"); ("alpine", "2024-01-09T00:00:00Z")].

Definition read_only : option error := Some (ErrExt "read-only file system" false).

(** [ImageJSON{}] *)
Definition zero_ledger : ImageJSON := ledger "" "" "" [].

End Sim.

(** ** Vocabulary of the statements *)

(** A segment of an interval text: its digits and its unit letter. *)
Record segment : Type := {
  seg_digits : string;
  seg_unit : ascii
}.

Fixpoint all_digits (s : string) : bool :=
  match s with
  | EmptyString => true
  | String c s' => isDigit c && all_digits s'
  end.

(** Minutes in one unit, for the three letters of the parser's [switch]. *)
Definition unit_minutes (u : ascii) : option Z :=
  if Ascii.eqb u "d" then Some (24 * 60)
  else if Ascii.eqb u "h" then Some 60
  else if Ascii.eqb u "m" then Some 1
  else None.

(** A segment the parser takes: at least one digit, a value that [Atoi]
    reads, and one of the letters d, h, m. *)
Definition seg_value (g : segment) : option Z :=
  match seg_digits g, Atoi (seg_digits g), unit_minutes (seg_unit g) with
  | String _ _, Ok value, Some per =>
      if all_digits (seg_digits g) then Some (value * per) else None
  | _, _, _ => None
  end.

Definition seg_text (g : segment) : string :=
  seg_digits g +:+ String (seg_unit g) "".

Fixpoint render (segs : list segment) : string :=
  match segs with
  | [] => ""
  | g :: segs' => seg_text g +:+ render segs'
  end.

Fixpoint total_minutes (segs : list segment) : Z :=
  match segs with
  | [] => 0
  | g :: segs' => default 0 (seg_value g) + total_minutes segs'
  end.

(** The timestamp [timestamp] reads as an instant before [threshold]. *)
Definition older `{TimeLib} (threshold : Z) (timestamp : string) : bool :=
  match time_Parse timestamp with
  | Ok t => Time_Before t threshold
  | Err _ => false
  end.

(** Every recorded timestamp is one that [time.Parse] reads. *)
Definition well_stamped `{TimeLib} (images : gmap string string) : Prop :=
  map_Forall (fun _ timestamp => exists t, time_Parse timestamp = Ok t) images.

(** What a computation returns, apart from the log lines. *)
Definition returned {S A : Type} (o : outcome (A * S * list LogLine)) : outcome (A * S) :=
  match o with
  | Ret (a, s, _) => Ret (a, s)
  | Panic msg => Panic msg
  | Diverge => Diverge
  end.

(** A prune is due at a call of [PruneOldImages] in state [st] on the
    document [doc], and [k] numbers the clock reading its threshold is taken
    from: no prune is on record, or the one on record is at least
    [pruningInterval] old (one reading is spent on finding that out). *)
Definition prune_due `{TimeLib} (st : State) (doc : ImageJSON)
    (pruningInterval : Z) (k : nat) : Prop :=
  (LastPrune (Interval doc) = "" /\ k = reads st)
  \/ (exists lastPrune,
        LastPrune (Interval doc) <> ""
        /\ time_Parse (LastPrune (Interval doc)) = Ok lastPrune
        /\ pruningInterval <= ticks st (reads st) - lastPrune
        /\ k = S (reads st)).

(** [c] with what it returns passed through [f]. *)
Definition answer {S A B : Type} (f : A -> B) (c : M S A) : M S B := fun s =>
  match c s with
  | Ret (a, s', l) => Ret (f a, s', l)
  | Panic msg => Panic msg
  | Diverge => Diverge
  end.

(** The checker [chk] with the errors of its interval check and of its prune
    withheld: it does to the ledger what [chk] does and answers the check
    as [chk] does, and reports no failure of the two. *)
Definition quiet {C : Type} (chk : ImagePullChecker.t C) : ImagePullChecker.t C := {|
  ImagePullChecker.CheckImagePullInterval := fun imageID =>
    answer (fun r => (fst r, None)) (ImagePullChecker.CheckImagePullInterval chk imageID);
  ImagePullChecker.ReadImageJSON := ImagePullChecker.ReadImageJSON chk;
  ImagePullChecker.PruneOldImages :=
    answer (fun _ => None) (ImagePullChecker.PruneOldImages chk);
  ImagePullChecker.UpdateImagePullRecord := ImagePullChecker.UpdateImagePullRecord chk
|}.

(** [c] returns, and leaves the process state and the checker's state as
    they were. *)
Definition keeps_ledger {D C A : Type} (c : M (World D C) A) : Prop :=
  forall w, exists a w' l,
    c w = Ret (a, w', l) /\ proc w' = proc w /\ checker w' = checker w.

(** Two computations return alike: from every state, the same value and the
    same final state, or the same panic; their log lines may differ. *)
Definition alike {S A : Type} (c1 c2 : M S A) : Prop :=
  forall s, returned (c1 s) = returned (c2 s).

(** The state after one more reading of the clock. *)
Definition tick (st : State) : State :=
  {| interval := interval st; imagePath := imagePath st; fs := fs st;
     ticks := ticks st; reads := S (reads st) |}.

(** ** Vocabulary of the further properties *)

(** The document [doc] with [timestamp] recorded for [imageID]. *)
Definition with_record (doc : ImageJSON) (imageID timestamp : string) : ImageJSON :=
  {| Interval := Interval doc;
     Image := {| ImageIDtoTIME := <[imageID := timestamp]> (ImageIDtoTIME (Image doc)) |} |}.

(** The document [doc] with [intervalStr] as its pulling interval. *)
Definition with_pulling (doc : ImageJSON) (intervalStr : string) : ImageJSON :=
  {| Interval := {| PullingInterval := intervalStr;
                    PruningIinterval := PruningIinterval (Interval doc);
                    LastPrune := LastPrune (Interval doc) |};
     Image := Image doc |}.

(** A home directory in which the package can make its directory and write
    and read its file. *)
Definition usable (files : FS) (home : string) : Prop :=
  fs_home files = Ok home /\ fs_mkdir files = None
  /\ fs_write files = None /\ fs_read files = None.

(** The state [st] once [readImageJSON] has found the ledger of [home]. *)
Definition located (st : State) (home : string) : State :=
  {| interval := interval st; imagePath := ledgerPath home; fs := fs st;
     ticks := ticks st; reads := reads st |}.

(** The text holds no [@]. *)
Fixpoint at_free (s : string) : bool :=
  match s with
  | EmptyString => true
  | String c s' => negb (Ascii.eqb c "@") && at_free s'
  end.

(** The language of a regular expression: the texts it matches as a
    whole. *)
Inductive matches : regex -> string -> Prop :=
| MEps : matches REps ""
| MClass (p : ascii -> bool) (c : ascii) :
    p c = true -> matches (RClass p) (String c "")
| MCat (r1 r2 : regex) (s1 s2 : string) :
    matches r1 s1 -> matches r2 s2 -> matches (RCat r1 r2) (s1 +:+ s2)
| MAltL (r1 r2 : regex) (s : string) : matches r1 s -> matches (RAlt r1 r2) s
| MAltR (r1 r2 : regex) (s : string) : matches r2 s -> matches (RAlt r1 r2) s
| MStarNil (r : regex) : matches (RStar r) ""
| MStarCons (r : regex) (s1 s2 : string) :
    matches r s1 -> matches (RStar r) s2 -> matches (RStar r) (s1 +:+ s2).

(** A segment as the grammar writes it: one or more digits and one of the
    letters d, h, m; whether [Atoi] reads the digits is left open. *)
Definition shaped (g : segment) : bool :=
  match seg_digits g, unit_minutes (seg_unit g) with
  | String _ _, Some _ => all_digits (seg_digits g)
  | _, _ => false
  end.

(** The letters [units] come in the order of [grammar], each at most
    once. *)
Fixpoint in_order (units grammar : list ascii) : bool :=
  match grammar with
  | [] => match units with [] => true | _ :: _ => false end
  | g :: grammar' =>
      match units with
      | [] => true
      | u :: units' =>
          if Ascii.eqb u g then in_order units' grammar'
          else in_order units grammar'
      end
  end.



(** * Properties *)

(** ** Strings *)

Lemma string_app_nil_l (t : string) : "" +:+ t = t.
Proof. reflexivity. Qed.

Lemma string_app_cons (c : ascii) (s t : string) : String c s +:+ t = String c (s +:+ t).
Proof. reflexivity. Qed.

Lemma string_app_nil_r (s : string) : s +:+ "" = s.
Proof.
  induction s as [|c s IH]; [reflexivity | now rewrite string_app_cons, IH].
Qed.

Lemma string_length_app (s t : string) :
  String.length (s +:+ t) = (String.length s + String.length t)%nat.
Proof.
  induction s as [|c s IH]; [reflexivity | rewrite string_app_cons; simpl; now rewrite IH].
Qed.

Lemma string_app_assoc (s t u : string) : (s +:+ t) +:+ u = s +:+ (t +:+ u).
Proof.
  induction s as [|c s IH]; [reflexivity | rewrite !string_app_cons; now rewrite IH].
Qed.

Lemma string_drop_app (pre s : string) :
  string_drop (String.length pre) (pre +:+ s) = s.
Proof.
  induction pre as [|c pre IH]; [now destruct s | rewrite string_app_cons; exact IH].
Qed.

Lemma substring_app (pre s : string) (n : nat) :
  String.substring (String.length pre) n (pre +:+ s) = String.substring 0 n s.
Proof.
  induction pre as [|c pre IH]; [reflexivity | rewrite string_app_cons; exact IH].
Qed.

Lemma substring_whole (s t : string) :
  String.substring 0 (String.length s) (s +:+ t) = s.
Proof.
  induction s as [|c s IH]; [now destruct t | rewrite string_app_cons; simpl; now rewrite IH].
Qed.

Lemma get_app (pre s : string) (n : nat) :
  String.get (String.length pre + n) (pre +:+ s) = String.get n s.
Proof.
  induction pre as [|c pre IH]; [reflexivity | rewrite string_app_cons; exact IH].
Qed.

Lemma get_length (s : string) : String.get (String.length s) s = None.
Proof. induction s as [|c s IH]; simpl; [reflexivity | exact IH]. Qed.

(** ** Wrap-around *)

Lemma wrap64_range (z : Z) : int_min <= wrap64 z <= int_max.
Proof.
  unfold wrap64, int_min, int_max.
  pose proof (Z.mod_pos_bound (z + 2 ^ 63) (2 ^ 64) ltac:(lia)). lia.
Qed.

Lemma wrap64_small (z : Z) : int_min <= z <= int_max -> wrap64 z = z.
Proof.
  unfold wrap64, int_min, int_max. intros Hz.
  rewrite Z.mod_small by lia. lia.
Qed.

Lemma wrap64_mod (z : Z) : wrap64 z mod 2 ^ 64 = z mod 2 ^ 64.
Proof.
  unfold wrap64.
  rewrite Zminus_mod_idemp_l.
  f_equal. lia.
Qed.

Lemma wrap64_congr (a b : Z) : a mod 2 ^ 64 = b mod 2 ^ 64 -> wrap64 a = wrap64 b.
Proof.
  intros Hab. unfold wrap64.
  rewrite (Z.add_mod a), (Z.add_mod b), Hab by lia. reflexivity.
Qed.

(** ** The duration parser *)

Lemma skipDigits_ge (rest : string) (endIndex : nat) :
  (endIndex <= skipDigits rest endIndex)%nat.
Proof.
  revert endIndex. induction rest as [|c rest IH]; intros n; simpl; [lia|].
  destruct (isDigit c); [|lia]. specialize (IH (S n)). lia.
Qed.

(** The loop of [parseDurationString] ends within the fuel it is given:
    every round moves [i] past at least two bytes. *)
Lemma parseDurationLoop_terminates (fuel : nat) (s : string) (i : nat) (tot : Z) :
  (String.length s - i <= fuel)%nat -> parseDurationLoop fuel s i tot <> Diverge.
Proof.
  revert i tot. induction fuel as [|fuel IH]; intros i tot Hfuel; simpl.
  - destruct (String.length s <=? i)%nat eqn:Hlen; [discriminate|].
    apply Nat.leb_gt in Hlen. lia.
  - destruct (String.length s <=? i)%nat eqn:Hlen; [discriminate|].
    apply Nat.leb_gt in Hlen.
    pose proof (skipDigits_ge (string_drop (i + 1) s) (i + 1)) as Hge.
    destruct (Atoi _); [|discriminate].
    destruct (String.get _ s) as [u|]; [|discriminate].
    destruct (Ascii.eqb u "d"); [apply IH; lia|].
    destruct (Ascii.eqb u "h"); [apply IH; lia|].
    destruct (Ascii.eqb u "m"); [apply IH; lia|discriminate].
Qed.

Lemma parseDurationString_terminates (s : string) : parseDurationString s <> Diverge.
Proof. apply parseDurationLoop_terminates. lia. Qed.

Lemma parseDurationLoop_range (fuel : nat) (s : string) (i : nat) (tot d : Z) :
  parseDurationLoop fuel s i tot = Ret (Ok d) -> int_min <= d <= int_max.
Proof.
  revert i tot. induction fuel as [|fuel IH]; intros i tot; simpl.
  - destruct (String.length s <=? i)%nat; [|discriminate].
    intros [= <-]. apply wrap64_range.
  - destruct (String.length s <=? i)%nat.
    { intros [= <-]. apply wrap64_range. }
    destruct (Atoi _); [|discriminate].
    destruct (String.get _ s) as [u|]; [|discriminate].
    destruct (Ascii.eqb u "d"); [apply IH|].
    destruct (Ascii.eqb u "h"); [apply IH|].
    destruct (Ascii.eqb u "m"); [apply IH|discriminate].
Qed.

Lemma parseDurationString_range (s : string) (d : Z) :
  parseDurationString s = Ret (Ok d) -> int_min <= d <= int_max.
Proof. apply parseDurationLoop_range. Qed.

Lemma skipDigits_run (ds rest : string) (u : ascii) (n : nat) :
  all_digits ds = true -> isDigit u = false ->
  skipDigits (ds +:+ String u rest) n = (n + String.length ds)%nat.
Proof.
  revert n. induction ds as [|c ds IH]; intros n Hds Hu.
  - rewrite string_app_nil_l. simpl. rewrite Hu. lia.
  - simpl in Hds. apply andb_true_iff in Hds as [Hc Hds].
    rewrite string_app_cons. simpl. rewrite Hc, IH by assumption. lia.
Qed.

Lemma unit_minutes_not_digit (u : ascii) (per : Z) :
  unit_minutes u = Some per -> isDigit u = false.
Proof.
  unfold unit_minutes.
  destruct (Ascii.eqb u "d") eqn:Ed; [apply Ascii.eqb_eq in Ed; now subst|].
  destruct (Ascii.eqb u "h") eqn:Eh; [apply Ascii.eqb_eq in Eh; now subst|].
  destruct (Ascii.eqb u "m") eqn:Em; [apply Ascii.eqb_eq in Em; now subst|].
  discriminate.
Qed.

(** One round of the loop on a well-formed segment that starts at [i]. *)
Lemma parseDurationLoop_segment (fuel : nat) (pre : string) (g : segment)
    (rest : string) (tot v : Z) :
  seg_value g = Some v ->
  parseDurationLoop (S fuel) (pre +:+ seg_text g +:+ rest) (String.length pre) tot
  = parseDurationLoop fuel (pre +:+ seg_text g +:+ rest)
      (String.length (pre +:+ seg_text g)) (int_add tot v).
Proof.
  destruct g as [ds u]. unfold seg_value, seg_text. simpl seg_digits. simpl seg_unit.
  destruct ds as [|c ds]; [discriminate|].
  destruct (Atoi (String c ds)) as [value|] eqn:Hatoi; [|discriminate].
  destruct (unit_minutes u) as [per|] eqn:Hper; [|discriminate].
  destruct (all_digits (String c ds)) eqn:Hall; [|discriminate].
  intros [= <-].
  pose proof (unit_minutes_not_digit _ _ Hper) as Hu.
  simpl in Hall. apply andb_true_iff in Hall as [Hc Hds].
  set (whole := pre +:+ (String c ds +:+ String u "") +:+ rest).
  assert (Hwhole : whole = pre +:+ String c (ds +:+ String u rest)).
  { unfold whole. f_equal. rewrite !string_app_cons, string_app_assoc. reflexivity. }
  assert (Hlen : String.length whole
                 = (String.length pre + S (String.length ds + S (String.length rest)))%nat).
  { rewrite Hwhole, string_length_app. simpl. rewrite string_length_app. reflexivity. }
  cbn [parseDurationLoop].
  destruct (String.length whole <=? String.length pre)%nat eqn:Hdone.
  { apply Nat.leb_le in Hdone. lia. }
  assert (Hend : skipDigits (string_drop (String.length pre + 1) whole)
                   (String.length pre + 1)
                 = (String.length pre + S (String.length ds))%nat).
  { replace (String.length pre + 1)%nat
      with (String.length (pre +:+ String c "")) at 1
      by (rewrite string_length_app; reflexivity).
    rewrite Hwhole.
    replace (pre +:+ String c (ds +:+ String u rest))
      with ((pre +:+ String c "") +:+ (ds +:+ String u rest))
      by (rewrite string_app_assoc; reflexivity).
    rewrite string_drop_app, skipDigits_run by assumption. lia. }
  rewrite Hend.
  replace (String.length pre + S (String.length ds) - String.length pre)%nat
    with (String.length (String c ds)) by (simpl; lia).
  rewrite Hwhole at 1. rewrite substring_app.
  replace (String c (ds +:+ String u rest)) with (String c ds +:+ String u rest)
    by reflexivity.
  rewrite substring_whole, Hatoi.
  assert (Hget : String.get (String.length pre + S (String.length ds)) whole = Some u).
  { rewrite Hwhole, get_app.
    replace (String c (ds +:+ String u rest)) with (String c ds +:+ String u rest)
      by reflexivity.
    replace (S (String.length ds)) with (String.length (String c ds) + 0)%nat
      by (simpl; lia).
    rewrite get_app. reflexivity. }
  rewrite Hget.
  replace (String.length pre + S (String.length ds) + 1)%nat
    with (String.length (pre +:+ (String c ds +:+ String u "")))
    by (rewrite !string_length_app; simpl; lia).
  unfold unit_minutes in Hper.
  destruct (Ascii.eqb u "d").
  { injection Hper as <-. f_equal. unfold int_add.
    apply wrap64_congr. unfold int_mul.
    rewrite (Z.add_mod tot), wrap64_mod, (Z.mul_mod (wrap64 _)), wrap64_mod,
      <- Z.mul_mod, <- Z.add_mod by lia.
    f_equal. lia. }
  destruct (Ascii.eqb u "h").
  { injection Hper as <-. f_equal. unfold int_add.
    apply wrap64_congr. unfold int_mul.
    rewrite (Z.add_mod tot), wrap64_mod, <- Z.add_mod by lia. reflexivity. }
  destruct (Ascii.eqb u "m"); [|discriminate].
  injection Hper as <-. f_equal. f_equal. lia.
Qed.

(** The parser adds up well-formed segments, whatever their order. *)
Lemma parseDurationLoop_render (segs : list segment) (fuel : nat) (pre : string) (tot : Z) :
  Forall (fun g => is_Some (seg_value g)) segs ->
  (length segs <= fuel)%nat ->
  parseDurationLoop fuel (pre +:+ render segs) (String.length pre) tot
  = Ret (Ok (int_mul (tot + total_minutes segs) Minute)).
Proof.
  revert fuel pre tot. induction segs as [|g segs IH]; intros fuel pre tot Hwf Hfuel.
  - simpl render. rewrite string_app_nil_r.
    destruct fuel; simpl; rewrite Nat.leb_refl; do 3 f_equal; lia.
  - inversion Hwf as [|? ? [v Hv] Hwf']; subst.
    destruct fuel as [|fuel]; [simpl in Hfuel; lia|].
    simpl render.
    rewrite (parseDurationLoop_segment fuel pre g (render segs) tot v Hv).
    rewrite <- string_app_assoc.
    rewrite IH by (try assumption; simpl in Hfuel; lia).
    simpl total_minutes. rewrite Hv. simpl default.
    do 2 f_equal. unfold int_mul, int_add. apply wrap64_congr.
    rewrite Z.mul_mod, (Z.add_mod (wrap64 _)), wrap64_mod, <- Z.add_mod,
      <- Z.mul_mod by lia.
    f_equal. lia.
Qed.

Lemma render_length (segs : list segment) :
  Forall (fun g => is_Some (seg_value g)) segs ->
  (length segs <= String.length (render segs))%nat.
Proof.
  induction 1 as [|g segs [v Hv] _ IH]; simpl; [lia|].
  unfold seg_text. rewrite !string_length_app. simpl. lia.
Qed.

Lemma total_minutes_perm (segs segs' : list segment) :
  Permutation segs segs' -> total_minutes segs = total_minutes segs'.
Proof. induction 1; simpl; lia. Qed.

Lemma parseDurationString_render (segs : list segment) :
  Forall (fun g => is_Some (seg_value g)) segs ->
  parseDurationString (render segs)
  = Ret (Ok (int_mul (total_minutes segs) Minute)).
Proof.
  intros Hwf. unfold parseDurationString.
  pose proof (parseDurationLoop_render segs (String.length (render segs)) "" 0 Hwf
                (render_length segs Hwf)) as Hrun.
  rewrite string_app_nil_l in Hrun. exact Hrun.
Qed.

Lemma skipDigits_all (ds : string) (n : nat) :
  all_digits ds = true -> skipDigits ds n = (n + String.length ds)%nat.
Proof.
  revert n. induction ds as [|c ds IH]; intros n Hds; simpl in *; [lia|].
  apply andb_true_iff in Hds as [Hc Hds]. rewrite Hc, IH by assumption. lia.
Qed.

(** A text made of digits only makes the parser read one byte past its end:
    the unit is looked up at [endIndex = len(durationStr)]. *)
Lemma parseDurationString_digits_only (s : string) (v : Z) :
  s <> "" -> all_digits s = true -> Atoi s = Ok v ->
  parseDurationString s = Panic "index out of range".
Proof.
  destruct s as [|c ds]; [congruence|]. intros _ Hall Hatoi.
  unfold parseDurationString. simpl String.length. cbn [parseDurationLoop].
  simpl in Hall. apply andb_true_iff in Hall as [_ Hds].
  change (S (String.length ds) <=? 0)%nat with false. cbv iota.
  change (string_drop (0 + 1) (String c ds)) with ds.
  rewrite skipDigits_all by assumption.
  replace (0 + 1 + String.length ds - 0)%nat with (String.length (String c ds))
    by (simpl; lia).
  pose proof (substring_whole (String c ds) "") as Hsub.
  rewrite string_app_nil_r in Hsub. rewrite Hsub, Hatoi.
  replace (0 + 1 + String.length ds)%nat with (String.length (String c ds))
    by (simpl; lia).
  rewrite get_length. reflexivity.
Qed.

(** C7. [parseDurationString "2d3h30m"] is 2*1440 + 3*60 + 30 minutes,
    [parseDurationString ""] is the zero duration, and
    [parseDurationString "5x"] fails: the unit [x] is not one of d, h, m. *)
Theorem parseDurationString_examples :
  parseDurationString "2d3h30m" = Ret (Ok ((2 * 1440 + 3 * 60 + 30) * Minute))
  /\ parseDurationString "" = Ret (Ok 0)
  /\ parseDurationString "5x" = Ret (Err (ErrNew "invalid interval uniit: x")).
Proof. repeat split; vm_compute; reflexivity. Qed.

(** C9. On ["15"], digits with no unit letter after them, the parser does
    not return: it indexes the text at its length and panics. *)
Theorem parseDurationString_missing_unit :
  parseDurationString "15" = Panic "index out of range".
Proof. vm_compute. reflexivity. Qed.

(** C5, as claimed, fails: ["1h2d"] has its segments out of order and the
    parser returns a duration for it, not an error. *)
Lemma parseDurationString_reordered_accepted :
  parseDurationString "1h2d" = Ret (Ok ((2 * 1440 + 60) * Minute))
  /\ ~ (exists e, parseDurationString "1h2d" = Ret (Err e)).
Proof.
  split; [vm_compute; reflexivity|].
  intros [e He]. vm_compute in He. discriminate.
Qed.

(** C5 (amended). The parser takes well-formed segments in any order and
    adds them up: a text and any rearrangement of its segments parse to the
    same duration, ["1h2d"] to 2*1440 + 60 minutes.  The order days, hours,
    minutes is that of [intervalRegex] alone, which rejects ["1h2d"]. *)
Theorem parseDurationString_any_order (segs segs' : list segment) :
  Forall (fun g => is_Some (seg_value g)) segs ->
  Permutation segs segs' ->
  parseDurationString (render segs) = Ret (Ok (int_mul (total_minutes segs) Minute))
  /\ parseDurationString (render segs') = parseDurationString (render segs)
  /\ parseDurationString "1h2d" = Ret (Ok ((2 * 1440 + 60) * Minute))
  /\ MatchString intervalRegex "1h2d" = false.
Proof.
  intros Hwf Hperm.
  assert (Hwf' : Forall (fun g => is_Some (seg_value g)) segs')
    by (rewrite <- Hperm; exact Hwf).
  split; [apply parseDurationString_render, Hwf|].
  split.
  { rewrite !parseDurationString_render by assumption.
    now rewrite (total_minutes_perm _ _ Hperm). }
  split; vm_compute; reflexivity.
Qed.

(** The theorem on the segments [1h] and [2d] and their swap. *)
Lemma parseDurationString_any_order_witness :
  parseDurationString
    (render [{| seg_digits := "1"; seg_unit := "h" |};
             {| seg_digits := "2"; seg_unit := "d" |}])
  = Ret (Ok (int_mul
               (total_minutes [{| seg_digits := "1"; seg_unit := "h" |};
                               {| seg_digits := "2"; seg_unit := "d" |}])
               Minute))
  /\ parseDurationString
       (render [{| seg_digits := "2"; seg_unit := "d" |};
                {| seg_digits := "1"; seg_unit := "h" |}])
     = parseDurationString
         (render [{| seg_digits := "1"; seg_unit := "h" |};
                  {| seg_digits := "2"; seg_unit := "d" |}])
  /\ parseDurationString "1h2d" = Ret (Ok ((2 * 1440 + 60) * Minute))
  /\ MatchString intervalRegex "1h2d" = false.
Proof.
  apply parseDurationString_any_order.
  - constructor; [exists 60; reflexivity|].
    constructor; [exists 2880; reflexivity|]. constructor.
  - apply perm_swap.
Defined.

(** ** Reading the ledger *)

Ltac run_fs :=
  unfold bind, ret, get_state, set_imagePath, set_interval, log, with_fs, os_MkdirAll,
    os_WriteFile, os_ReadFile, is_ledger_path, dir_missing, file_missing, with_disk,
    json_Unmarshal, minimumJSON; simpl.

(** [readImageJSON] always returns, and leaves the clock and the variable
    [interval] alone. *)
Lemma readImageJSON_returns (st : State) :
  exists r st' l,
    readImageJSON st = Ret (r, st', l)
    /\ ticks st' = ticks st /\ reads st' = reads st /\ interval st' = interval st
    /\ fs_home (fs st') = fs_home (fs st) /\ fs_write (fs st') = fs_write (fs st)
    /\ fs_read (fs st') = fs_read (fs st) /\ fs_mkdir (fs st') = fs_mkdir (fs st).
Proof.
  destruct st as [iv ip [home disk mk wr rd n] tk rds].
  unfold readImageJSON. run_fs.
  destruct home as [home|e]; simpl; [|eauto 15].
  destruct disk as [| |[doc|raw]]; simpl;
    repeat first
      [ rewrite String.eqb_refl; simpl
      | match goal with
        | |- context [match ?o with Some _ => _ | None => _ end] =>
            is_var o; destruct o; simpl
        end ];
    eauto 15.
Qed.

(** A successful read: either the file was there and nothing changed, or
    it was missing and now holds the minimum document. *)
Lemma readImageJSON_inv (st st1 : State) (l : list LogLine) (doc : ImageJSON) :
  readImageJSON st = Ret (Ok doc, st1, l) ->
  exists home,
    fs_home (fs st1) = Ok home /\ imagePath st1 = ledgerPath home
    /\ fs_disk (fs st1) = File (Json doc) /\ fs_read (fs st1) = None
    /\ fs_mkdir (fs st1) = fs_mkdir (fs st) /\ fs_write (fs st1) = fs_write (fs st)
    /\ ticks st1 = ticks st /\ reads st1 = reads st /\ interval st1 = interval st
    /\ ((fs st1 = fs st /\ l = [])
        \/ (file_missing (fs st) = true /\ Json doc = minimumJSON)).
Proof.
  destruct st as [iv ip [home disk mk wr rd n] tk rds].
  unfold readImageJSON. run_fs.
  destruct home as [home|e]; simpl; [|discriminate].
  destruct disk as [| |[doc'|raw]]; simpl;
    repeat first
      [ rewrite String.eqb_refl; simpl
      | match goal with
        | |- context [match ?o with Some _ => _ | None => _ end] =>
            is_var o; destruct o; simpl
        end ];
    try discriminate;
    intros [= <- <- <-]; exists home; simpl; repeat split; auto.
Qed.

(** Reading a ledger file that is there and readable. *)
Lemma readImageJSON_file (st : State) (home : string) (doc : ImageJSON) :
  fs_home (fs st) = Ok home -> fs_disk (fs st) = File (Json doc) ->
  fs_read (fs st) = None ->
  readImageJSON st
  = Ret (Ok doc, {| interval := interval st; imagePath := ledgerPath home; fs := fs st;
                    ticks := ticks st; reads := reads st |}, []).
Proof.
  destruct st as [iv ip [home' disk mk wr rd n] tk rds]. simpl.
  intros -> -> ->. unfold readImageJSON. run_fs.
  rewrite String.eqb_refl. reflexivity.
Qed.

(** ** Policy texts *)

Lemma nameMap_Some (policy : string) (p : PullPolicy) :
  nameMap !! policy = Some p ->
  In policy ["always"; "never"; "if-not-present"; ""].
Proof.
  unfold nameMap. intros Hlook.
  repeat (apply lookup_insert_Some in Hlook as [[<- _]|[_ Hlook]]; [simpl; auto|]).
  rewrite lookup_empty in Hlook. discriminate.
Qed.

Lemma updateImageJSONDuration_returns (intervalStr : string) (st : State) :
  exists e st' l,
    updateImageJSONDuration intervalStr st = Ret (e, st', l)
    /\ interval st' = interval st.
Proof.
  unfold updateImageJSONDuration, bind.
  destruct (readImageJSON_returns st) as (r & st1 & l & -> & _ & _ & Hiv & _).
  destruct r as [doc|e]; run_fs; [|eauto 10].
  match goal with
  | |- context [let '(a, fs') := ?op in _] => destruct op as [e fs']
  end.
  simpl. eauto 10.
Qed.

(** The texts [ParsePullPolicy] takes: the four keys of [nameMap], and
    [interval=] followed by a text of [intervalRegex]; all others fail. *)
Lemma ParsePullPolicy_accepts (policy : string) (st : State) :
  (exists p st' l, ParsePullPolicy policy st = Ret (Ok p, st', l))
  <-> In policy ["always"; "never"; "if-not-present"; ""]
      \/ (String.prefix "interval=" policy = true
          /\ MatchString intervalRegex (string_drop 9 policy) = true).
Proof.
  unfold ParsePullPolicy. split.
  - intros (p & st' & l & Hrun).
    destruct (nameMap !! policy) as [val|] eqn:Hname.
    { left. eapply nameMap_Some, Hname. }
    right. destruct (String.prefix "interval=" policy); [|discriminate].
    split; [reflexivity|].
    destruct (MatchString intervalRegex (string_drop 9 policy)); [reflexivity|].
    discriminate.
  - intros [Hlit|[Hpre Hre]].
    + simpl in Hlit.
      destruct Hlit as [<-|[<-|[<-|[<-|[]]]]]; eexists _, st, []; reflexivity.
    + destruct (nameMap !! policy) as [val|] eqn:Hname.
      { apply nameMap_Some in Hname. simpl in Hname.
        destruct Hname as [<-|[<-|[<-|[<-|[]]]]]; discriminate. }
      rewrite Hpre, Hre. unfold bind, set_interval. cbn [negb].
      destruct (updateImageJSONDuration_returns (string_drop 9 policy)
                  {| interval := policy; imagePath := imagePath st; fs := fs st;
                     ticks := ticks st; reads := reads st |})
        as (e & st' & l & -> & _).
      simpl. eauto.
Qed.

(** C4. The aliases are not among the texts [ParsePullPolicy] takes:
    ["hourly"], ["daily"] and ["weekly"] fail as invalid policies, though
    [Fetch] and [intervalPolicy] treat the policies of these names as
    interval policies. *)
Theorem ParsePullPolicy_aliases_rejected (st : State) :
  ParsePullPolicy "hourly" st = Ret (Err (ErrNew "invalid pull policy hourly"), st, [])
  /\ ParsePullPolicy "daily" st = Ret (Err (ErrNew "invalid pull policy daily"), st, [])
  /\ ParsePullPolicy "weekly" st = Ret (Err (ErrNew "invalid pull policy weekly"), st, [])
  /\ intervalPolicy {| Daemon := true; Platform := ""; PullPolicy_ := PullHourly;
                       LayoutOption_ := {| Path := ""; Sparse := false |} |} = true.
Proof. repeat split. Qed.

(** C8. The three literals come back from [String] as they went into
    [ParsePullPolicy]. *)
Theorem ParsePullPolicy_String_roundtrip (t : string) (st : State) :
  In t ["always"; "never"; "if-not-present"] ->
  exists p, ParsePullPolicy t st = Ret (Ok p, st, []) /\ String_ p st = t.
Proof.
  simpl. intros [<-|[<-|[<-|[]]]]; eexists; split; reflexivity.
Qed.

(** The theorem on ["if-not-present"], in a process without a ledger. *)
Lemma ParsePullPolicy_String_roundtrip_witness :
  exists p,
    ParsePullPolicy "if-not-present" (Sim.process (Sim.files NoDir None) 0)
    = Ret (Ok p, Sim.process (Sim.files NoDir None) 0, [])
    /\ String_ p (Sim.process (Sim.files NoDir None) 0) = "if-not-present".
Proof.
  apply (ParsePullPolicy_String_roundtrip "if-not-present").
  simpl. auto.
Defined.

(** The empty text is taken as [PullAlways] and comes back as ["always"]. *)
Remark ParsePullPolicy_String_empty (st : State) :
  ParsePullPolicy "" st = Ret (Ok PullAlways, st, [])
  /\ String_ PullAlways st = "always".
Proof. split; reflexivity. Qed.

(** The interval form does not come back: [String] prints the variable
    [interval], which the parser set to the whole policy text. *)
Remark ParsePullPolicy_String_interval :
  exists st' l,
    ParsePullPolicy "interval=1d" (Sim.process (Sim.files NoDir None) 0)
    = Ret (Ok PullWithInterval, st', l)
    /\ String_ PullWithInterval st' = "interval=interval=1d".
Proof. eexists _, _. split; vm_compute; reflexivity. Qed.

(** ** The interval check *)

Lemma Duration_neg_opp (d : Z) : int_min < d <= int_max -> Duration_neg d = - d.
Proof.
  intros Hd. unfold Duration_neg. apply wrap64_small.
  unfold int_min, int_max in *. lia.
Qed.

(** The function of [fetcher.go] and the method of [pull_policy.go] are the
    same computation. *)
Lemma CheckImagePullInterval_method_eq `{TimeLib} (imageID : string) :
  CheckImagePullInterval_method imageID = CheckImagePullInterval imageID.
Proof. reflexivity. Qed.

(** C1, as claimed, fails on the boundary: the entry is one hour old to the
    nanosecond, the pulling interval is one hour, and the check answers
    [false]. *)
Lemma CheckImagePullInterval_boundary :
  RFC3339.Parse "2024-01-01T00:00:00Z" = Ok Sim.t_2024
  /\ parseDurationString "1h" = Ret (Ok Sim.hour)
  /\ (Sim.t_2024 + Sim.hour) - Sim.t_2024 >= Sim.hour
  /\ returned (@CheckImagePullInterval RFC3339.utc "busybox"
                 (Sim.process (Sim.files (File (Json Sim.busybox_ledger)) None)
                    (Sim.t_2024 + Sim.hour)))
     = Ret ((false, None),
            {| interval := ""; imagePath := "/home/pack/.pack/image.json";
               fs := Sim.files (File (Json Sim.busybox_ledger)) None;
               ticks := fun _ => Sim.t_2024 + Sim.hour; reads := 1 |}).
Proof.
  split; [reflexivity|]. split; [reflexivity|].
  split; [vm_compute; discriminate | reflexivity].
Qed.

(** C1 (amended). With the ledger read, the check answers [true] for an
    image without an entry; for an image with one it answers [true] exactly
    when the time since the recorded instant is strictly longer than the
    pulling interval, so [false] when it equals the interval.  The method
    of [pull_policy.go] does the same. *)
Theorem CheckImagePullInterval_strict `{TimeLib} (imageID : string)
    (st st1 : State) (l : list LogLine) (imageJSON : ImageJSON) :
  readImageJSON st = Ret (Ok imageJSON, st1, l) ->
  (ImageIDtoTIME (Image imageJSON) !! imageID = None ->
   CheckImagePullInterval imageID st = Ret ((true, None), st1, l))
  /\ (forall (timestamp : string) (recorded pullingInterval : Z),
        ImageIDtoTIME (Image imageJSON) !! imageID = Some timestamp ->
        time_Parse timestamp = Ok recorded ->
        parseDurationString (PullingInterval (Interval imageJSON))
          = Ret (Ok pullingInterval) ->
        int_min < pullingInterval ->
        exists st2,
          CheckImagePullInterval imageID st
          = Ret ((bool_decide (pullingInterval < ticks st (reads st) - recorded), None),
                 st2, l)
          /\ fs st2 = fs st1)
  /\ CheckImagePullInterval_method imageID st = CheckImagePullInterval imageID st.
Proof.
  intros Hread. split; [|split; [|reflexivity]].
  - intros Hnone. unfold CheckImagePullInterval, ReadImageJSON, bind.
    rewrite Hread, Hnone. unfold ret. now rewrite app_nil_r.
  - intros timestamp recorded d Hsome Hparse Hdur Hmin.
    destruct (readImageJSON_inv _ _ _ _ Hread)
      as (home & _ & _ & _ & _ & _ & _ & Htk & Hrd & _).
    pose proof (parseDurationString_range _ _ Hdur) as Hrange.
    unfold CheckImagePullInterval, ReadImageJSON, bind.
    rewrite Hread, Hsome, Hparse, Hdur. simpl.
    exists {| interval := interval st1; imagePath := imagePath st1; fs := fs st1;
              ticks := ticks st1; reads := S (reads st1) |}.
    split; [|reflexivity].
    rewrite !app_nil_r, Htk, Hrd. do 4 f_equal.
    unfold Time_Before, Time_Add. rewrite Duration_neg_opp by lia.
    destruct (recorded <? ticks st (reads st) + - d) eqn:Hlt; symmetry.
    + apply Z.ltb_lt in Hlt. apply bool_decide_eq_true_2. lia.
    + apply Z.ltb_ge in Hlt. apply bool_decide_eq_false_2. lia.
Qed.

(** The theorem one nanosecond past the boundary: no entry for alpine, and
    an entry for busybox older than the interval. *)
Lemma CheckImagePullInterval_strict_witness :
  @CheckImagePullInterval RFC3339.utc "alpine"
    (Sim.process (Sim.files (File (Json Sim.busybox_ledger)) None)
       (Sim.t_2024 + Sim.hour + 1))
  = Ret ((true, None),
         {| interval := ""; imagePath := "/home/pack/.pack/image.json";
            fs := Sim.files (File (Json Sim.busybox_ledger)) None;
            ticks := fun _ => Sim.t_2024 + Sim.hour + 1; reads := 0 |}, [])
  /\ exists st2,
       @CheckImagePullInterval RFC3339.utc "busybox"
         (Sim.process (Sim.files (File (Json Sim.busybox_ledger)) None)
            (Sim.t_2024 + Sim.hour + 1))
       = Ret ((bool_decide (Sim.hour < Sim.t_2024 + Sim.hour + 1 - Sim.t_2024), None),
              st2, [])
       /\ fs st2 = Sim.files (File (Json Sim.busybox_ledger)) None.
Proof.
  assert (Hread : readImageJSON
                    (Sim.process (Sim.files (File (Json Sim.busybox_ledger)) None)
                       (Sim.t_2024 + Sim.hour + 1))
                  = Ret (Ok Sim.busybox_ledger,
                         {| interval := ""; imagePath := "/home/pack/.pack/image.json";
                            fs := Sim.files (File (Json Sim.busybox_ledger)) None;
                            ticks := fun _ => Sim.t_2024 + Sim.hour + 1; reads := 0 |},
                         [])) by reflexivity.
  split.
  - destruct (@CheckImagePullInterval_strict RFC3339.utc "alpine" _ _ _ _ Hread)
      as (Hnone & _ & _).
    apply Hnone. reflexivity.
  - destruct (@CheckImagePullInterval_strict RFC3339.utc "busybox" _ _ _ _ Hread)
      as (_ & Hsome & _).
    apply (Hsome "2024-01-01T00:00:00Z" Sim.t_2024 Sim.hour); vm_compute; reflexivity.
Defined.

(** ** Pruning *)

Lemma Time_Sub_ltb (t u d : Z) :
  int_min < d <= int_max -> (Time_Sub t u <? d) = (t - u <? d).
Proof.
  unfold Time_Sub, int_min, int_max. intros Hd.
  destruct (2 ^ 63 - 1 <? t - u) eqn:Hhi.
  { apply Z.ltb_lt in Hhi. rewrite (proj2 (Z.ltb_ge _ _)), (proj2 (Z.ltb_ge _ _)); lia. }
  destruct (t - u <? - 2 ^ 63) eqn:Hlo; [|reflexivity].
  apply Z.ltb_lt in Hlo. rewrite (proj2 (Z.ltb_lt _ _)), (proj2 (Z.ltb_lt _ _)); lia.
Qed.

Section Prune.

Context `{TimeLib}.

(** What the range loop leaves of the map it started from: the entries
    met whose timestamp is older than the threshold are gone. *)
Lemma pruneLoop_lookup (entries : list (string * string))
    (images : gmap string string) (threshold : Z) :
  (forall k v, In (k, v) entries -> exists t, time_Parse v = Ok t) ->
  exists images',
    pruneLoop entries images threshold = Ok images'
    /\ forall imageID,
         images' !! imageID
         = if existsb (fun kv => String.eqb (fst kv) imageID && older threshold (snd kv))
                entries
           then None else images !! imageID.
Proof.
  revert images. induction entries as [|[k0 v0] rest IH]; intros images Hparse.
  - exists images. split; reflexivity.
  - destruct (Hparse k0 v0 (or_introl eq_refl)) as [t0 Ht0].
    cbn [pruneLoop existsb fst snd]. unfold older at 1. rewrite Ht0.
    assert (Hrest : forall k v, In (k, v) rest -> exists t, time_Parse v = Ok t)
      by (intros k v Hin; apply (Hparse k v); right; exact Hin).
    destruct (Time_Before t0 threshold).
    + destruct (IH (delete k0 images) Hrest) as (images' & -> & Hlook).
      exists images'. split; [reflexivity|]. intros imageID.
      rewrite Hlook, andb_true_r.
      destruct (String.eqb k0 imageID) eqn:Hk; simpl.
      * apply String.eqb_eq in Hk as ->. rewrite lookup_delete_eq.
        now destruct (existsb _ rest).
      * apply String.eqb_neq in Hk. now rewrite lookup_delete_ne.
    + destruct (IH images Hrest) as (images' & -> & Hlook).
      exists images'. split; [reflexivity|]. intros imageID.
      now rewrite Hlook, andb_false_r.
Qed.

(** Over all the entries of the map, whatever the order. *)
Lemma pruneLoop_map (images : gmap string string) (threshold : Z) :
  well_stamped images ->
  exists images',
    pruneLoop (map_to_list images) images threshold = Ok images'
    /\ forall imageID,
         images' !! imageID
         = match images !! imageID with
           | Some timestamp =>
               if older threshold timestamp then None else Some timestamp
           | None => None
           end.
Proof.
  intros Hwf.
  destruct (pruneLoop_lookup (map_to_list images) images threshold)
    as (images' & Hrun & Hlook).
  { intros k v Hin. apply list_elem_of_In, elem_of_map_to_list in Hin.
    exact (Hwf k v Hin). }
  exists images'. split; [exact Hrun|]. intros imageID. rewrite Hlook.
  destruct (existsb _ (map_to_list images)) eqn:Hex.
  - apply existsb_exists in Hex as ([k v] & Hin & Hkv). simpl in Hkv.
    apply andb_true_iff in Hkv as [Hk Hold]. apply String.eqb_eq in Hk as ->.
    apply list_elem_of_In, elem_of_map_to_list in Hin. now rewrite Hin, Hold.
  - destruct (images !! imageID) as [timestamp|] eqn:Hsome; [|reflexivity].
    destruct (older threshold timestamp) eqn:Hold; [|reflexivity].
    assert (Hin : In (imageID, timestamp) (map_to_list images))
      by (apply list_elem_of_In, elem_of_map_to_list; exact Hsome).
    assert (Htrue : existsb
              (fun kv => String.eqb (fst kv) imageID && older threshold (snd kv))
              (map_to_list images) = true).
    { apply existsb_exists. exists (imageID, timestamp). split; [exact Hin|].
      simpl. now rewrite String.eqb_refl, Hold. }
    congruence.
Qed.

(** Within the pruning interval the call returns without a write. *)
Lemma PruneOldImages_noop (st st1 : State) (l : list LogLine) (doc : ImageJSON)
    (pruningInterval lastPrune : Z) :
  readImageJSON st = Ret (Ok doc, st1, l) ->
  parseDurationString (PruningIinterval (Interval doc)) = Ret (Ok pruningInterval) ->
  int_min < pruningInterval ->
  LastPrune (Interval doc) <> "" ->
  time_Parse (LastPrune (Interval doc)) = Ok lastPrune ->
  ticks st (reads st) - lastPrune < pruningInterval ->
  PruneOldImages st
  = Ret (None, {| interval := interval st1; imagePath := imagePath st1; fs := fs st1;
                  ticks := ticks st1; reads := S (reads st1) |}, l)
  /\ fs st1 = fs st.
Proof.
  intros Hread Hdur Hmin Hset Hparse Hrecent.
  pose proof (parseDurationString_range _ _ Hdur) as Hrange.
  destruct (readImageJSON_inv _ _ _ _ Hread)
    as (home & _ & _ & _ & _ & _ & _ & Htk & Hrd & _ & Hcase).
  split.
  - unfold PruneOldImages, bind. rewrite Hread.
    apply String.eqb_neq in Hset. rewrite Hset. cbn [negb].
    rewrite Hparse, Hdur. unfold lift_outcome, time_Now, ret.
    rewrite Time_Sub_ltb by lia. rewrite Htk, Hrd.
    rewrite (proj2 (Z.ltb_lt _ _) Hrecent). rewrite !app_nil_r.
    rewrite <- Htk, <- Hrd. reflexivity.
  - destruct Hcase as [[Hfs _]|[_ Hmin']]; [exact Hfs|].
    injection Hmin' as ->. simpl in Hset. congruence.
Qed.

Lemma os_WriteFile_ok (files : FS) (home : string) (old data : Content) :
  fs_home files = Ok home -> fs_write files = None -> fs_disk files = File old ->
  os_WriteFile (ledgerPath home) data files
  = (None, with_disk files (File data) (S (fs_writes files))).
Proof.
  intros Hhome Hwrite Hdisk. unfold os_WriteFile, is_ledger_path.
  now rewrite Hhome, String.eqb_refl, Hwrite, Hdisk.
Qed.

(** Past the pruning interval, or with no prune on record, the call
    writes the document without the old entries and with the new
    [last_prune]. *)
Lemma PruneOldImages_prunes (st st1 : State) (l : list LogLine) (doc : ImageJSON)
    (pruningInterval : Z) (k : nat) :
  readImageJSON st = Ret (Ok doc, st1, l) ->
  parseDurationString (PruningIinterval (Interval doc)) = Ret (Ok pruningInterval) ->
  int_min < pruningInterval ->
  prune_due st doc pruningInterval k ->
  well_stamped (ImageIDtoTIME (Image doc)) ->
  fs_write (fs st) = None ->
  exists images',
    (forall imageID,
       images' !! imageID
       = match ImageIDtoTIME (Image doc) !! imageID with
         | Some timestamp =>
             if older (ticks st k - pruningInterval) timestamp then None
             else Some timestamp
         | None => None
         end)
    /\ PruneOldImages st
       = Ret (None,
              {| interval := interval st1; imagePath := imagePath st1;
                 fs := with_disk (fs st1)
                         (File (Json
                            {| Interval :=
                                 {| PullingInterval := PullingInterval (Interval doc);
                                    PruningIinterval := PruningIinterval (Interval doc);
                                    LastPrune := time_Format (ticks st (S k)) |};
                               Image := {| ImageIDtoTIME := images' |} |}))
                         (S (fs_writes (fs st1)));
                 ticks := ticks st1; reads := S (S k) |}, l).
Proof.
  intros Hread Hdur Hmin Hdue Hwf Hwrite.
  pose proof (parseDurationString_range _ _ Hdur) as Hrange.
  destruct (readImageJSON_inv _ _ _ _ Hread)
    as (home & Hhome & Hpath & Hdisk & _ & _ & Hwr & Htk & Hrd & _ & _).
  rewrite Hwrite in Hwr.
  destruct (pruneLoop_map (ImageIDtoTIME (Image doc))
              (ticks st k - pruningInterval) Hwf) as (images' & Hloop & Hlook).
  exists images'. split; [exact Hlook|].
  unfold PruneOldImages, bind. rewrite Hread.
  destruct Hdue as [[Hunset ->]|(lastPrune & Hset & Hparse & Hold & ->)].
  - rewrite Hunset. cbn [String.eqb negb]. unfold ret at 1.
    rewrite Hdur. unfold lift_outcome, time_Now, ret, get_state, with_fs.
    cbn [ticks reads fs imagePath interval].
    unfold Time_Add. rewrite Duration_neg_opp by lia.
    rewrite Htk, Hrd. change (ticks st (reads st) + - pruningInterval)
      with (ticks st (reads st) - pruningInterval).
    rewrite Hloop. unfold json_MarshalIndent. rewrite Hpath.
    rewrite (os_WriteFile_ok (fs st1) home (Json doc)) by assumption.
    rewrite !app_nil_r. rewrite <- Htk. reflexivity.
  - apply String.eqb_neq in Hset. rewrite Hset. cbn [negb].
    rewrite Hparse, Hdur. unfold lift_outcome, time_Now, ret, get_state, with_fs.
    cbn [ticks reads fs imagePath interval].
    rewrite Time_Sub_ltb by lia. rewrite Htk, Hrd.
    rewrite (proj2 (Z.ltb_ge _ _) Hold).
    cbn [ticks reads fs imagePath interval]. rewrite ?Htk, ?Hrd.
    unfold Time_Add. rewrite Duration_neg_opp by lia.
    change (ticks st (S (reads st)) + - pruningInterval)
      with (ticks st (S (reads st)) - pruningInterval).
    rewrite Hloop. unfold json_MarshalIndent. rewrite Hpath.
    rewrite (os_WriteFile_ok (fs st1) home (Json doc)) by assumption.
    rewrite !app_nil_r. rewrite <- Htk. reflexivity.
Qed.

End Prune.

(** C6. With the ledger read and its pruning interval parsed:
    within the pruning interval of the prune on record, [PruneOldImages]
    returns with the file system as it was; otherwise (no prune on record,
    or one at least the interval old) it writes the document in which
    exactly the entries older than now minus the pruning interval are gone,
    all others kept, and [last_prune] is now; and a call that follows within
    the pruning interval of that [last_prune] changes nothing. *)
Theorem PruneOldImages_spec `{TimeLib} (st st1 : State) (l : list LogLine)
    (doc : ImageJSON) (pruningInterval : Z) :
  readImageJSON st = Ret (Ok doc, st1, l) ->
  parseDurationString (PruningIinterval (Interval doc)) = Ret (Ok pruningInterval) ->
  int_min < pruningInterval ->
  (forall lastPrune : Z,
     LastPrune (Interval doc) <> "" ->
     time_Parse (LastPrune (Interval doc)) = Ok lastPrune ->
     ticks st (reads st) - lastPrune < pruningInterval ->
     exists st', PruneOldImages st = Ret (None, st', l) /\ fs st' = fs st)
  /\ (forall k : nat,
        prune_due st doc pruningInterval k ->
        well_stamped (ImageIDtoTIME (Image doc)) ->
        fs_write (fs st) = None ->
        exists (st' : State) (images' : gmap string string),
          PruneOldImages st = Ret (None, st', l)
          /\ fs_disk (fs st')
             = File (Json
                 {| Interval :=
                      {| PullingInterval := PullingInterval (Interval doc);
                         PruningIinterval := PruningIinterval (Interval doc);
                         LastPrune := time_Format (ticks st (S k)) |};
                    Image := {| ImageIDtoTIME := images' |} |})
          /\ (forall imageID,
                images' !! imageID
                = match ImageIDtoTIME (Image doc) !! imageID with
                  | Some timestamp =>
                      if older (ticks st k - pruningInterval) timestamp then None
                      else Some timestamp
                  | None => None
                  end)
          /\ (forall lastPrune' : Z,
                time_Format (ticks st (S k)) <> "" ->
                time_Parse (time_Format (ticks st (S k))) = Ok lastPrune' ->
                ticks st (S (S k)) - lastPrune' < pruningInterval ->
                exists st'',
                  PruneOldImages st' = Ret (None, st'', []) /\ fs st'' = fs st')).
Proof.
  intros Hread Hdur Hmin. split.
  - intros lastPrune Hset Hparse Hrecent.
    destruct (PruneOldImages_noop st st1 l doc pruningInterval lastPrune)
      as [Hrun Hfs]; try assumption.
    eexists. split; [exact Hrun|]. exact Hfs.
  - intros k Hdue Hwf Hwrite.
    destruct (PruneOldImages_prunes st st1 l doc pruningInterval k)
      as (images' & Hlook & Hrun); try assumption.
    destruct (readImageJSON_inv _ _ _ _ Hread)
      as (home & Hhome & Hpath & Hdisk & Hrd' & _ & _ & Htk & _ & _ & _).
    eexists _, images'. split; [exact Hrun|].
    split; [reflexivity|]. split; [exact Hlook|].
    intros lastPrune' Hne Hparse' Hrecent.
    match goal with
    | |- exists st'', PruneOldImages ?s = _ /\ _ => set (st' := s)
    end.
    match type of Hrun with
    | context [Json ?d] => set (doc' := d) in *
    end.
    assert (Hread' : readImageJSON st'
                     = Ret (Ok doc', {| interval := interval st';
                                        imagePath := ledgerPath home; fs := fs st';
                                        ticks := ticks st'; reads := reads st' |}, [])).
    { apply readImageJSON_file; [exact Hhome | reflexivity | exact Hrd']. }
    destruct (PruneOldImages_noop st' _ [] doc' pruningInterval lastPrune' Hread')
      as [Hrun' Hfs']; try assumption.
    { simpl. rewrite Htk. exact Hrecent. }
    eexists. split; [exact Hrun'|]. reflexivity.
Qed.

(** The theorem nine days after the prune on record, with a pruning
    interval of seven days: the entry of busybox goes, that of alpine stays,
    and a second call at once changes nothing. *)
Lemma PruneOldImages_spec_witness :
  exists (st' st'' : State) (images' : gmap string string),
    @PruneOldImages RFC3339.utc
      (Sim.process (Sim.files (File (Json Sim.stale_ledger)) None)
         (Sim.t_2024 + 9 * Sim.day))
    = Ret (None, st', [])
    /\ fs_disk (fs st')
       = File (Json {| Interval := {| PullingInterval := "1d"; PruningIinterval := "7d";
                                      LastPrune := "2024-01-10T00:00:00Z" |};
                       Image := {| ImageIDtoTIME := images' |} |})
    /\ images' !! "busybox" = None
    /\ images' !! "alpine" = Some "2024-01-09T00:00:00Z"
    /\ @PruneOldImages RFC3339.utc st' = Ret (None, st'', [])
    /\ fs st'' = fs st'.
Proof.
  pose (st := Sim.process (Sim.files (File (Json Sim.stale_ledger)) None)
                (Sim.t_2024 + 9 * Sim.day)).
  assert (Hread : readImageJSON st
                  = Ret (Ok Sim.stale_ledger,
                         {| interval := ""; imagePath := "/home/pack/.pack/image.json";
                            fs := fs st; ticks := ticks st; reads := 0 |}, []))
    by reflexivity.
  destruct (@PruneOldImages_spec RFC3339.utc st _ [] Sim.stale_ledger (7 * Sim.day) Hread)
    as [_ Hprune]; [reflexivity | vm_compute; reflexivity |].
  destruct (Hprune 1%nat) as (st' & images' & Hrun & Hdisk & Hlook & Hagain).
  - right. exists Sim.t_2024. repeat split; [discriminate | vm_compute; discriminate].
  - intros k v Hkv. unfold Sim.stale_ledger, Sim.ledger in Hkv. simpl in Hkv.
    apply lookup_insert_Some in Hkv as [[_ <-]|[_ Hkv]]; [eexists; reflexivity|].
    apply lookup_insert_Some in Hkv as [[_ <-]|[_ Hkv]]; [eexists; reflexivity|].
    rewrite lookup_empty in Hkv. discriminate.
  - reflexivity.
  - destruct (Hagain (Sim.t_2024 + 9 * Sim.day)) as (st'' & Hrun' & Hfs');
      [discriminate | reflexivity | vm_compute; reflexivity |].
    exists st', st'', images'.
    split; [exact Hrun|]. split; [exact Hdisk|].
    split; [rewrite Hlook; reflexivity|]. split; [rewrite Hlook; reflexivity|].
    split; [exact Hrun' | exact Hfs'].
Defined.

(** ** The fetcher and the ledger *)

Lemma returned_bind {S A B : Type} (c : M S A) (k : A -> M S B) (s : S) :
  returned (bind c k s)
  = match returned (c s) with
    | Ret (a, s') => returned (k a s')
    | Panic msg => Panic msg
    | Diverge => Diverge
    end.
Proof.
  unfold bind. destruct (c s) as [[[a s'] l]| |]; simpl; try reflexivity.
  destruct (k a s') as [[[b s''] l']| |]; reflexivity.
Qed.

Section Frame.

Context {D C Img V1Image Authenticator Stream : Type}.
Variable ext : @Collaborators D Img V1Image Authenticator Stream.

Lemma keeps_ret {A : Type} (a : A) : keeps_ledger (D := D) (C := C) (ret a).
Proof. intros w. exists a, w, []. auto. Qed.

Lemma keeps_log (line : LogLine) : keeps_ledger (D := D) (C := C) (log line).
Proof. intros w. exists tt, w, [line]. auto. Qed.

Lemma keeps_bind {A B : Type} (c : M (World D C) A) (k : A -> M (World D C) B) :
  keeps_ledger c -> (forall a, keeps_ledger (k a)) -> keeps_ledger (bind c k).
Proof.
  intros Hc Hk w. destruct (Hc w) as (a & w1 & l1 & Hrun & Hp & Hch).
  destruct (Hk a w1) as (b & w2 & l2 & Hrun' & Hp' & Hch').
  exists b, w2, (l1 ++ l2)%list. unfold bind. rewrite Hrun, Hrun'.
  repeat split; congruence.
Qed.

Lemma keeps_get_daemon : keeps_ledger (C := C) (get_daemon (D := D)).
Proof. intros w. exists (daemon w), w, []. auto. Qed.

Lemma keeps_set_daemon (d : D) : keeps_ledger (C := C) (set_daemon d).
Proof. intros w. eexists tt, _, []. split; [reflexivity|]. auto. Qed.

Ltac keeps :=
  repeat first
    [ apply keeps_ret | apply keeps_log | apply keeps_get_daemon
    | apply keeps_set_daemon
    | apply keeps_bind; [|intros ?]
    | match goal with
      | |- keeps_ledger (match ?x with _ => _ end) => destruct x
      | |- keeps_ledger (if ?b then _ else _) => destruct b
      | |- keeps_ledger (let '(_, _) := ?x in _) => destruct x
      end ].

Lemma keeps_fetchDaemonImage (name : string) :
  keeps_ledger (C := C) (fetchDaemonImage ext name).
Proof. unfold fetchDaemonImage. keeps. Qed.

Lemma keeps_fetchRemoteImage (name : string) :
  keeps_ledger (C := C) (fetchRemoteImage ext name).
Proof. unfold fetchRemoteImage. keeps. Qed.

Lemma keeps_fetchLayoutImage (name : string) (options : LayoutOption) :
  keeps_ledger (C := C) (fetchLayoutImage ext name options).
Proof. unfold fetchLayoutImage. keeps. Qed.

Lemma keeps_pullImage (imageID platform : string) :
  keeps_ledger (C := C) (pullImage ext imageID platform).
Proof. unfold pullImage. keeps. Qed.

Lemma keeps_pullWithRetry (name platform : string) :
  keeps_ledger (C := C) (pullWithRetry ext name platform).
Proof.
  unfold pullWithRetry. apply keeps_bind; [apply keeps_pullImage|].
  intros [e|]; [|apply keeps_ret].
  destruct (strings_Contains _ _); [apply keeps_pullImage | apply keeps_ret].
Qed.

Lemma keeps_pullAndResolve (name : string) (options : FetchOptions) :
  keeps_ledger (C := C) (pullAndResolve ext name options (ret None)).
Proof.
  unfold pullAndResolve.
  apply keeps_bind; [apply keeps_log|]. intros _.
  apply keeps_bind; [apply keeps_pullWithRetry|]. intros err.
  assert (Hresolve : keeps_ledger (C := C)
            (let! r := fetchDaemonImage ext name in
             match r with
             | Err err => ret (Err err)
             | Ok image =>
                 let! u := ret None in
                 match u with
                 | Some err => ret (Err err)
                 | None => ret (Ok image)
                 end
             end)).
  { apply keeps_bind; [apply keeps_fetchDaemonImage|]. intros r. keeps. }
  destruct err as [e|]; [|exact Hresolve].
  destruct (negb (IsNotFound e)); [apply keeps_ret | exact Hresolve].
Qed.

(** Under a policy that is not an interval policy, and in layout or
    registry mode under any policy, the [Fetch] of [fetcher.go] calls no
    method of the checker: it returns with the ledger file, the package
    variables, the clock and the checker's state as they were. *)
Lemma Fetch_keeps_ledger `{TimeLib} (chk : ImagePullChecker.t C)
    (name : string) (options : FetchOptions) :
  intervalPolicy options = false
  \/ layout_set (LayoutOption_ options) = true
  \/ Daemon options = false ->
  keeps_ledger (Fetch ext chk name options).
Proof.
  intros Hmode. unfold Fetch.
  destruct (TranslateRegistry ext name) as [name'|e]; [|apply keeps_ret].
  destruct (layout_set (LayoutOption_ options)) eqn:Hlayout;
    [apply keeps_fetchLayoutImage|].
  destruct (Daemon options) eqn:Hdaemon; simpl; [|apply keeps_fetchRemoteImage].
  destruct Hmode as [Hpol|[?|?]]; try discriminate.
  unfold recordPull. rewrite Hpol.
  unfold intervalPolicy in Hpol.
  destruct (PullPolicy_ options); try discriminate Hpol.
  - apply keeps_bind; [apply keeps_ret|]. intros [r|]; [apply keeps_ret|].
    apply keeps_pullAndResolve.
  - apply keeps_bind.
    { apply keeps_bind; [apply keeps_fetchDaemonImage|]. intros r. apply keeps_ret. }
    intros [r|]; [apply keeps_ret | apply keeps_pullAndResolve].
  - apply keeps_bind.
    { apply keeps_bind; [apply keeps_fetchDaemonImage|]. intros r. keeps. }
    intros [r|]; [apply keeps_ret | apply keeps_pullAndResolve].
Qed.

End Frame.

(** C3. The earlier [Fetch] records the pull whatever the policy: under
    [PullAlways], with busybox pulled at two o'clock, it rewrites the
    ledger file with a new timestamp for busybox.  The [Fetch] of
    [fetcher.go] guards the record with [intervalPolicy] and leaves the
    ledger alone ([Fetch_keeps_ledger]). *)
Theorem Legacy_Fetch_always_writes_ledger :
  exists w' l,
    @Legacy.Fetch RFC3339.utc _ _ _ _ _ _ (Sim.ext ["busybox"]) "busybox"
      (Sim.daemon_mode PullAlways)
      (Sim.world (Sim.process (Sim.files (File (Json Sim.busybox_ledger)) None)
                    (Sim.t_2024 + 2 * Sim.hour)) [])
    = Ret (Ok ("busybox", true), w', l)
    /\ fs_writes (fs (proc w')) = 1%nat
    /\ fs_disk (fs (proc w'))
       = File (Json (Sim.ledger "1h" "7d" "" [("busybox", "2024-01-01T02:00:00Z")])).
Proof.
  eexists _, _. split; [vm_compute; reflexivity|].
  split; vm_compute; reflexivity.
Qed.

(** The same call through [fetcher.go]: no write. *)
Remark Fetch_always_keeps_ledger :
  exists w' l,
    @Fetch RFC3339.utc _ _ _ _ _ _ (Sim.ext ["busybox"]) (@PullChecker RFC3339.utc None) "busybox"
      (Sim.daemon_mode PullAlways)
      (Sim.world (Sim.process (Sim.files (File (Json Sim.busybox_ledger)) None)
                    (Sim.t_2024 + 2 * Sim.hour)) [])
    = Ret (Ok ("busybox", true), w', l)
    /\ fs (proc w') = Sim.files (File (Json Sim.busybox_ledger)) None.
Proof. eexists _, _. split; vm_compute; reflexivity. Qed.

Section Eviction.

Context `{TimeLib}.
Context {D C Img V1Image Authenticator Stream : Type}.
Variable ext : @Collaborators D Img V1Image Authenticator Stream.
Variable chk : ImagePullChecker.t C.

(** The eviction does not look at the error of [ReadImageJSON]: when the
    daemon misses the image and the checker hands back nil, the delete
    goes through the nil pointer. *)
Lemma fetchWithoutPull_nil (name : string) (w : World D C) (w1 : World D C)
    (l l' : list LogLine) (e : error) (e' : option error) (s' : C * State) :
  fetchDaemonImage ext name w = Ret (Err e, w1, l) ->
  IsNotFound e = true ->
  ImagePullChecker.ReadImageJSON chk (checker w1, proc w1) = Ret ((None, e'), s', l') ->
  fetchWithoutPull ext chk name w
  = Panic "invalid memory address or nil pointer dereference".
Proof.
  intros Hlookup Hnf Hread. unfold fetchWithoutPull, bind.
  rewrite Hlookup, Hnf. unfold in_checker. rewrite Hread.
  destruct s' as [c' st']. reflexivity.
Qed.

End Eviction.

(** C10. Interval policy, image absent from the daemon, ledger file not
    valid JSON: the check fails (a warning) with [pull = false], the daemon
    lookup is NotFound, [ReadImageJSON] fails and its nil record is
    dereferenced; [Fetch] panics instead of returning NotFound. *)
Theorem Fetch_evicts_through_nil :
  @Fetch RFC3339.utc _ _ _ _ _ _ (Sim.ext ["busybox"]) (@PullChecker RFC3339.utc None) "busybox"
    (Sim.daemon_mode PullDaily)
    (Sim.world (Sim.process (Sim.files (File (Malformed "{")) None) Sim.t_2024) [])
  = Panic "invalid memory address or nil pointer dereference".
Proof. vm_compute. reflexivity. Qed.

(** The same call with a checker that hands back [&ImageJSON{}] next to the
    error: [Fetch] returns NotFound, and the eviction writes the empty
    record of the failed read over the ledger file. *)
Remark Fetch_evicts_after_failed_read :
  exists w' l e,
    @Fetch RFC3339.utc _ _ _ _ _ _ (Sim.ext ["busybox"])
      (@PullChecker RFC3339.utc (Some Sim.zero_ledger)) "busybox"
      (Sim.daemon_mode PullDaily)
      (Sim.world (Sim.process (Sim.files (File (Malformed "{")) None) Sim.t_2024) [])
    = Ret (Err e, w', l)
    /\ IsNotFound e = true
    /\ fs_disk (fs (proc w')) = File (Json Sim.zero_ledger).
Proof.
  eexists _, _, _. split; [vm_compute; reflexivity|].
  split; vm_compute; reflexivity.
Qed.

(** The earlier [Fetch] returns the error of the interval check: on a
    ledger file that is not valid JSON it fails before any lookup. *)
Remark Legacy_Fetch_check_failure_is_fatal :
  exists e w' l,
    @Legacy.Fetch RFC3339.utc _ _ _ _ _ _ (Sim.ext ["busybox"]) "busybox"
      (Sim.daemon_mode PullWithInterval)
      (Sim.world (Sim.process (Sim.files (File (Malformed "{")) None) Sim.t_2024)
         ["busybox"])
    = Ret (Err (ErrWrap e "failed to unmarshal image.json"), w', l).
Proof. eexists _, _, _. vm_compute. reflexivity. Qed.

(** C2, as claimed, fails: the pull and both daemon lookups succeed, the
    ledger cannot be written, and [Fetch] returns the error of
    [UpdateImagePullRecord] in place of the image. *)
Lemma Fetch_update_failure_is_fatal :
  exists w' l,
    @Fetch RFC3339.utc _ _ _ _ _ _ (Sim.ext ["busybox"]) (@PullChecker RFC3339.utc None) "busybox"
      (Sim.daemon_mode PullWithInterval)
      (Sim.world (Sim.process (Sim.files (File (Json Sim.busybox_ledger)) Sim.read_only)
                    (Sim.t_2024 + 2 * Sim.hour)) [])
    = Ret (Err (ErrExt "read-only file system" false), w', l)
    /\ daemon w' = ["busybox"]
    /\ @fetchDaemonImage _ unit _ _ _ _ (Sim.ext ["busybox"]) "busybox" w'
       = Ret (Ok ("busybox", true), w', []).
Proof.
  eexists _, _. split; [vm_compute; reflexivity|].
  split; vm_compute; reflexivity.
Qed.

Section Warnings.

Context `{TimeLib}.
Context {D C Img V1Image Authenticator Stream : Type}.
Variable ext : @Collaborators D Img V1Image Authenticator Stream.
Variable chk : ImagePullChecker.t C.

Lemma alike_refl {S A : Type} (c : M S A) : alike c c.
Proof. intros s. reflexivity. Qed.

Lemma alike_bind {S A B : Type} (c1 c2 : M S A) (k1 k2 : A -> M S B) :
  alike c1 c2 -> (forall a, alike (k1 a) (k2 a)) ->
  alike (bind c1 k1) (bind c2 k2).
Proof.
  intros Hc Hk s. rewrite !returned_bind, (Hc s).
  destruct (returned (c2 s)) as [[a s']| |]; [apply Hk | reflexivity | reflexivity].
Qed.

Lemma alike_log {S : Type} (line : LogLine) : alike (S := S) (log line) (ret tt).
Proof. intros s. reflexivity. Qed.

Lemma alike_warn {S : Type} (err : option error) (line : error -> LogLine) :
  alike (S := S)
    (match err with Some e => log (line e) | None => ret tt end) (ret tt).
Proof. destruct err; [apply alike_log | apply alike_refl]. Qed.

Lemma in_checker_answer_opt {A B : Type} (f : A -> B) (c : M (C * State) A)
    (k : B -> M (World D C) (option (result Img))) :
  alike (bind (in_checker (D := D) (answer f c)) k)
        (bind (in_checker c) (fun a => k (f a))).
Proof.
  intros w. unfold bind, in_checker, answer.
  destruct (c (checker w, proc w)) as [[[a [c' st']] l]| |]; reflexivity.
Qed.

Lemma intervalCase_quiet (name : string) :
  alike (intervalCase ext chk name) (intervalCase ext (quiet chk) name).
Proof.
  unfold intervalCase.
  intros w. symmetry. cbn [quiet ImagePullChecker.CheckImagePullInterval].
  rewrite in_checker_answer_opt. symmetry. revert w.
  apply alike_bind; [apply alike_refl|]. intros [pull err]. cbn [fst].
  apply alike_bind.
  { intros s. rewrite (alike_warn err _ s). reflexivity. }
  intros _. destruct (negb pull); [apply alike_refl|].
  intros w. symmetry. cbn [quiet ImagePullChecker.PruneOldImages].
  rewrite in_checker_answer_opt. symmetry. revert w.
  apply alike_bind; [apply alike_refl|]. intros err'.
  apply alike_bind; [|intros a; apply alike_refl].
  intros s. rewrite (alike_warn err' _ s). reflexivity.
Qed.

(** What the interval check and the prune report as their error has no
    part in what [Fetch] returns. *)
Lemma Fetch_quiet (name : string) (options : FetchOptions) :
  alike (Fetch ext chk name options) (Fetch ext (quiet chk) name options).
Proof.
  unfold Fetch.
  destruct (TranslateRegistry ext name) as [name'|e]; [|apply alike_refl].
  destruct (layout_set (LayoutOption_ options)); [apply alike_refl|].
  destruct (negb (Daemon options)); [apply alike_refl|].
  apply alike_bind; [|intros a; apply alike_refl].
  destruct (PullPolicy_ options);
    first [apply intervalCase_quiet | apply alike_refl].
Qed.

Lemma bind_Ret {S A B : Type} (c : M S A) (k : A -> M S B) (s s2 : S) (b : B)
    (l : list LogLine) :
  bind c k s = Ret (b, s2, l) ->
  exists a s1 l1 l2,
    c s = Ret (a, s1, l1) /\ k a s1 = Ret (b, s2, l2) /\ l = (l1 ++ l2)%list.
Proof.
  unfold bind. destruct (c s) as [[[a s1] l1]| |]; try discriminate.
  destruct (k a s1) as [[[b' s2'] l2]| |] eqn:Hk; try discriminate.
  intros [= <- <- <-]. exists a, s1, l1, l2. auto.
Qed.

Lemma bind_Ret_2 {S A B : Type} (c : M S A) (k : A -> M S B) (s s1 s2 : S)
    (a : A) (b : B) (l1 l2 : list LogLine) :
  c s = Ret (a, s1, l1) -> k a s1 = Ret (b, s2, l2) ->
  bind c k s = Ret (b, s2, (l1 ++ l2)%list).
Proof. intros Hc Hk. unfold bind. now rewrite Hc, Hk. Qed.

(** With the image delivered when nothing is recorded, a record step that
    fails decides what the tail of [Fetch] returns. *)
Lemma pullAndResolve_record (name : string) (options : FetchOptions)
    (record : M (World D C) (option error)) (w w3 w4 : World D C)
    (image : Img) (l3 l4 : list LogLine) (e : error) :
  pullAndResolve ext name options (ret None) w = Ret (Ok image, w3, l3) ->
  record w3 = Ret (Some e, w4, l4) ->
  pullAndResolve ext name options record w = Ret (Err e, w4, (l3 ++ l4)%list).
Proof.
  unfold pullAndResolve. cbv zeta. intros Hplain Hrecord.
  apply bind_Ret in Hplain as (u & w0 & l0 & l0' & Hlog & Hplain & ->).
  apply bind_Ret in Hplain as (err & w1 & l1 & l1' & Hpull & Hplain & ->).
  rewrite <- !app_assoc.
  eapply bind_Ret_2; [exact Hlog|]. eapply bind_Ret_2; [exact Hpull|].
  assert (Hresolve : forall tail : M (World D C) (result Img),
            tail = (let! r := fetchDaemonImage ext name in
                    match r with
                    | Err err => ret (Err err)
                    | Ok image =>
                        let! u := ret None in
                        match u with
                        | Some err => ret (Err err)
                        | None => ret (Ok image)
                        end
                    end) ->
            tail w1 = Ret (Ok image, w3, l1') ->
            (let! r := fetchDaemonImage ext name in
             match r with
             | Err err => ret (Err err)
             | Ok image =>
                 let! u := record in
                 match u with
                 | Some err => ret (Err err)
                 | None => ret (Ok image)
                 end
             end) w1 = Ret (Err e, w4, (l1' ++ l4)%list)).
  { intros tail -> Htail.
    apply bind_Ret in Htail as (r & w2 & l2 & l2' & Hlookup & Htail & ->).
    destruct r as [image0|e1]; [|discriminate].
    unfold bind, ret in Htail. injection Htail as <- <- <-.
    rewrite <- app_assoc. eapply bind_Ret_2; [exact Hlookup|].
    simpl. unfold bind. rewrite Hrecord. simpl. now rewrite app_nil_r. }
  destruct err as [e0|].
  - destruct (negb (IsNotFound e0)); [discriminate|].
    now apply (Hresolve _ eq_refl).
  - now apply (Hresolve _ eq_refl).
Qed.

(** [Fetch] in daemon mode under an interval policy. *)
Lemma Fetch_interval (name name' : string) (options : FetchOptions) (w : World D C) :
  TranslateRegistry ext name = Ok name' ->
  layout_set (LayoutOption_ options) = false -> Daemon options = true ->
  intervalPolicy options = true ->
  Fetch ext chk name options w
  = bind (intervalCase ext chk name')
      (fun returned =>
         match returned with
         | Some r => ret r
         | None => pullAndResolve ext name' options (recordPull (D := D) chk name' options)
         end) w.
Proof.
  intros Htr Hlayout Hdaemon Hpol. unfold Fetch.
  rewrite Htr, Hlayout, Hdaemon. cbn [negb].
  unfold intervalPolicy in Hpol.
  destruct (PullPolicy_ options); try discriminate Hpol; reflexivity.
Qed.

Lemma intervalCase_inv (name : string) (w w' : World D C)
    (a : option (result Img)) (l l1 : list LogLine) (pull : bool)
    (cerr : option error) (c1 : C) (st1 : State) :
  ImagePullChecker.CheckImagePullInterval chk name (checker w, proc w)
    = Ret ((pull, cerr), (c1, st1), l1) ->
  intervalCase ext chk name w = Ret (a, w', l) ->
  (forall e, cerr = Some e ->
     In (Warnf ("failed to check pulling interval for image "
                +:+ name +:+ ", " +:+ Error e)) l)
  /\ (forall perr c2 st2 l2 e,
        pull = true ->
        ImagePullChecker.PruneOldImages chk (c1, st1) = Ret (perr, (c2, st2), l2) ->
        perr = Some e ->
        In (Warnf ("Failed to prune images, " +:+ Error e)) l).
Proof.
  intros Hcheck Hrun. unfold intervalCase in Hrun.
  apply bind_Ret in Hrun as ([pull' err'] & w1 & la & lb & Hchk & Hrun & ->).
  unfold in_checker in Hchk. rewrite Hcheck in Hchk.
  injection Hchk as <- <- <- <-.
  apply bind_Ret in Hrun as (u & w1' & lc & ld & Hwarn & Hrun & ->).
  split.
  - intros e ->. unfold log in Hwarn. injection Hwarn as _ _ <-.
    rewrite !in_app_iff. simpl. auto.
  - intros perr c2 st2 l2 e -> Hprune ->. cbn [negb] in Hrun.
    assert (Hw1' : w1' = {| proc := st1; daemon := daemon w; checker := c1 |}).
    { destruct cerr; unfold log, ret in Hwarn; injection Hwarn as _ <- _;
        reflexivity. }
    subst w1'.
    apply bind_Ret in Hrun as (perr' & w2 & le & lf & Hpr & Hrun & ->).
    unfold in_checker in Hpr. cbn [checker proc] in Hpr. rewrite Hprune in Hpr.
    injection Hpr as <- <- <-.
    apply bind_Ret in Hrun as (u' & w2' & lg & lh & Hwarn' & _ & ->).
    unfold log in Hwarn'. injection Hwarn' as _ _ <-.
    rewrite !in_app_iff. simpl. auto 10.
Qed.

Lemma intervalCase_due (name : string) (w : World D C)
    (l1 l2 : list LogLine) (cerr perr : option error) (c1 c2 : C) (st1 st2 : State) :
  ImagePullChecker.CheckImagePullInterval chk name (checker w, proc w)
    = Ret ((true, cerr), (c1, st1), l1) ->
  ImagePullChecker.PruneOldImages chk (c1, st1) = Ret (perr, (c2, st2), l2) ->
  exists l,
    intervalCase ext chk name w
    = Ret (None, {| proc := st2; daemon := daemon w; checker := c2 |}, l).
Proof.
  intros Hcheck Hprune. unfold intervalCase, bind, in_checker.
  rewrite Hcheck. destruct cerr; simpl; rewrite Hprune;
    destruct perr; simpl; eexists; reflexivity.
Qed.

End Warnings.

(** C2 (amended). What the interval check and the prune report as their
    error never reaches the caller of [Fetch]: with these errors withheld
    [Fetch] returns the same; each of them is logged as a warning.  The
    error of the pull-record update does reach the caller: when the pull
    and the daemon lookup after it deliver the image and
    [UpdateImagePullRecord] fails, [Fetch] returns that error. *)
Theorem Fetch_ledger_failures `{TimeLib}
    {D C Img V1Image Authenticator Stream : Type}
    (ext : @Collaborators D Img V1Image Authenticator Stream)
    (chk : ImagePullChecker.t C) (name : string) (options : FetchOptions)
    (w : World D C) :
  returned (Fetch ext chk name options w)
  = returned (Fetch ext (quiet chk) name options w)
  /\ forall (name' : string) (pull : bool) (cerr : option error) (c1 : C)
        (st1 : State) (l1 : list LogLine),
      TranslateRegistry ext name = Ok name' ->
      layout_set (LayoutOption_ options) = false ->
      Daemon options = true ->
      intervalPolicy options = true ->
      ImagePullChecker.CheckImagePullInterval chk name' (checker w, proc w)
        = Ret ((pull, cerr), (c1, st1), l1) ->
      (forall e r w' l,
         cerr = Some e ->
         Fetch ext chk name options w = Ret (r, w', l) ->
         In (Warnf ("failed to check pulling interval for image "
                    +:+ name' +:+ ", " +:+ Error e)) l)
      /\ forall (perr : option error) (c2 : C) (st2 : State) (l2 : list LogLine),
          pull = true ->
          ImagePullChecker.PruneOldImages chk (c1, st1) = Ret (perr, (c2, st2), l2) ->
          (forall e r w' l,
             perr = Some e ->
             Fetch ext chk name options w = Ret (r, w', l) ->
             In (Warnf ("Failed to prune images, " +:+ Error e)) l)
          /\ forall (image : Img) (w3 : World D C) (l3 : list LogLine) (e : error)
                (s4 : C * State) (l4 : list LogLine),
              pullAndResolve ext name' options (ret None)
                {| proc := st2; daemon := daemon w; checker := c2 |}
                = Ret (Ok image, w3, l3) ->
              ImagePullChecker.UpdateImagePullRecord chk name'
                (time_Format (ticks (proc w3) (reads (proc w3))))
                (checker w3, tick (proc w3))
                = Ret (Some e, s4, l4) ->
              exists w' l, Fetch ext chk name options w = Ret (Err e, w', l).
Proof.
  split; [apply Fetch_quiet|].
  intros name' pull cerr c1 st1 l1 Htr Hlayout Hdaemon Hpol Hcheck.
  split.
  { intros e r w' l -> Hrun.
    rewrite (Fetch_interval ext chk name name') in Hrun by assumption.
    apply bind_Ret in Hrun as (a & wa & la & lb & Hcase & _ & ->).
    destruct (intervalCase_inv ext chk _ _ _ _ _ _ _ _ _ _ Hcheck Hcase) as [Hwarn _].
    rewrite in_app_iff. left. now apply Hwarn. }
  intros perr c2 st2 l2 -> Hprune. split.
  { intros e r w' l -> Hrun.
    rewrite (Fetch_interval ext chk name name') in Hrun by assumption.
    apply bind_Ret in Hrun as (a & wa & la & lb & Hcase & _ & ->).
    destruct (intervalCase_inv ext chk _ _ _ _ _ _ _ _ _ _ Hcheck Hcase) as [_ Hwarn].
    rewrite in_app_iff. left. eapply Hwarn; eauto. }
  intros image w3 l3 e [c4 st4] l4 Hplain Hupdate.
  destruct (intervalCase_due ext chk _ _ _ _ _ _ _ _ _ _ Hcheck Hprune) as [l Hcase].
  rewrite (Fetch_interval ext chk name name') by assumption.
  eexists _, _. eapply bind_Ret_2; [exact Hcase|]. cbv beta iota.
  eapply pullAndResolve_record; [exact Hplain|].
  unfold recordPull. rewrite Hpol. unfold bind, in_proc, time_Now, in_checker.
  cbn [proc checker daemon]. fold (tick (proc w3)). rewrite Hupdate.
  reflexivity.
Qed.

(** The theorem on a ledger that cannot be written: the prune fails and is
    a warning, the record fails and is what [Fetch] returns. *)
Lemma Fetch_ledger_failures_witness :
  returned
    (@Fetch RFC3339.utc _ _ _ _ _ _ (Sim.ext ["busybox"]) (@PullChecker RFC3339.utc None)
       "busybox" (Sim.daemon_mode PullWithInterval)
       (Sim.world (Sim.process (Sim.files (File (Json Sim.busybox_ledger)) Sim.read_only)
                     (Sim.t_2024 + 2 * Sim.hour)) []))
  = returned
      (@Fetch RFC3339.utc _ _ _ _ _ _ (Sim.ext ["busybox"])
         (quiet (@PullChecker RFC3339.utc None))
         "busybox" (Sim.daemon_mode PullWithInterval)
         (Sim.world (Sim.process (Sim.files (File (Json Sim.busybox_ledger)) Sim.read_only)
                       (Sim.t_2024 + 2 * Sim.hour)) []))
  /\ exists w' l,
       @Fetch RFC3339.utc _ _ _ _ _ _ (Sim.ext ["busybox"]) (@PullChecker RFC3339.utc None)
         "busybox" (Sim.daemon_mode PullWithInterval)
         (Sim.world (Sim.process (Sim.files (File (Json Sim.busybox_ledger)) Sim.read_only)
                       (Sim.t_2024 + 2 * Sim.hour)) [])
       = Ret (Err (ErrExt "read-only file system" false), w', l)
       /\ In (Warnf ("Failed to prune images, "
                     +:+ "failed to write updated image.json: read-only file system")) l.
Proof.
  destruct (@Fetch_ledger_failures RFC3339.utc _ _ _ _ _ _
              (Sim.ext ["busybox"]) (@PullChecker RFC3339.utc None) "busybox"
              (Sim.daemon_mode PullWithInterval)
              (Sim.world (Sim.process
                            (Sim.files (File (Json Sim.busybox_ledger)) Sim.read_only)
                            (Sim.t_2024 + 2 * Sim.hour)) []))
    as [Hquiet Hpath].
  split; [exact Hquiet|].
  edestruct (Hpath "busybox") as [_ Hdue];
    [reflexivity | reflexivity | reflexivity | reflexivity
    | vm_compute; reflexivity |].
  edestruct Hdue as [Hwarn Hrecord]; [reflexivity | vm_compute; reflexivity |].
  edestruct Hrecord as (w' & l & Hrun);
    [vm_compute; reflexivity | vm_compute; reflexivity |].
  exists w', l. split; [exact Hrun|].
  eapply (Hwarn _ _ _ _ eq_refl Hrun).
Defined.

(** * Further properties *)

(** ** The ledger file *)

(** X1. On a usable home without ledger file, with or without the [.pack]
    directory, [readImageJSON] creates the file with the minimum document
    in one write and returns that document: no pulling interval, a pruning
    interval of seven days, no prune on record, no image.  A second read
    returns the same document and writes and logs nothing. *)
Theorem readImageJSON_bootstrap (st : State) (home : string) :
  usable (fs st) home ->
  file_missing (fs st) = true ->
  exists st' l,
    readImageJSON st = Ret (Ok (Sim.ledger "" "7d" "" []), st', l)
    /\ fs_disk (fs st') = File (Json (Sim.ledger "" "7d" "" []))
    /\ fs_writes (fs st') = S (fs_writes (fs st))
    /\ l <> []
    /\ readImageJSON st' = Ret (Ok (Sim.ledger "" "7d" "" []), st', []).
Proof.
  destruct st as [iv ip [hm disk mk wr rd n] tk rds].
  intros (Hhome & Hmk & Hwr & Hrd) Hmissing. simpl in *. subst hm mk wr rd.
  unfold readImageJSON. run_fs.
  destruct disk as [| |c]; try discriminate;
    repeat (first [rewrite String.eqb_refl | progress simpl]);
    eexists _, _; (split; [reflexivity|]); simpl; repeat split;
    try discriminate;
    repeat (first [rewrite String.eqb_refl | progress simpl]); reflexivity.
Qed.

(** The theorem on a home without the [.pack] directory. *)
Lemma readImageJSON_bootstrap_witness :
  exists st' l,
    readImageJSON (Sim.process (Sim.files NoDir None) 0)
    = Ret (Ok (Sim.ledger "" "7d" "" []), st', l)
    /\ fs_disk (fs st') = File (Json (Sim.ledger "" "7d" "" []))
    /\ fs_writes (fs st') = 1%nat
    /\ l <> []
    /\ readImageJSON st' = Ret (Ok (Sim.ledger "" "7d" "" []), st', []).
Proof.
  apply (readImageJSON_bootstrap (Sim.process (Sim.files NoDir None) 0) "/home/pack").
  - repeat split.
  - reflexivity.
Defined.


(** X2. [readImageJSON] never changes a ledger file that is there: whether
    the file reads, cannot be read or does not decode, and whether or not
    the home directory is known, the call returns with the file system as
    it was and without a log line. *)
Theorem readImageJSON_keeps_file (st : State) (data : Content) :
  fs_disk (fs st) = File data ->
  exists r st',
    readImageJSON st = Ret (r, st', []) /\ fs st' = fs st
    /\ (forall doc, r = Ok doc -> data = Json doc).
Proof.
  destruct st as [iv ip [hm disk mk wr rd n] tk rds]. simpl. intros ->.
  unfold readImageJSON. run_fs.
  destruct hm as [home|e]; simpl.
  2:{ eexists _, _. repeat split. discriminate. }
  rewrite String.eqb_refl. simpl.
  destruct rd as [e|]; simpl.
  { eexists _, _. repeat split. discriminate. }
  destruct data as [doc|raw]; simpl; eexists _, _; repeat split;
    try discriminate.
  intros doc' [= ->]. reflexivity.
Qed.

(** The theorem on a file that is not valid JSON. *)
Lemma readImageJSON_keeps_file_witness :
  exists r st',
    readImageJSON (Sim.process (Sim.files (File (Malformed "{")) None) 0)
    = Ret (r, st', [])
    /\ fs st' = Sim.files (File (Malformed "{")) None
    /\ (forall doc, r = Ok doc -> Malformed "{" = Json doc).
Proof.
  apply (readImageJSON_keeps_file
           (Sim.process (Sim.files (File (Malformed "{")) None) 0)).
  reflexivity.
Defined.

(** Recording a pull on a ledger that reads and can be written. *)
Lemma UpdateImagePullRecord_run (imageID timestamp : string) (st st1 : State)
    (l : list LogLine) (doc : ImageJSON) :
  readImageJSON st = Ret (Ok doc, st1, l) ->
  fs_write (fs st) = None ->
  UpdateImagePullRecord imageID timestamp st
  = Ret (None,
         {| interval := interval st1; imagePath := imagePath st1;
            fs := with_disk (fs st1) (File (Json (with_record doc imageID timestamp)))
                    (S (fs_writes (fs st1)));
            ticks := ticks st1; reads := reads st1 |}, l).
Proof.
  intros Hread Hwrite.
  destruct (readImageJSON_inv _ _ _ _ Hread)
    as (home & Hhome & Hpath & Hdisk & _ & _ & Hwr & _).
  rewrite Hwrite in Hwr.
  unfold UpdateImagePullRecord, ReadImageJSON, WriteFile, bind.
  rewrite Hread. unfold get_state, with_fs, json_MarshalIndent.
  rewrite Hpath, (os_WriteFile_ok (fs st1) home (Json doc)) by assumption.
  now rewrite !app_nil_r.
Qed.



Section RecordThenCheck.

Context `{TimeLib}.

(** The interval check on a ledger file that is there and reads. *)
Lemma CheckImagePullInterval_on_file (imageID timestamp : string) (st : State)
    (home : string) (doc : ImageJSON) (recorded pullingInterval : Z) :
  fs_home (fs st) = Ok home -> fs_disk (fs st) = File (Json doc) ->
  fs_read (fs st) = None ->
  ImageIDtoTIME (Image doc) !! imageID = Some timestamp ->
  time_Parse timestamp = Ok recorded ->
  parseDurationString (PullingInterval (Interval doc)) = Ret (Ok pullingInterval) ->
  int_min < pullingInterval ->
  CheckImagePullInterval imageID st
  = Ret ((bool_decide (pullingInterval < ticks st (reads st) - recorded), None),
         tick (located st home), []).
Proof.
  intros Hhome Hdisk Hrd Hsome Hparse Hdur Hmin.
  pose proof (parseDurationString_range _ _ Hdur) as Hrange.
  unfold CheckImagePullInterval, ReadImageJSON, bind.
  rewrite (readImageJSON_file st home doc) by assumption.
  rewrite Hsome, Hparse, Hdur. simpl. do 4 f_equal.
  unfold Time_Before, Time_Add. rewrite Duration_neg_opp by lia.
  destruct (recorded <? ticks st (reads st) + - pullingInterval) eqn:Hlt; symmetry.
  - apply Z.ltb_lt in Hlt. apply bool_decide_eq_true_2. lia.
  - apply Z.ltb_ge in Hlt. apply bool_decide_eq_false_2. lia.
Qed.


End RecordThenCheck.


(** ** Policy texts and the ledger *)

Lemma nameMap_interval (spec : string) : nameMap !! ("interval=" +:+ spec) = None.
Proof.
  destruct (nameMap !! ("interval=" +:+ spec)) as [p|] eqn:Hname; [|reflexivity].
  apply nameMap_Some in Hname. simpl in Hname.
  destruct Hname as [Heq|[Heq|[Heq|[Heq|[]]]]]; discriminate Heq.
Qed.

Lemma updateImageJSONDuration_run (intervalStr : string) (st st1 : State)
    (l : list LogLine) (doc : ImageJSON) :
  readImageJSON st = Ret (Ok doc, st1, l) ->
  fs_write (fs st) = None ->
  updateImageJSONDuration intervalStr st
  = Ret (None,
         {| interval := interval st1; imagePath := imagePath st1;
            fs := with_disk (fs st1) (File (Json (with_pulling doc intervalStr)))
                    (S (fs_writes (fs st1)));
            ticks := ticks st1; reads := reads st1 |}, l).
Proof.
  intros Hread Hwrite.
  destruct (readImageJSON_inv _ _ _ _ Hread)
    as (home & Hhome & Hpath & Hdisk & _ & _ & Hwr & _).
  rewrite Hwrite in Hwr.
  unfold updateImageJSONDuration, bind.
  rewrite Hread. unfold get_state, with_fs, json_MarshalIndent.
  rewrite Hpath, (os_WriteFile_ok (fs st1) home (Json doc)) by assumption.
  now rewrite !app_nil_r.
Qed.

(** X5. An accepted interval policy is persisted: on a ledger that reads
    and can be written, [ParsePullPolicy] on [interval=] followed by a text
    of the grammar returns [PullWithInterval], and the ledger then reads as
    the document before with that text as its pulling interval, the pruning
    settings and every image entry as they were. *)
Theorem ParsePullPolicy_interval_persisted (spec : string) (st st1 : State)
    (l : list LogLine) (doc : ImageJSON) :
  MatchString intervalRegex spec = true ->
  readImageJSON st = Ret (Ok doc, st1, l) ->
  fs_write (fs st) = None ->
  exists st',
    ParsePullPolicy ("interval=" +:+ spec) st = Ret (Ok PullWithInterval, st', l)
    /\ readImageJSON st' = Ret (Ok (with_pulling doc spec), st', [])
    /\ PullingInterval (Interval (with_pulling doc spec)) = spec
    /\ Image (with_pulling doc spec) = Image doc.
Proof.
  intros Hre Hread Hwrite.
  set (st0 := {| interval := "interval=" +:+ spec; imagePath := imagePath st;
                 fs := fs st; ticks := ticks st; reads := reads st |}).
  assert (Hread0 : exists st2, readImageJSON st0 = Ret (Ok doc, st2, l)
                               /\ fs st2 = fs st1).
  { revert Hread. destruct st as [iv ip [hm disk mk wr rd n] tk rds].
    unfold st0, readImageJSON. run_fs.
    destruct hm as [home|e]; simpl; [|discriminate].
    destruct disk as [| |[doc'|raw]]; simpl;
      repeat first
        [ rewrite String.eqb_refl; simpl
        | match goal with
          | |- context [match ?o with Some _ => _ | None => _ end] =>
              is_var o; destruct o; simpl
          end ];
      try discriminate;
      intros [= <- <- <-]; eexists; split; reflexivity. }
  destruct Hread0 as (st2 & Hread0 & Hfs).
  pose proof (updateImageJSONDuration_run spec st0 st2 l doc Hread0 Hwrite) as Hrun.
  destruct (readImageJSON_inv _ _ _ _ Hread0)
    as (home & Hhome & Hpath & Hdisk & Hrd & _).
  eexists. split.
  { unfold ParsePullPolicy. rewrite nameMap_interval.
    change (String.prefix "interval=" ("interval=" +:+ spec)) with (String.prefix "" spec).
    replace (String.prefix "" spec) with true by (now destruct spec).
    change (string_drop 9 ("interval=" +:+ spec)) with spec.
    rewrite Hre. unfold bind, set_interval. cbn [negb]. fold st0.
    rewrite Hrun. unfold ret. rewrite app_nil_r. simpl. reflexivity. }
  split; [|split; reflexivity].
  rewrite (readImageJSON_file _ home (with_pulling doc spec));
    try assumption; try reflexivity.
  simpl. rewrite <- Hpath. reflexivity.
Qed.

(** The theorem on [interval=2d12h] and the ledger of busybox. *)
Lemma ParsePullPolicy_interval_persisted_witness :
  exists st',
    ParsePullPolicy ("interval=" +:+ "2d12h")
      (Sim.process (Sim.files (File (Json Sim.busybox_ledger)) None) 0)
    = Ret (Ok PullWithInterval, st', [])
    /\ readImageJSON st' = Ret (Ok (with_pulling Sim.busybox_ledger "2d12h"), st', [])
    /\ PullingInterval (Interval (with_pulling Sim.busybox_ledger "2d12h")) = "2d12h"
    /\ Image (with_pulling Sim.busybox_ledger "2d12h") = Image Sim.busybox_ledger.
Proof.
  eapply (ParsePullPolicy_interval_persisted "2d12h"
            (Sim.process (Sim.files (File (Json Sim.busybox_ledger)) None) 0)).
  - reflexivity.
  - reflexivity.
  - reflexivity.
Defined.

Lemma string_length_cons_ne (s t : string) :
  String.length s <> String.length t -> s <> t.
Proof. intros Hlen ->. now apply Hlen. Qed.

(** X6. Every text that starts with [interval=] sets the package variable
    [interval] to the whole text, whether the rest is in the grammar or not
    and whatever the state of the ledger; the result is [PullWithInterval]
    exactly when the rest is in the grammar, a failure of the ledger update
    being dropped.  [String] of [PullWithInterval] then renders [interval=]
    before the whole text, never the text that was parsed. *)
Theorem ParsePullPolicy_interval_variable (spec : string) (st : State) :
  exists st' l,
    ParsePullPolicy ("interval=" +:+ spec) st
    = Ret ((if MatchString intervalRegex spec then Ok PullWithInterval
            else Err (ErrNew ("invalid interval format: " +:+ spec))), st', l)
    /\ interval st' = "interval=" +:+ spec
    /\ String_ PullWithInterval st' = "interval=" +:+ ("interval=" +:+ spec)
    /\ String_ PullWithInterval st' <> "interval=" +:+ spec.
Proof.
  unfold ParsePullPolicy. rewrite nameMap_interval.
  change (String.prefix "interval=" ("interval=" +:+ spec)) with (String.prefix "" spec).
  replace (String.prefix "" spec) with true by (now destruct spec).
  change (string_drop 9 ("interval=" +:+ spec)) with spec.
  unfold bind, set_interval.
  assert (Hne : forall st', interval st' = "interval=" +:+ spec ->
            String_ PullWithInterval st' <> "interval=" +:+ spec).
  { intros st' Hiv. simpl. rewrite Hiv. apply string_length_cons_ne.
    rewrite !string_length_app. simpl. lia. }
  destruct (MatchString intervalRegex spec); cbn [negb].
  - destruct (updateImageJSONDuration_returns spec
                {| interval := "interval=" +:+ spec; imagePath := imagePath st;
                   fs := fs st; ticks := ticks st; reads := reads st |})
      as (e & st' & l & -> & Hiv).
    simpl in Hiv. eexists _, _. split; [reflexivity|].
    split; [exact Hiv|]. split; [simpl; now rewrite Hiv | now apply Hne].
  - eexists _, _. split; [reflexivity|].
    split; [reflexivity|]. split; [reflexivity | now apply Hne].
Qed.

(** X7. [ParsePullPolicy] touches the ledger only for an accepted interval
    policy: it always returns, and unless it returns [PullWithInterval] the
    file system, [imagePath] and the clock are as they were and nothing is
    logged; so a literal or a rejected text never creates the ledger. *)
Theorem ParsePullPolicy_keeps_files (policy : string) (st : State) :
  exists r st' l,
    ParsePullPolicy policy st = Ret (r, st', l)
    /\ (r = Ok PullWithInterval
        \/ (fs st' = fs st /\ imagePath st' = imagePath st /\ l = []
            /\ ticks st' = ticks st /\ reads st' = reads st)).
Proof.
  unfold ParsePullPolicy.
  destruct (nameMap !! policy) as [val|].
  { eexists _, _, _. split; [reflexivity|]. right. auto. }
  destruct (String.prefix "interval=" policy).
  - unfold bind, set_interval.
    destruct (MatchString intervalRegex (string_drop 9 policy)); cbn [negb].
    + destruct (updateImageJSONDuration_returns (string_drop 9 policy)
                  {| interval := policy; imagePath := imagePath st;
                     fs := fs st; ticks := ticks st; reads := reads st |})
        as (e & st2 & l2 & -> & _).
      eexists _, _, _. split; [reflexivity|]. left. reflexivity.
    + eexists _, _, _. split; [reflexivity|]. right. auto.
  - eexists _, _, _. split; [reflexivity|]. right. auto.
Qed.

(** ** Pruning, further *)

Section PruneFurther.

Context `{TimeLib}.

Lemma existsb_perm {A : Type} (f : A -> bool) (l l' : list A) :
  Permutation l l' -> existsb f l = existsb f l'.
Proof.
  induction 1 as [|x l l' _ IH|x y l|l l' l'' _ IH1 _ IH2]; simpl.
  - reflexivity.
  - now rewrite IH.
  - now destruct (f x), (f y).
  - now rewrite IH1.
Qed.

(** X8. The order in which the range loop of [PruneOldImages] meets the
    entries does not matter: run over the entries of a map in any order,
    with every timestamp readable, the loop ends in the same map, the one
    without exactly the entries older than the threshold. *)
Theorem pruneLoop_any_order (entries : list (string * string))
    (images : gmap string string) (threshold : Z) :
  Permutation entries (map_to_list images) ->
  well_stamped images ->
  exists images',
    pruneLoop entries images threshold = Ok images'
    /\ pruneLoop (map_to_list images) images threshold = Ok images'
    /\ forall imageID,
         images' !! imageID
         = match images !! imageID with
           | Some timestamp =>
               if older threshold timestamp then None else Some timestamp
           | None => None
           end.
Proof.
  intros Hperm Hwf.
  destruct (pruneLoop_map images threshold Hwf) as (images' & Hrun & Hlook).
  destruct (pruneLoop_lookup entries images threshold) as (images'' & Hrun' & Hlook').
  { intros k v Hin. apply (Hwf k v).
    apply elem_of_map_to_list. rewrite <- Hperm. now apply list_elem_of_In. }
  assert (Heq : images'' = images').
  { apply map_eq. intros imageID. rewrite Hlook', Hlook.
    rewrite (existsb_perm _ _ _ Hperm).
    destruct (pruneLoop_lookup (map_to_list images) images threshold)
      as (images3 & Hrun3 & Hlook3).
    { intros k v Hin. apply list_elem_of_In, elem_of_map_to_list in Hin.
      exact (Hwf k v Hin). }
    rewrite Hrun in Hrun3. injection Hrun3 as <-.
    rewrite <- Hlook3. apply Hlook. }
  subst images''. exists images'. auto.
Qed.

Lemma pruneLoop_fails (entries : list (string * string))
    (images : gmap string string) (threshold : Z) (k v : string) (e : error) :
  In (k, v) entries -> time_Parse v = Err e ->
  exists err, pruneLoop entries images threshold = Err err.
Proof.
  revert images. induction entries as [|[k0 v0] rest IH]; intros images Hin Hbad.
  - destruct Hin.
  - cbn [pruneLoop]. destruct (time_Parse v0) as [t0|e0] eqn:Hv0; [|eauto].
    destruct Hin as [[= -> ->]|Hin]; [congruence|].
    destruct (Time_Before t0 threshold); now apply IH.
Qed.

(** X9. A prune that cannot read a timestamp persists nothing: when a
    prune is due and some entry of the ledger has a timestamp that
    [time.Parse] rejects, [PruneOldImages] returns an error and the file
    system is as it was; the entries the loop had dropped before it met the
    bad one stay in the file. *)
Theorem PruneOldImages_unreadable_timestamp (st st1 : State) (l : list LogLine)
    (doc : ImageJSON) (pruningInterval : Z) (k : nat)
    (imageID timestamp : string) (e : error) :
  readImageJSON st = Ret (Ok doc, st1, l) ->
  parseDurationString (PruningIinterval (Interval doc)) = Ret (Ok pruningInterval) ->
  int_min < pruningInterval ->
  prune_due st doc pruningInterval k ->
  ImageIDtoTIME (Image doc) !! imageID = Some timestamp ->
  time_Parse timestamp = Err e ->
  exists err st',
    PruneOldImages st = Ret (Some err, st', l) /\ fs st' = fs st.
Proof.
  intros Hread Hdur Hmin Hdue Hsome Hbad.
  pose proof (parseDurationString_range _ _ Hdur) as Hrange.
  destruct (readImageJSON_inv _ _ _ _ Hread)
    as (home & _ & _ & _ & _ & _ & _ & Htk & Hrd & _ & Hcase).
  assert (Hfs : fs st1 = fs st).
  { destruct Hcase as [[Hfs _]|[_ Hmin']]; [exact Hfs|].
    injection Hmin' as ->. simpl in Hsome. rewrite lookup_empty in Hsome.
    discriminate. }
  destruct (pruneLoop_fails (map_to_list (ImageIDtoTIME (Image doc)))
              (ImageIDtoTIME (Image doc))
              (ticks st k - pruningInterval) imageID timestamp e)
    as [err Hloop]; [|exact Hbad|].
  { apply list_elem_of_In, elem_of_map_to_list. exact Hsome. }
  unfold PruneOldImages, bind. rewrite Hread.
  destruct Hdue as [[Hunset ->]|(lastPrune & Hset & Hparse & Hold & ->)].
  - rewrite Hunset. cbn [String.eqb negb]. unfold ret at 1.
    rewrite Hdur. unfold lift_outcome, time_Now, ret.
    cbn [ticks reads fs imagePath interval].
    unfold Time_Add. rewrite Duration_neg_opp by lia.
    rewrite Htk, Hrd. change (ticks st (reads st) + - pruningInterval)
      with (ticks st (reads st) - pruningInterval).
    rewrite Hloop. eexists _, _. split; [now rewrite !app_nil_r|]. exact Hfs.
  - apply String.eqb_neq in Hset. rewrite Hset. cbn [negb].
    rewrite Hparse, Hdur. unfold lift_outcome, time_Now, ret.
    cbn [ticks reads fs imagePath interval].
    rewrite Time_Sub_ltb by lia. rewrite Htk, Hrd.
    rewrite (proj2 (Z.ltb_ge _ _) Hold).
    cbn [ticks reads fs imagePath interval]. rewrite ?Htk, ?Hrd.
    unfold Time_Add. rewrite Duration_neg_opp by lia.
    change (ticks st (S (reads st)) + - pruningInterval)
      with (ticks st (S (reads st)) - pruningInterval).
    rewrite Hloop. eexists _, _. split; [now rewrite !app_nil_r|]. exact Hfs.
Qed.

End PruneFurther.

(** The theorem on the two entries of the stale ledger, met in the reverse
    of the order of the map. *)
Lemma pruneLoop_any_order_witness :
  exists images',
    @pruneLoop RFC3339.utc
      (rev (map_to_list (ImageIDtoTIME (Image Sim.stale_ledger))))
      (ImageIDtoTIME (Image Sim.stale_ledger)) Sim.t_2024
    = Ok images'
    /\ @pruneLoop RFC3339.utc
         (map_to_list (ImageIDtoTIME (Image Sim.stale_ledger)))
         (ImageIDtoTIME (Image Sim.stale_ledger)) Sim.t_2024
       = Ok images'
    /\ forall imageID,
         images' !! imageID
         = match ImageIDtoTIME (Image Sim.stale_ledger) !! imageID with
           | Some timestamp =>
               if @older RFC3339.utc Sim.t_2024 timestamp then None else Some timestamp
           | None => None
           end.
Proof.
  apply (@pruneLoop_any_order RFC3339.utc
           (rev (map_to_list (ImageIDtoTIME (Image Sim.stale_ledger))))
           (ImageIDtoTIME (Image Sim.stale_ledger)) Sim.t_2024).
  - symmetry. apply Permutation_rev.
  - intros k v Hkv. unfold Sim.stale_ledger, Sim.ledger in Hkv. simpl in Hkv.
    apply lookup_insert_Some in Hkv as [[_ <-]|[_ Hkv]]; [eexists; reflexivity|].
    apply lookup_insert_Some in Hkv as [[_ <-]|[_ Hkv]]; [eexists; reflexivity|].
    rewrite lookup_empty in Hkv. discriminate.
Defined.

(** The theorem on a ledger never pruned whose one entry is stamped
    [yesterday]. *)
Lemma PruneOldImages_unreadable_timestamp_witness :
  exists err st',
    @PruneOldImages RFC3339.utc
      (Sim.process
         (Sim.files (File (Json (Sim.ledger "1d" "7d" "" [("busybox", "yesterday")])))
            None) Sim.t_2024)
    = Ret (Some err, st', [])
    /\ fs st'
       = Sim.files (File (Json (Sim.ledger "1d" "7d" "" [("busybox", "yesterday")])))
           None.
Proof.
  eapply (@PruneOldImages_unreadable_timestamp RFC3339.utc
            (Sim.process
               (Sim.files
                  (File (Json (Sim.ledger "1d" "7d" "" [("busybox", "yesterday")])))
                  None) Sim.t_2024)
            _ [] (Sim.ledger "1d" "7d" "" [("busybox", "yesterday")])
            (7 * Sim.day) 0%nat "busybox" "yesterday").
  - reflexivity.
  - vm_compute. reflexivity.
  - vm_compute. reflexivity.
  - left. split; reflexivity.
  - reflexivity.
  - vm_compute. reflexivity.
Defined.

(** ** The fetcher, further *)

Section FetchFurther.

Context `{TimeLib}.
Context {D C Img V1Image Authenticator Stream : Type}.
Variable ext : @Collaborators D Img V1Image Authenticator Stream.
Variable chk : ImagePullChecker.t C.

Lemma fetchDaemonImage_inv (name : string) (w w' : World D C)
    (r : result Img) (l : list LogLine) :
  fetchDaemonImage ext name w = Ret (r, w', l) ->
  w' = w /\ l = []
  /\ match r with
     | Ok image => local_NewImage ext name (daemon w) = Ok image
                   /\ Found ext image = true
     | Err e =>
         local_NewImage ext name (daemon w) = Err e
         \/ (exists image, local_NewImage ext name (daemon w) = Ok image
                           /\ Found ext image = false /\ IsNotFound e = true)
     end.
Proof.
  unfold fetchDaemonImage, bind, get_daemon, ret.
  destruct (local_NewImage ext name (daemon w)) as [image|e]; simpl.
  - destruct (Found ext image) eqn:Hfound; simpl; intros [= <- <- <-].
    + auto.
    + repeat split. right. exists image. auto.
  - intros [= <- <- <-]. auto.
Qed.

Lemma fetchRemoteImage_inv (name : string) (w w' : World D C)
    (r : result Img) (l : list LogLine) :
  fetchRemoteImage ext name w = Ret (r, w', l) ->
  w' = w /\ l = []
  /\ match r with
     | Ok image => remote_NewImage ext name = Ok image /\ Found ext image = true
     | Err e =>
         remote_NewImage ext name = Err e
         \/ (exists image, remote_NewImage ext name = Ok image
                           /\ Found ext image = false /\ IsNotFound e = true)
     end.
Proof.
  unfold fetchRemoteImage, ret.
  destruct (remote_NewImage ext name) as [image|e]; simpl.
  - destruct (Found ext image) eqn:Hfound; simpl; intros [= <- <- <-].
    + auto.
    + repeat split. right. exists image. auto.
  - intros [= <- <- <-]. auto.
Qed.

Lemma fetchDaemonImage_returns (name : string) (w : World D C) :
  exists r, fetchDaemonImage ext name w = Ret (r, w, []).
Proof.
  unfold fetchDaemonImage, bind, get_daemon, ret.
  destruct (local_NewImage ext name (daemon w)) as [image|e]; simpl; [|eauto].
  destruct (Found ext image); simpl; eauto.
Qed.

Lemma fetchWithoutPull_Ok (name : string) (w w' : World D C) (image : Img)
    (l : list LogLine) :
  fetchWithoutPull ext chk name w = Ret (Ok image, w', l) ->
  Found ext image = true.
Proof.
  unfold fetchWithoutPull. intros Hrun.
  apply bind_Ret in Hrun as (r & w1 & l1 & l2 & Hlookup & Hrun & _).
  apply bind_Ret in Hrun as (u & w2 & l3 & l4 & _ & Hret & _).
  unfold ret in Hret. injection Hret as -> _ _.
  apply fetchDaemonImage_inv in Hlookup as (_ & _ & _ & Hfound). exact Hfound.
Qed.

Lemma pullAndResolve_Ok (name : string) (options : FetchOptions)
    (record : M (World D C) (option error)) (w w' : World D C)
    (image : Img) (l : list LogLine) :
  pullAndResolve ext name options record w = Ret (Ok image, w', l) ->
  Found ext image = true.
Proof.
  unfold pullAndResolve. cbv zeta. intros Hrun.
  apply bind_Ret in Hrun as (u & w0 & l0 & l0' & _ & Hrun & _).
  apply bind_Ret in Hrun as (err & w1 & l1 & l1' & _ & Hrun & _).
  assert (Hresolve : forall tail : M (World D C) (result Img),
            tail = (let! r := fetchDaemonImage ext name in
                    match r with
                    | Err err => ret (Err err)
                    | Ok image =>
                        let! u := record in
                        match u with
                        | Some err => ret (Err err)
                        | None => ret (Ok image)
                        end
                    end) ->
            tail w1 = Ret (Ok image, w', l1') -> Found ext image = true).
  { intros tail -> Htail.
    apply bind_Ret in Htail as (r & w2 & l2 & l2' & Hlookup & Htail & _).
    destruct r as [image0|e1]; [|discriminate].
    apply bind_Ret in Htail as (u' & w3 & l3 & l3' & _ & Hret & _).
    destruct u'; [discriminate|]. unfold ret in Hret. injection Hret as <- _ _.
    apply fetchDaemonImage_inv in Hlookup as (_ & _ & _ & Hfound). exact Hfound. }
  destruct err as [e0|].
  - destruct (negb (IsNotFound e0)); [discriminate|]. now apply (Hresolve _ eq_refl).
  - now apply (Hresolve _ eq_refl).
Qed.

Lemma intervalCase_Some_Ok (name : string) (w w' : World D C) (image : Img)
    (l : list LogLine) :
  intervalCase ext chk name w = Ret (Some (Ok image), w', l) ->
  Found ext image = true.
Proof.
  unfold intervalCase. intros Hrun.
  apply bind_Ret in Hrun as ([pull err] & w1 & l1 & l2 & _ & Hrun & _).
  apply bind_Ret in Hrun as (u & w2 & l3 & l4 & _ & Hrun & _).
  destruct (negb pull).
  - apply bind_Ret in Hrun as (r & w3 & l5 & l6 & Hlookup & Hret & _).
    unfold ret in Hret. injection Hret as -> _ _.
    eapply fetchWithoutPull_Ok, Hlookup.
  - apply bind_Ret in Hrun as (perr & w3 & l5 & l6 & _ & Hrun & _).
    apply bind_Ret in Hrun as (u' & w4 & l7 & l8 & _ & Hrun & _). discriminate.
Qed.

(** X10. Outside layout mode [Fetch] hands out only images that exist: an
    image it returns without error, from the daemon or from the registry,
    under any policy and by either revision of [Fetch], has [Found()]
    true. *)
Theorem Fetch_returns_found (name : string) (options : FetchOptions)
    (w w' : World D C) (image : Img) (l : list LogLine) :
  layout_set (LayoutOption_ options) = false ->
  (Fetch ext chk name options w = Ret (Ok image, w', l)
   \/ Legacy.Fetch ext name options w = Ret (Ok image, w', l)) ->
  Found ext image = true.
Proof.
  intros Hlayout [Hrun|Hrun].
  - unfold Fetch in Hrun.
    destruct (TranslateRegistry ext name) as [name'|e]; [|discriminate].
    rewrite Hlayout in Hrun.
    destruct (Daemon options); cbn [negb] in Hrun.
    2:{ apply fetchRemoteImage_inv in Hrun as (_ & _ & _ & Hfound). exact Hfound. }
    apply bind_Ret in Hrun as (returned & w1 & l1 & l2 & Hswitch & Hrun & _).
    destruct returned as [r|].
    + unfold ret in Hrun. injection Hrun as -> _ _.
      destruct (PullPolicy_ options); try discriminate Hswitch.
      * apply bind_Ret in Hswitch as (r & w2 & l3 & l4 & Hlookup & Hret & _).
        unfold ret in Hret. injection Hret as -> _ _.
        apply fetchDaemonImage_inv in Hlookup as (_ & _ & _ & Hfound). exact Hfound.
      * apply bind_Ret in Hswitch as (r & w2 & l3 & l4 & Hlookup & Hret & _).
        destruct r as [img|e]; [|destruct (negb (IsNotFound e)); discriminate].
        unfold ret in Hret. injection Hret as -> _ _.
        apply fetchDaemonImage_inv in Hlookup as (_ & _ & _ & Hfound). exact Hfound.
      * apply (intervalCase_Some_Ok name' w w1 image l1 Hswitch).
      * apply (intervalCase_Some_Ok name' w w1 image l1 Hswitch).
      * apply (intervalCase_Some_Ok name' w w1 image l1 Hswitch).
      * apply (intervalCase_Some_Ok name' w w1 image l1 Hswitch).
    + eapply pullAndResolve_Ok, Hrun.
  - unfold Legacy.Fetch in Hrun.
    destruct (TranslateRegistry ext name) as [name'|e]; [|discriminate].
    rewrite Hlayout in Hrun.
    destruct (Daemon options); cbn [negb] in Hrun.
    2:{ apply fetchRemoteImage_inv in Hrun as (_ & _ & _ & Hfound). exact Hfound. }
    apply bind_Ret in Hrun as (returned & w1 & l1 & l2 & Hswitch & Hrun & _).
    destruct returned as [r|]; [|eapply pullAndResolve_Ok, Hrun].
    unfold ret in Hrun. injection Hrun as -> _ _.
    destruct (PullPolicy_ options); try discriminate Hswitch.
    + apply bind_Ret in Hswitch as (r & w2 & l3 & l4 & Hlookup & Hret & _).
      unfold ret in Hret. injection Hret as -> _ _.
      apply fetchDaemonImage_inv in Hlookup as (_ & _ & _ & Hfound). exact Hfound.
    + apply bind_Ret in Hswitch as (r & w2 & l3 & l4 & Hlookup & Hret & _).
      destruct r as [img|e]; [|destruct (negb (IsNotFound e)); discriminate].
      unfold ret in Hret. injection Hret as -> _ _.
      apply fetchDaemonImage_inv in Hlookup as (_ & _ & _ & Hfound). exact Hfound.
    + apply bind_Ret in Hswitch as ([pull err] & w2 & l3 & l4 & _ & Hrest & _).
      destruct err as [e|]; [discriminate|].
      apply bind_Ret in Hrest as (r & w3 & l5 & l6 & _ & Hrest & _).
      assert (Hprune : forall (c : M (World D C) (option (result Img))),
                c = (let! err := in_proc PruneOldImages in
                     let! _ :=
                       (match err with
                        | Some e =>
                            log (Warnf ("Failed to prune images that are older than 7 days, "
                                        +:+ Error e))
                        | None => ret tt
                        end) in
                     ret None) ->
                c w3 = Ret (Some (Ok image), w1, l6) -> False).
      { intros c -> Hc.
        apply bind_Ret in Hc as (perr & w4 & l7 & l8 & _ & Hc & _).
        apply bind_Ret in Hc as (u & w5 & l9 & l10 & _ & Hc & _). discriminate. }
      destruct r as [img|e].
      * exfalso. now apply (Hprune _ eq_refl).
      * destruct (negb pull && negb (IsNotFound e)); [discriminate|].
        exfalso. now apply (Hprune _ eq_refl).
Qed.

End FetchFurther.

(** The theorem on busybox pulled from the registry under [PullAlways]. *)
Lemma Fetch_returns_found_witness :
  exists w' l,
    @Fetch RFC3339.utc _ _ _ _ _ _ (Sim.ext ["busybox"]) (@PullChecker RFC3339.utc None)
      "busybox" (Sim.daemon_mode PullAlways)
      (Sim.world (Sim.process (Sim.files (File (Json Sim.busybox_ledger)) None)
                    Sim.t_2024) [])
    = Ret (Ok ("busybox", true), w', l)
    /\ Found (Sim.ext ["busybox"]) ("busybox", true) = true.
Proof.
  eexists _, _.
  assert (Hrun :
    @Fetch RFC3339.utc _ _ _ _ _ _ (Sim.ext ["busybox"]) (@PullChecker RFC3339.utc None)
      "busybox" (Sim.daemon_mode PullAlways)
      (Sim.world (Sim.process (Sim.files (File (Json Sim.busybox_ledger)) None)
                    Sim.t_2024) [])
    = Ret (Ok ("busybox", true),
           Sim.world (Sim.process (Sim.files (File (Json Sim.busybox_ledger)) None)
                        Sim.t_2024) ["busybox"],
           [Debugf "Pulling image 'busybox'"]))
    by (vm_compute; reflexivity).
  split; [exact Hrun|].
  exact (@Fetch_returns_found RFC3339.utc _ _ _ _ _ _ (Sim.ext ["busybox"])
           (@PullChecker RFC3339.utc None) "busybox" (Sim.daemon_mode PullAlways)
           _ _ _ _ eq_refl (or_introl Hrun)).
Defined.

Section FetchModes.

Context `{TimeLib}.
Context {D C Img V1Image Authenticator Stream : Type}.
Variable ext : @Collaborators D Img V1Image Authenticator Stream.
Variable chk : ImagePullChecker.t C.

(** X11. Under [PullNever] nothing is pulled: in daemon mode [Fetch]
    returns what the daemon lookup returns, the image when the daemon has
    it and otherwise the lookup's error, and leaves the daemon, the ledger
    and the clock as they were, without a log line.  Both revisions of
    [Fetch] do so. *)
Theorem Fetch_never (name name' : string) (options : FetchOptions) (w : World D C) :
  TranslateRegistry ext name = Ok name' ->
  layout_set (LayoutOption_ options) = false ->
  Daemon options = true ->
  PullPolicy_ options = PullNever ->
  exists r,
    Fetch ext chk name options w = Ret (r, w, [])
    /\ Legacy.Fetch ext name options w = Ret (r, w, [])
    /\ fetchDaemonImage ext name' w = Ret (r, w, [])
    /\ (forall e, r = Err e ->
          local_NewImage ext name' (daemon w) = Err e \/ IsNotFound e = true).
Proof.
  intros Htr Hlayout Hdaemon Hpol.
  destruct (fetchDaemonImage_returns ext name' w) as [r Hlookup].
  exists r. unfold Fetch, Legacy.Fetch.
  rewrite Htr, Hlayout, Hdaemon, Hpol. cbn [negb]. unfold bind, ret.
  rewrite Hlookup. repeat split.
  intros e ->. apply fetchDaemonImage_inv in Hlookup as (_ & _ & Hcase).
  destruct Hcase as [Herr|(image & _ & _ & Hnf)]; auto.
Qed.

(** X12. Under [PullIfNotPresent], in daemon mode: an image the daemon has
    is returned as it is, and a lookup that fails for another reason than
    NotFound returns its error; in both cases nothing is pulled and the
    world is as it was.  When the daemon lacks the image, [Fetch] goes on
    as under [PullAlways]. *)
Theorem Fetch_if_not_present (name name' : string) (options : FetchOptions)
    (w : World D C) :
  TranslateRegistry ext name = Ok name' ->
  layout_set (LayoutOption_ options) = false ->
  Daemon options = true ->
  PullPolicy_ options = PullIfNotPresent ->
  exists r,
    fetchDaemonImage ext name' w = Ret (r, w, [])
    /\ match r with
       | Ok image => Fetch ext chk name options w = Ret (Ok image, w, [])
       | Err e =>
           if IsNotFound e then
             Fetch ext chk name options w
             = Fetch ext chk name
                 {| Daemon := true; Platform := Platform options;
                    PullPolicy_ := PullAlways;
                    LayoutOption_ := LayoutOption_ options |} w
           else Fetch ext chk name options w = Ret (Err e, w, [])
       end.
Proof.
  intros Htr Hlayout Hdaemon Hpol.
  destruct (fetchDaemonImage_returns ext name' w) as [r Hlookup].
  exists r. split; [exact Hlookup|].
  unfold Fetch. cbn [Daemon Platform PullPolicy_ LayoutOption_].
  rewrite Htr, Hlayout, Hdaemon, Hpol. cbn [negb].
  unfold bind, ret. rewrite Hlookup.
  destruct r as [image|e]; [reflexivity|].
  destruct (IsNotFound e); cbn [negb]; [|reflexivity].
  unfold recordPull, intervalPolicy, pullAndResolve.
  cbn [Daemon Platform PullPolicy_ LayoutOption_]. rewrite Hpol.
  reflexivity.
Qed.

(** X13. Layout mode sets policy, daemon and ledger aside: with a layout
    option [Fetch] returns what [fetchLayoutImage] returns, whatever the
    daemon flag, the policy and the checker, and leaves the world as it
    was; the image it returns has been saved without error. *)
Theorem Fetch_layout (name name' : string) (options : FetchOptions) (w : World D C) :
  TranslateRegistry ext name = Ok name' ->
  layout_set (LayoutOption_ options) = true ->
  exists r,
    Fetch ext chk name options w = Ret (r, w, [])
    /\ Legacy.Fetch ext name options w = Ret (r, w, [])
    /\ (forall image, r = Ok image -> Save ext image = None)
    /\ (forall (chk' : ImagePullChecker.t C) (daemon' : bool) (policy' : PullPolicy)
          (platform' : string),
          Fetch ext chk' name
            {| Daemon := daemon'; Platform := platform'; PullPolicy_ := policy';
               LayoutOption_ := LayoutOption_ options |} w
          = Ret (r, w, [])).
Proof.
  intros Htr Hlayout. unfold Fetch, Legacy.Fetch.
  cbn [Daemon Platform PullPolicy_ LayoutOption_].
  rewrite Htr, Hlayout. unfold fetchLayoutImage, ret.
  destruct (remote_NewV1Image ext name') as [v1Image|e]; [|eexists; repeat split; discriminate].
  destruct (if Sparse (LayoutOption_ options)
            then sparse_NewImage ext (Path (LayoutOption_ options)) v1Image
            else layout_NewImage ext (Path (LayoutOption_ options)) v1Image)
    as [image|e]; [|eexists; repeat split; discriminate].
  destruct (Save ext image) as [e|] eqn:Hsave; eexists; repeat split;
    try discriminate.
  intros image' [= <-]. exact Hsave.
Qed.

(** X14. Registry mode: without the daemon flag (and without layout
    option) [Fetch] answers from the registry alone, whatever the policy
    and the checker: the image when the registry has it, an error that is
    [ErrNotFound] when the handle is not found; the daemon is not asked
    and the world is as it was. *)
Theorem Fetch_registry (name name' : string) (options : FetchOptions) (w : World D C) :
  TranslateRegistry ext name = Ok name' ->
  layout_set (LayoutOption_ options) = false ->
  Daemon options = false ->
  exists r,
    Fetch ext chk name options w = Ret (r, w, [])
    /\ Legacy.Fetch ext name options w = Ret (r, w, [])
    /\ match remote_NewImage ext name' with
       | Ok image =>
           if Found ext image then r = Ok image
           else exists e, r = Err e /\ IsNotFound e = true
       | Err e => r = Err e
       end.
Proof.
  intros Htr Hlayout Hdaemon. unfold Fetch, Legacy.Fetch.
  rewrite Htr, Hlayout, Hdaemon. cbn [negb]. unfold fetchRemoteImage, ret.
  destruct (remote_NewImage ext name') as [image|e]; [|eexists; repeat split].
  destruct (Found ext image); simpl; eexists; repeat split.
  eexists. split; reflexivity.
Qed.

(** X15. A pull that does not deliver is not recorded: when the pull or
    the daemon lookup after it fails, the tail of [Fetch] returns that
    error from the same world whatever the record step is, so
    [UpdateImagePullRecord] is not run and the ledger keeps the old
    timestamp. *)
Theorem pullAndResolve_failure_not_recorded (name : string) (options : FetchOptions)
    (record : M (World D C) (option error)) (w w1 : World D C)
    (e : error) (l : list LogLine) :
  pullAndResolve ext name options (ret None) w = Ret (Err e, w1, l) ->
  pullAndResolve ext name options record w = Ret (Err e, w1, l)
  /\ proc w1 = proc w /\ checker w1 = checker w.
Proof.
  intros Hplain. split.
  - revert Hplain. unfold pullAndResolve. cbv zeta. unfold bind, ret.
    destruct (log _ w) as [[[u w0] l0]| |]; try discriminate.
    destruct (pullWithRetry ext name (Platform options) w0) as [[[err w2] l2]| |];
      try discriminate.
    destruct err as [e0|]; [destruct (negb (IsNotFound e0)); [auto|]|];
      (destruct (fetchDaemonImage ext name w2) as [[[[image|e1] w3] l3]| |];
       [intros Hplain; simpl in Hplain; discriminate Hplain|auto..]).
  - destruct (keeps_pullAndResolve ext name options w)
      as (a & w' & l' & Hrun & Hp & Hc).
    rewrite Hrun in Hplain. injection Hplain as _ <- _. auto.
Qed.

(** X16. Under [PullAlways], [PullNever] and [PullIfNotPresent], and in
    layout and registry mode under any policy, the [Fetch] of [fetcher.go]
    returns (it does not panic) and calls no method of the checker: the
    ledger file, the package variables, the clock and the checker's state
    are as they were, and any other checker in its place gives the same
    result, the same world and the same log. *)
Theorem Fetch_frame (name : string) (options : FetchOptions) (w : World D C) :
  intervalPolicy options = false
  \/ layout_set (LayoutOption_ options) = true
  \/ Daemon options = false ->
  exists r w' l,
    Fetch ext chk name options w = Ret (r, w', l)
    /\ proc w' = proc w /\ checker w' = checker w
    /\ forall chk' : ImagePullChecker.t C,
         Fetch ext chk' name options w = Ret (r, w', l).
Proof.
  intros Hmode.
  destruct (Fetch_keeps_ledger ext chk name options Hmode w)
    as (r & w' & l & Hrun & Hproc & Hchecker).
  exists r, w', l. repeat split; try assumption.
  intros chk'. rewrite <- Hrun. unfold Fetch.
  destruct (TranslateRegistry ext name) as [name'|e]; [|reflexivity].
  destruct (layout_set (LayoutOption_ options)) eqn:Hlayout; [reflexivity|].
  destruct (Daemon options) eqn:Hdaemon; cbn [negb]; [|reflexivity].
  destruct Hmode as [Hpol|[Hl|Hd]]; try discriminate.
  unfold recordPull. rewrite Hpol. unfold intervalPolicy in Hpol.
  destruct (PullPolicy_ options); try discriminate Hpol; reflexivity.
Qed.

End FetchModes.

(** The theorem on a daemon that lacks busybox. *)
Lemma Fetch_never_witness :
  exists r,
    @Fetch RFC3339.utc _ _ _ _ _ _ (Sim.ext ["busybox"]) (@PullChecker RFC3339.utc None)
      "busybox" (Sim.daemon_mode PullNever)
      (Sim.world (Sim.process (Sim.files NoDir None) Sim.t_2024) [])
    = Ret (r, Sim.world (Sim.process (Sim.files NoDir None) Sim.t_2024) [], [])
    /\ @Legacy.Fetch RFC3339.utc _ _ _ _ _ _ (Sim.ext ["busybox"])
         "busybox" (Sim.daemon_mode PullNever)
         (Sim.world (Sim.process (Sim.files NoDir None) Sim.t_2024) [])
       = Ret (r, Sim.world (Sim.process (Sim.files NoDir None) Sim.t_2024) [], [])
    /\ fetchDaemonImage (Sim.ext ["busybox"]) "busybox"
         (Sim.world (Sim.process (Sim.files NoDir None) Sim.t_2024) [])
       = Ret (r, Sim.world (Sim.process (Sim.files NoDir None) Sim.t_2024) [], [])
    /\ (forall e, r = Err e ->
          local_NewImage (Sim.ext ["busybox"]) "busybox" [] = Err e
          \/ IsNotFound e = true).
Proof.
  apply (@Fetch_never RFC3339.utc _ _ _ _ _ _ (Sim.ext ["busybox"])
           (@PullChecker RFC3339.utc None) "busybox" "busybox"
           (Sim.daemon_mode PullNever)
           (Sim.world (Sim.process (Sim.files NoDir None) Sim.t_2024) []));
    reflexivity.
Defined.

(** The theorem on a daemon that holds busybox. *)
Lemma Fetch_if_not_present_witness :
  exists r,
    fetchDaemonImage (Sim.ext []) "busybox"
      (Sim.world (Sim.process (Sim.files NoDir None) Sim.t_2024) ["busybox"])
    = Ret (r, Sim.world (Sim.process (Sim.files NoDir None) Sim.t_2024) ["busybox"], [])
    /\ match r with
       | Ok image =>
           @Fetch RFC3339.utc _ _ _ _ _ _ (Sim.ext []) (@PullChecker RFC3339.utc None)
             "busybox" (Sim.daemon_mode PullIfNotPresent)
             (Sim.world (Sim.process (Sim.files NoDir None) Sim.t_2024) ["busybox"])
           = Ret (Ok image,
                  Sim.world (Sim.process (Sim.files NoDir None) Sim.t_2024) ["busybox"],
                  [])
       | Err e =>
           if IsNotFound e then
             @Fetch RFC3339.utc _ _ _ _ _ _ (Sim.ext []) (@PullChecker RFC3339.utc None)
               "busybox" (Sim.daemon_mode PullIfNotPresent)
               (Sim.world (Sim.process (Sim.files NoDir None) Sim.t_2024) ["busybox"])
             = @Fetch RFC3339.utc _ _ _ _ _ _ (Sim.ext []) (@PullChecker RFC3339.utc None)
                 "busybox" (Sim.daemon_mode PullAlways)
                 (Sim.world (Sim.process (Sim.files NoDir None) Sim.t_2024) ["busybox"])
           else
             @Fetch RFC3339.utc _ _ _ _ _ _ (Sim.ext []) (@PullChecker RFC3339.utc None)
               "busybox" (Sim.daemon_mode PullIfNotPresent)
               (Sim.world (Sim.process (Sim.files NoDir None) Sim.t_2024) ["busybox"])
             = Ret (Err e,
                    Sim.world (Sim.process (Sim.files NoDir None) Sim.t_2024) ["busybox"],
                    [])
       end.
Proof.
  apply (@Fetch_if_not_present RFC3339.utc _ _ _ _ _ _ (Sim.ext [])
           (@PullChecker RFC3339.utc None) "busybox" "busybox"
           (Sim.daemon_mode PullIfNotPresent)
           (Sim.world (Sim.process (Sim.files NoDir None) Sim.t_2024) ["busybox"]));
    reflexivity.
Defined.

(** The theorem on a sparse layout under [/tmp/layout], asked for with the
    daemon flag and an interval policy. *)
Lemma Fetch_layout_witness :
  exists r,
    @Fetch RFC3339.utc _ _ _ _ _ _ (Sim.ext []) (@PullChecker RFC3339.utc None)
      "busybox"
      {| Daemon := true; Platform := ""; PullPolicy_ := PullWithInterval;
         LayoutOption_ := {| Path := "/tmp/layout"; Sparse := true |} |}
      (Sim.world (Sim.process (Sim.files NoDir None) Sim.t_2024) [])
    = Ret (r, Sim.world (Sim.process (Sim.files NoDir None) Sim.t_2024) [], [])
    /\ @Legacy.Fetch RFC3339.utc _ _ _ _ _ _ (Sim.ext [])
         "busybox"
         {| Daemon := true; Platform := ""; PullPolicy_ := PullWithInterval;
            LayoutOption_ := {| Path := "/tmp/layout"; Sparse := true |} |}
         (Sim.world (Sim.process (Sim.files NoDir None) Sim.t_2024) [])
       = Ret (r, Sim.world (Sim.process (Sim.files NoDir None) Sim.t_2024) [], [])
    /\ (forall image, r = Ok image -> Save (Sim.ext []) image = None)
    /\ (forall (chk' : ImagePullChecker.t unit) (daemon' : bool) (policy' : PullPolicy)
          (platform' : string),
          @Fetch RFC3339.utc _ _ _ _ _ _ (Sim.ext []) chk' "busybox"
            {| Daemon := daemon'; Platform := platform'; PullPolicy_ := policy';
               LayoutOption_ := {| Path := "/tmp/layout"; Sparse := true |} |}
            (Sim.world (Sim.process (Sim.files NoDir None) Sim.t_2024) [])
          = Ret (r, Sim.world (Sim.process (Sim.files NoDir None) Sim.t_2024) [], [])).
Proof.
  apply (@Fetch_layout RFC3339.utc _ _ _ _ _ _ (Sim.ext [])
           (@PullChecker RFC3339.utc None) "busybox" "busybox"
           {| Daemon := true; Platform := ""; PullPolicy_ := PullWithInterval;
              LayoutOption_ := {| Path := "/tmp/layout"; Sparse := true |} |}
           (Sim.world (Sim.process (Sim.files NoDir None) Sim.t_2024) []));
    reflexivity.
Defined.

(** The theorem on a registry that lacks the image, under [PullNever]. *)
Lemma Fetch_registry_witness :
  exists r,
    @Fetch RFC3339.utc _ _ _ _ _ _ (Sim.ext ["busybox"]) (@PullChecker RFC3339.utc None)
      "alpine"
      {| Daemon := false; Platform := ""; PullPolicy_ := PullNever;
         LayoutOption_ := {| Path := ""; Sparse := false |} |}
      (Sim.world (Sim.process (Sim.files NoDir None) Sim.t_2024) ["alpine"])
    = Ret (r, Sim.world (Sim.process (Sim.files NoDir None) Sim.t_2024) ["alpine"], [])
    /\ @Legacy.Fetch RFC3339.utc _ _ _ _ _ _ (Sim.ext ["busybox"])
         "alpine"
         {| Daemon := false; Platform := ""; PullPolicy_ := PullNever;
            LayoutOption_ := {| Path := ""; Sparse := false |} |}
         (Sim.world (Sim.process (Sim.files NoDir None) Sim.t_2024) ["alpine"])
       = Ret (r, Sim.world (Sim.process (Sim.files NoDir None) Sim.t_2024) ["alpine"], [])
    /\ match remote_NewImage (Sim.ext ["busybox"]) "alpine" with
       | Ok image =>
           if Found (Sim.ext ["busybox"]) image then r = Ok image
           else exists e, r = Err e /\ IsNotFound e = true
       | Err e => r = Err e
       end.
Proof.
  apply (@Fetch_registry RFC3339.utc _ _ _ _ _ _ (Sim.ext ["busybox"])
           (@PullChecker RFC3339.utc None) "alpine" "alpine"
           {| Daemon := false; Platform := ""; PullPolicy_ := PullNever;
              LayoutOption_ := {| Path := ""; Sparse := false |} |}
           (Sim.world (Sim.process (Sim.files NoDir None) Sim.t_2024) ["alpine"]));
    reflexivity.
Defined.

(** The theorem on an image that is in no registry, fetched under an
    interval policy. *)
Lemma pullAndResolve_failure_not_recorded_witness :
  exists e w1 l,
    pullAndResolve (Sim.ext []) "busybox" (Sim.daemon_mode PullWithInterval)
      (@recordPull RFC3339.utc _ _ (@PullChecker RFC3339.utc None) "busybox"
         (Sim.daemon_mode PullWithInterval))
      (Sim.world (Sim.process (Sim.files (File (Json Sim.busybox_ledger)) None)
                    (Sim.t_2024 + 2 * Sim.hour)) [])
    = Ret (Err e, w1, l)
    /\ IsNotFound e = true
    /\ proc w1 = Sim.process (Sim.files (File (Json Sim.busybox_ledger)) None)
                   (Sim.t_2024 + 2 * Sim.hour).
Proof.
  eexists _, _, _.
  edestruct (@pullAndResolve_failure_not_recorded _ _ _ _ _ _ (Sim.ext []) "busybox"
               (Sim.daemon_mode PullWithInterval)
               (@recordPull RFC3339.utc _ _ (@PullChecker RFC3339.utc None) "busybox"
                  (Sim.daemon_mode PullWithInterval))
               (Sim.world (Sim.process (Sim.files (File (Json Sim.busybox_ledger)) None)
                             (Sim.t_2024 + 2 * Sim.hour)) []))
    as (Hrun & Hproc & _).
  - vm_compute. reflexivity.
  - split; [exact Hrun|]. split; [reflexivity | exact Hproc].
Defined.

(** The theorem on busybox pulled under [PullAlways] beside a ledger that
    records it. *)
Lemma Fetch_frame_witness :
  exists r w' l,
    @Fetch RFC3339.utc _ _ _ _ _ _ (Sim.ext ["busybox"]) (@PullChecker RFC3339.utc None)
      "busybox" (Sim.daemon_mode PullAlways)
      (Sim.world (Sim.process (Sim.files (File (Json Sim.busybox_ledger)) None)
                    (Sim.t_2024 + 2 * Sim.hour)) [])
    = Ret (r, w', l)
    /\ proc w' = Sim.process (Sim.files (File (Json Sim.busybox_ledger)) None)
                   (Sim.t_2024 + 2 * Sim.hour)
    /\ checker w' = tt
    /\ forall chk' : ImagePullChecker.t unit,
         @Fetch RFC3339.utc _ _ _ _ _ _ (Sim.ext ["busybox"]) chk'
           "busybox" (Sim.daemon_mode PullAlways)
           (Sim.world (Sim.process (Sim.files (File (Json Sim.busybox_ledger)) None)
                         (Sim.t_2024 + 2 * Sim.hour)) [])
         = Ret (r, w', l).
Proof.
  apply (@Fetch_frame RFC3339.utc _ _ _ _ _ _ (Sim.ext ["busybox"])
           (@PullChecker RFC3339.utc None) "busybox" (Sim.daemon_mode PullAlways)
           (Sim.world (Sim.process (Sim.files (File (Json Sim.busybox_ledger)) None)
                         (Sim.t_2024 + 2 * Sim.hour)) [])).
  left. reflexivity.
Defined.

(** ** The key of the earlier fetcher *)

Lemma split_at_free (s cur : string) :
  at_free s = true -> Legacy.split_at s cur = [cur +:+ s].
Proof.
  revert cur. induction s as [|c s IH]; intros cur Hfree.
  - simpl. now rewrite string_app_nil_r.
  - simpl in Hfree. apply andb_true_iff in Hfree as [Hc Hs].
    apply negb_true_iff in Hc. simpl. rewrite Hc, IH by assumption.
    rewrite string_app_assoc. reflexivity.
Qed.

Lemma split_at_first (s rest cur : string) :
  at_free s = true ->
  Legacy.split_at (s +:+ String "@" rest) cur
  = (cur +:+ s) :: Legacy.split_at rest "".
Proof.
  revert cur. induction s as [|c s IH]; intros cur Hfree.
  - rewrite string_app_nil_l, string_app_nil_r. reflexivity.
  - simpl in Hfree. apply andb_true_iff in Hfree as [Hc Hs].
    apply negb_true_iff in Hc. rewrite string_app_cons. simpl.
    rewrite Hc, IH by assumption. rewrite string_app_assoc. reflexivity.
Qed.

(** X17. The key under which the earlier [Fetch] looks up and records an
    image: the whole name when it holds no [@], and for a name
    [repo@digest] the digest alone, the text between the first [@] and the
    next one if there is one.  ([fetcher.go] uses the whole name.) *)
Theorem imageID_of_digest (repo digest : string) :
  at_free repo = true -> at_free digest = true ->
  Legacy.imageID_of repo = repo
  /\ Legacy.imageID_of (repo +:+ String "@" digest) = digest
  /\ forall rest : string,
       Legacy.imageID_of (repo +:+ String "@" (digest +:+ String "@" rest)) = digest.
Proof.
  intros Hrepo Hdigest. unfold Legacy.imageID_of. repeat split.
  - rewrite split_at_free by assumption. now rewrite string_app_nil_l.
  - rewrite split_at_first, split_at_free by assumption.
    now rewrite string_app_nil_l.
  - intros rest. rewrite !split_at_first by assumption.
    now rewrite string_app_nil_l.
Qed.

(** The theorem on an image named by digest. *)
Lemma imageID_of_digest_witness :
  Legacy.imageID_of "library/busybox" = "library/busybox"
  /\ Legacy.imageID_of ("library/busybox" +:+ String "@" "sha256:4be429a5") = "sha256:4be429a5"
  /\ forall rest : string,
       Legacy.imageID_of
         ("library/busybox" +:+ String "@" ("sha256:4be429a5" +:+ String "@" rest))
       = "sha256:4be429a5".
Proof.
  apply (imageID_of_digest "library/busybox" "sha256:4be429a5"); reflexivity.
Defined.

(** ** The interval grammar and the duration parser *)

Lemma string_app_eq_nil (s1 s2 : string) : s1 +:+ s2 = "" -> s1 = "" /\ s2 = "".
Proof.
  destruct s1 as [|c s1]; [rewrite string_app_nil_l; auto|].
  rewrite string_app_cons. discriminate.
Qed.

Lemma nullable_matches (r : regex) : nullable r = true <-> matches r "".
Proof.
  split.
  - induction r as [| |p|r1 IH1 r2 IH2|r1 IH1 r2 IH2|r IH]; simpl; intros Hn;
      try discriminate.
    + constructor.
    + apply andb_true_iff in Hn as [H1 H2].
      exact (MCat r1 r2 "" "" (IH1 H1) (IH2 H2)).
    + apply orb_true_iff in Hn as [H1|H2];
        [apply MAltL; auto | apply MAltR; auto].
    + constructor.
  - intros Hm. remember "" as s eqn:Hs.
    induction Hm as [|p c Hp|r1 r2 s1 s2 H1 IH1 H2 IH2|r1 r2 s H1 IH1
                     |r1 r2 s H2 IH2|r|r s1 s2 H1 IH1 H2 IH2]; simpl;
      try reflexivity; try discriminate.
    + apply string_app_eq_nil in Hs as [-> ->]. now rewrite IH1, IH2.
    + now rewrite IH1.
    + rewrite IH2 by assumption. apply orb_true_r.
Qed.

Lemma deriv_matches (c : ascii) (r : regex) (s : string) :
  matches (deriv c r) s <-> matches r (String c s).
Proof.
  split.
  - revert s. induction r as [| |p|r1 IH1 r2 IH2|r1 IH1 r2 IH2|r IH];
      simpl; intros s Hm.
    + inversion Hm.
    + inversion Hm.
    + destruct (p c) eqn:Hp; inversion Hm; subst. now constructor.
    + assert (Hleft : forall s, matches (RCat (deriv c r1) r2) s ->
                                matches (RCat r1 r2) (String c s)).
      { intros s' Hcat. inversion Hcat as [| |? ? s1 s2 H1 H2| | | |]; subst.
        exact (MCat r1 r2 (String c s1) s2 (IH1 _ H1) H2). }
      destruct (nullable r1) eqn:Hn; [|auto].
      inversion Hm as [| | |? ? ? H1|? ? ? H2| |]; subst; [auto|].
      apply nullable_matches in Hn.
      exact (MCat r1 r2 "" (String c s) Hn (IH2 _ H2)).
    + inversion Hm; subst; [apply MAltL|apply MAltR]; auto.
    + inversion Hm as [| |? ? s1 s2 H1 H2| | | |]; subst.
      exact (MStarCons r (String c s1) s2 (IH _ H1) H2).
  - intros Hm. remember (String c s) as cs eqn:Hcs. revert c s Hcs.
    induction Hm as [|p c0 Hp|r1 r2 s1 s2 H1 IH1 H2 IH2|r1 r2 s0 H1 IH1
                     |r1 r2 s0 H2 IH2|r|r s1 s2 H1 IH1 H2 IH2];
      intros c s Hcs; simpl.
    + discriminate.
    + injection Hcs as -> <-. rewrite Hp. constructor.
    + destruct s1 as [|c1 s1].
      * rewrite string_app_nil_l in Hcs. subst s2.
        apply nullable_matches in H1. rewrite H1. apply MAltR. now apply IH2.
      * rewrite string_app_cons in Hcs. injection Hcs as -> <-.
        assert (Hcat : matches (RCat (deriv c r1) r2) (s1 +:+ s2))
          by (constructor; [now apply IH1 | assumption]).
        destruct (nullable r1); [now apply MAltL | assumption].
    + apply MAltL. now apply IH1.
    + apply MAltR. now apply IH2.
    + discriminate.
    + destruct s1 as [|c1 s1].
      * rewrite string_app_nil_l in Hcs. now apply IH2.
      * rewrite string_app_cons in Hcs. injection Hcs as -> <-.
        constructor; [now apply IH1 | assumption].
Qed.

(** The matcher by derivatives decides the language. *)
Lemma MatchString_matches (r : regex) (s : string) :
  MatchString r s = true <-> matches r s.
Proof.
  revert r. induction s as [|c s IH]; intros r; simpl.
  - apply nullable_matches.
  - rewrite IH. apply deriv_matches.
Qed.

Lemma matches_digits_star (s : string) :
  matches (RStar (RClass isDigit)) s <-> all_digits s = true.
Proof.
  split.
  - intros Hm. remember (RStar (RClass isDigit)) as r eqn:Hr.
    induction Hm as [|p c Hp|r1 r2 s1 s2 H1 IH1 H2 IH2|r1 r2 s H1 IH1
                     |r1 r2 s H2 IH2|r|r s1 s2 H1 IH1 H2 IH2];
      try discriminate; [reflexivity|].
    injection Hr as ->. inversion H1; subst. rewrite string_app_cons, string_app_nil_l.
    simpl. rewrite IH2 by reflexivity. now rewrite andb_true_r.
  - induction s as [|c s IH]; simpl; intros Hall; [constructor|].
    apply andb_true_iff in Hall as [Hc Hs].
    exact (MStarCons (RClass isDigit) (String c "") s
             (MClass isDigit c Hc) (IH Hs)).
Qed.

Lemma matches_digits_plus (s : string) :
  matches (RPlus (RClass isDigit)) s <-> s <> "" /\ all_digits s = true.
Proof.
  unfold RPlus. split.
  - intros Hm. inversion Hm as [| |? ? s1 s2 H1 H2| | | |]; subst.
    inversion H1; subst. apply matches_digits_star in H2.
    rewrite string_app_cons, string_app_nil_l. split; [discriminate|].
    simpl. now rewrite H2, andb_true_r.
  - intros [Hne Hall]. destruct s as [|c s]; [congruence|].
    simpl in Hall. apply andb_true_iff in Hall as [Hc Hs].
    exact (MCat (RClass isDigit) (RStar (RClass isDigit)) (String c "") s
             (MClass isDigit c Hc) (proj2 (matches_digits_star s) Hs)).
Qed.

Lemma matches_char (c : ascii) (s : string) :
  matches (RChar c) s <-> s = String c "".
Proof.
  unfold RChar. split.
  - intros Hm. inversion Hm; subst.
    match goal with Heq : Ascii.eqb _ _ = true |- _ => apply Ascii.eqb_eq in Heq end.
    now subst.
  - intros ->. constructor. apply Ascii.eqb_refl.
Qed.

(** One optional group [(\d+u)?] of the grammar. *)
Lemma matches_group (u : ascii) (s : string) :
  matches (ROpt (RCat (RPlus (RClass isDigit)) (RChar u))) s
  <-> s = ""
      \/ exists ds, ds <> "" /\ all_digits ds = true /\ s = ds +:+ String u "".
Proof.
  unfold ROpt. split.
  - intros Hm. inversion Hm as [| | |? ? ? H1|? ? ? H2| |]; subst.
    + inversion H1 as [| |? ? s1 s2 Hd Hu| | | |]; subst.
      apply matches_digits_plus in Hd as [Hne Hall].
      apply matches_char in Hu as ->. right. eauto.
    + inversion H2; subst. now left.
  - intros [->|(ds & Hne & Hall & ->)].
    + apply MAltR. constructor.
    + apply MAltL. constructor.
      * now apply matches_digits_plus.
      * now apply matches_char.
Qed.

Lemma render_app (segs1 segs2 : list segment) :
  render (segs1 ++ segs2)%list = render segs1 +:+ render segs2.
Proof.
  induction segs1 as [|g segs1 IH]; simpl.
  - now rewrite string_app_nil_l.
  - now rewrite IH, string_app_assoc.
Qed.

Lemma shaped_inv (g : segment) :
  shaped g = true ->
  seg_digits g <> "" /\ all_digits (seg_digits g) = true
  /\ exists per, unit_minutes (seg_unit g) = Some per.
Proof.
  unfold shaped. destruct (seg_digits g) as [|c ds]; [discriminate|].
  destruct (unit_minutes (seg_unit g)) as [per|]; [|discriminate].
  intros Hall. repeat split; [discriminate | exact Hall | eauto].
Qed.

(** A group that is there, as a segment. *)
Lemma group_segment (u : ascii) (per : Z) (s : string) :
  unit_minutes u = Some per ->
  matches (ROpt (RCat (RPlus (RClass isDigit)) (RChar u))) s ->
  exists segs,
    s = render segs /\ forallb shaped segs = true
    /\ (segs = [] \/ exists ds, segs = [{| seg_digits := ds; seg_unit := u |}]).
Proof.
  intros Hu Hm. apply matches_group in Hm as [->|(ds & Hne & Hall & ->)].
  - exists []. repeat split. now left.
  - exists [{| seg_digits := ds; seg_unit := u |}]. repeat split.
    + simpl. unfold seg_text. simpl. now rewrite string_app_nil_r.
    + simpl. unfold shaped. simpl. rewrite Hu, Hall.
      destruct ds; [congruence|reflexivity].
    + right. eauto.
Qed.

(** Every text of the grammar is a run of shaped segments, at most one for
    each letter, in the order d, h, m. *)
Lemma intervalRegex_segments (s : string) :
  MatchString intervalRegex s = true ->
  exists segs,
    s = render segs /\ forallb shaped segs = true
    /\ in_order (map seg_unit segs) ["d"; "h"; "m"]%char = true.
Proof.
  intros Hm. apply MatchString_matches in Hm. unfold intervalRegex in Hm.
  inversion Hm as [| |? ? sd shm Hd Hhm| | | |]; subst.
  inversion Hhm as [| |? ? sh sm Hh Hmin| | | |]; subst.
  apply (group_segment "d" (24 * 60)) in Hd as (gd & -> & Hsd & Hd); [|reflexivity].
  apply (group_segment "h" 60) in Hh as (gh & -> & Hsh & Hh); [|reflexivity].
  apply (group_segment "m" 1) in Hmin as (gm & -> & Hsm & Hmin); [|reflexivity].
  exists (gd ++ gh ++ gm)%list. split; [now rewrite !render_app|].
  split; [now rewrite !forallb_app, Hsd, Hsh, Hsm|].
  destruct Hd as [->|[dd ->]], Hh as [->|[dh ->]], Hmin as [->|[dm ->]];
    reflexivity.
Qed.

Lemma segments_group (u : ascii) (g : segment) :
  shaped g = true -> seg_unit g = u ->
  matches (ROpt (RCat (RPlus (RClass isDigit)) (RChar u))) (seg_text g).
Proof.
  intros Hg <-. apply shaped_inv in Hg as (Hne & Hall & _).
  apply matches_group. right. exists (seg_digits g). auto.
Qed.

Lemma group_nil (u : ascii) :
  matches (ROpt (RCat (RPlus (RClass isDigit)) (RChar u))) "".
Proof. apply matches_group. now left. Qed.

(** Conversely every such run of segments is a text of the grammar. *)
Lemma segments_intervalRegex (segs : list segment) :
  forallb shaped segs = true ->
  in_order (map seg_unit segs) ["d"; "h"; "m"]%char = true ->
  MatchString intervalRegex (render segs) = true.
Proof.
  intros Hshaped Horder. apply MatchString_matches. unfold intervalRegex.
  set (grp := fun u => ROpt (RCat (RPlus (RClass isDigit)) (RChar u))).
  assert (Hm : forall segs, forallb shaped segs = true ->
                 in_order (map seg_unit segs) ["m"]%char = true ->
                 matches (grp "m"%char) (render segs)).
  { intros [|g rest] Hs Ho; [apply group_nil|].
    simpl in Hs, Ho. apply andb_true_iff in Hs as [Hg Hrest].
    destruct (Ascii.eqb (seg_unit g) "m") eqn:Hu; [|discriminate].
    destruct rest; [|discriminate]. simpl. rewrite string_app_nil_r.
    apply segments_group; [assumption | now apply Ascii.eqb_eq]. }
  assert (Hh : forall segs, forallb shaped segs = true ->
                 in_order (map seg_unit segs) ["h"; "m"]%char = true ->
                 matches (RCat (grp "h"%char) (grp "m"%char)) (render segs)).
  { intros [|g rest] Hs Ho.
    - exact (MCat _ _ "" "" (group_nil _) (group_nil _)).
    - pose proof Hs as Hs'. simpl in Hs'. apply andb_true_iff in Hs' as [Hg Hrest].
      cbn [map in_order] in Ho.
      destruct (Ascii.eqb (seg_unit g) "h") eqn:Hu.
      + simpl render. constructor; [|now apply Hm].
        apply segments_group; [assumption | now apply Ascii.eqb_eq].
      + exact (MCat _ _ "" _ (group_nil _) (Hm (g :: rest) Hs Ho)). }
  destruct segs as [|g rest].
  - exact (MCat _ _ "" "" (group_nil _) (Hh [] eq_refl eq_refl)).
  - pose proof Hshaped as Hs'. simpl in Hs'. apply andb_true_iff in Hs' as [Hg Hrest].
    cbn [map in_order] in Horder.
    destruct (Ascii.eqb (seg_unit g) "d") eqn:Hu.
    + simpl render. constructor; [|now apply Hh].
      apply segments_group; [assumption | now apply Ascii.eqb_eq].
    + exact (MCat _ _ "" _ (group_nil _) (Hh (g :: rest) Hshaped Horder)).
Qed.

(** X18. The language of [intervalRegex], as decided by the matcher: a
    text is accepted exactly when it is a run of segments, each of one or
    more digits and a unit letter, with at most one segment for each of d,
    h and m, in this order. *)
Theorem intervalRegex_language (s : string) :
  MatchString intervalRegex s = true
  <-> exists segs,
        s = render segs /\ forallb shaped segs = true
        /\ in_order (map seg_unit segs) ["d"; "h"; "m"]%char = true.
Proof.
  split.
  - apply intervalRegex_segments.
  - intros (segs & -> & Hshaped & Horder). now apply segments_intervalRegex.
Qed.

Lemma render_length_any (segs : list segment) :
  (length segs <= String.length (render segs))%nat.
Proof.
  induction segs as [|g segs IH]; simpl; [lia|].
  unfold seg_text. rewrite !string_length_app. simpl. lia.
Qed.

Lemma parseUint_digits (s : string) (n : Z) :
  all_digits s = true ->
  parseUint s n = inl ErrRange \/ exists un, parseUint s n = inr un.
Proof.
  revert n. induction s as [|c s IH]; intros n Hall; simpl; [eauto|].
  simpl in Hall. apply andb_true_iff in Hall as [Hc Hs]. rewrite Hc.
  destruct (2 ^ 64 - 1 <? n * 10 + digitVal c); [now left | now apply IH].
Qed.

(** On one or more digits [Atoi] fails only by range. *)
Lemma Atoi_digits (ds : string) (e : error) :
  ds <> "" -> all_digits ds = true -> Atoi ds = Err e ->
  e = ErrNum "Atoi" ds ErrRange.
Proof.
  destruct ds as [|c ds]; [congruence|]. intros _ Hall.
  pose proof Hall as Hall'. simpl in Hall'. apply andb_true_iff in Hall' as [Hc _].
  unfold Atoi.
  assert (Hminus : Ascii.eqb c "-" = false).
  { destruct (Ascii.eqb c "-") eqn:E; [|reflexivity].
    apply Ascii.eqb_eq in E. subst c. discriminate. }
  assert (Hplus : Ascii.eqb c "+" = false).
  { destruct (Ascii.eqb c "+") eqn:E; [|reflexivity].
    apply Ascii.eqb_eq in E. subst c. discriminate. }
  rewrite Hminus, Hplus. cbn [orb].
  destruct (parseUint_digits (String c ds) 0 Hall) as [Hr|[un Hr]]; rewrite Hr.
  - now intros [= <-].
  - destruct (2 ^ 63 <=? un); [now intros [= <-] | discriminate].
Qed.

Lemma shaped_seg_value (g : segment) (value : Z) :
  shaped g = true -> Atoi (seg_digits g) = Ok value ->
  exists v, seg_value g = Some v.
Proof.
  unfold shaped, seg_value. intros Hg ->.
  destruct (seg_digits g) as [|c ds]; [discriminate|].
  destruct (unit_minutes (seg_unit g)) as [per|]; [|discriminate].
  rewrite Hg. eauto.
Qed.

(** The loop on a shaped segment whose digits [Atoi] does not read. *)
Lemma parseDurationLoop_unread (fuel : nat) (pre : string) (g : segment)
    (rest : string) (tot : Z) (e : error) :
  shaped g = true -> Atoi (seg_digits g) = Err e ->
  parseDurationLoop (S fuel) (pre +:+ seg_text g +:+ rest) (String.length pre) tot
  = Ret (Err (ErrWrap e ("invalid interval format: "
                         +:+ (pre +:+ seg_text g +:+ rest)))).
Proof.
  intros Hg. apply shaped_inv in Hg as (Hne & Hall & per & Hper).
  destruct g as [ds u]. unfold seg_text. simpl seg_digits in *. simpl seg_unit in *.
  destruct ds as [|c ds]; [congruence|]. intros Hatoi.
  pose proof (unit_minutes_not_digit _ _ Hper) as Hu.
  simpl in Hall. apply andb_true_iff in Hall as [Hc Hds].
  set (whole := pre +:+ (String c ds +:+ String u "") +:+ rest).
  assert (Hwhole : whole = pre +:+ String c (ds +:+ String u rest)).
  { unfold whole. f_equal. rewrite !string_app_cons, string_app_assoc. reflexivity. }
  assert (Hlen : String.length whole
                 = (String.length pre + S (String.length ds + S (String.length rest)))%nat).
  { rewrite Hwhole, string_length_app. simpl. rewrite string_length_app. reflexivity. }
  cbn [parseDurationLoop].
  destruct (String.length whole <=? String.length pre)%nat eqn:Hdone.
  { apply Nat.leb_le in Hdone. lia. }
  assert (Hend : skipDigits (string_drop (String.length pre + 1) whole)
                   (String.length pre + 1)
                 = (String.length pre + S (String.length ds))%nat).
  { replace (String.length pre + 1)%nat
      with (String.length (pre +:+ String c "")) at 1
      by (rewrite string_length_app; reflexivity).
    rewrite Hwhole.
    replace (pre +:+ String c (ds +:+ String u rest))
      with ((pre +:+ String c "") +:+ (ds +:+ String u rest))
      by (rewrite string_app_assoc; reflexivity).
    rewrite string_drop_app, skipDigits_run by assumption. lia. }
  rewrite Hend.
  replace (String.length pre + S (String.length ds) - String.length pre)%nat
    with (String.length (String c ds)) by (simpl; lia).
  rewrite Hwhole at 1. rewrite substring_app.
  replace (String c (ds +:+ String u rest)) with (String c ds +:+ String u rest)
    by reflexivity.
  rewrite substring_whole, Hatoi. reflexivity.
Qed.

(** The loop over shaped segments never reads past the end: it adds them
    all up, or stops at the first number that [Atoi] does not read. *)
Lemma parseDurationLoop_shaped (segs : list segment) (fuel : nat) (pre : string)
    (tot : Z) :
  forallb shaped segs = true -> (length segs <= fuel)%nat ->
  Forall (fun g => is_Some (seg_value g)) segs
  \/ exists g e,
       In g segs /\ Atoi (seg_digits g) = Err e
       /\ parseDurationLoop fuel (pre +:+ render segs) (String.length pre) tot
          = Ret (Err (ErrWrap e ("invalid interval format: "
                                 +:+ (pre +:+ render segs)))).
Proof.
  revert fuel pre tot. induction segs as [|g segs IH]; intros fuel pre tot Hs Hfuel.
  - left. constructor.
  - simpl in Hs. apply andb_true_iff in Hs as [Hg Hrest].
    destruct fuel as [|fuel]; [simpl in Hfuel; lia|].
    simpl render.
    destruct (Atoi (seg_digits g)) as [value|e] eqn:Hatoi.
    + destruct (shaped_seg_value g value Hg Hatoi) as [v Hv].
      destruct (IH fuel (pre +:+ seg_text g) (int_add tot v) Hrest)
        as [Hall|(g' & e & Hin & Hbad & Hrun)]; [simpl in Hfuel; lia| |].
      * left. constructor; [eauto | assumption].
      * right. exists g', e. split; [now right|]. split; [assumption|].
        rewrite (parseDurationLoop_segment fuel pre g (render segs) tot v Hv).
        rewrite <- string_app_assoc. exact Hrun.
    + right. exists g, e. split; [now left|]. split; [assumption|].
      now apply parseDurationLoop_unread.
Qed.

(** X19. A text that [intervalRegex] accepts never takes the duration
    parser past the end of the text: [parseDurationString] returns the sum
    of its segments, or, when one of its numbers is out of the range of
    [int], the range error of [Atoi] wrapped with the text.  So the
    interval that [ParsePullPolicy] validates and stores cannot raise the
    index panic when [CheckImagePullInterval] parses it back. *)
Theorem parseDurationString_accepted (s : string) :
  MatchString intervalRegex s = true ->
  exists segs,
    s = render segs
    /\ ((Forall (fun g => is_Some (seg_value g)) segs
         /\ parseDurationString s = Ret (Ok (int_mul (total_minutes segs) Minute)))
        \/ exists g,
             In g segs
             /\ Atoi (seg_digits g) = Err (ErrNum "Atoi" (seg_digits g) ErrRange)
             /\ parseDurationString s
                = Ret (Err (ErrWrap (ErrNum "Atoi" (seg_digits g) ErrRange)
                              ("invalid interval format: " +:+ s)))).
Proof.
  intros Hm. apply intervalRegex_segments in Hm as (segs & -> & Hshaped & _).
  exists segs. split; [reflexivity|].
  destruct (parseDurationLoop_shaped segs (String.length (render segs)) "" 0 Hshaped
              (render_length_any segs))
    as [Hall|(g & e & Hin & Hbad & Hrun)].
  - left. split; [assumption | now apply parseDurationString_render].
  - right. exists g.
    assert (Hg : shaped g = true).
    { rewrite forallb_forall in Hshaped. now apply Hshaped. }
    apply shaped_inv in Hg as (Hne & Hdigits & _).
    pose proof (Atoi_digits _ _ Hne Hdigits Hbad) as ->.
    split; [assumption|]. split; [assumption|].
    rewrite !string_app_nil_l in Hrun. exact Hrun.
Qed.

(** The theorem on [99999999999999999999d], which the grammar accepts and
    [Atoi] does not read, so that the parser returns an error. *)
Lemma parseDurationString_accepted_witness :
  exists segs,
    "99999999999999999999d" = render segs
    /\ ((Forall (fun g => is_Some (seg_value g)) segs
         /\ parseDurationString "99999999999999999999d"
            = Ret (Ok (int_mul (total_minutes segs) Minute)))
        \/ exists g,
             In g segs
             /\ Atoi (seg_digits g) = Err (ErrNum "Atoi" (seg_digits g) ErrRange)
             /\ parseDurationString "99999999999999999999d"
                = Ret (Err (ErrWrap (ErrNum "Atoi" (seg_digits g) ErrRange)
                              ("invalid interval format: "
                               +:+ "99999999999999999999d")))).
Proof.
  apply (parseDurationString_accepted "99999999999999999999d"). reflexivity.
Defined.

(** ** The pull *)

Section PullFurther.

Context `{TimeLib}.
Context {D C Img V1Image Authenticator Stream : Type}.
Variable ext : @Collaborators D Img V1Image Authenticator Stream.
Variable chk : ImagePullChecker.t C.

Lemma fetchDaemonImage_same_world (name : string) (w : World D C) :
  exists r, fetchDaemonImage ext name w = Ret (r, w, []).
Proof.
  unfold fetchDaemonImage, bind, get_daemon, ret.
  destruct (local_NewImage ext name (daemon w)) as [image|e]; [|eauto].
  destruct (negb (Found ext image)); eauto.
Qed.

(** X20. What [Fetch] makes of the pull, under [PullAlways]: an error of
    the pull that is not NotFound is returned as it is; after a pull that
    went through, and also after one that failed with NotFound, [Fetch]
    returns what the daemon lookup returns, so an image that only the
    daemon holds is still delivered.  The ledger is not touched. *)
Theorem Fetch_pull_outcome (name name' : string) (options : FetchOptions)
    (w w1 : World D C) (err : option error) (l1 : list LogLine) :
  TranslateRegistry ext name = Ok name' ->
  layout_set (LayoutOption_ options) = false ->
  Daemon options = true ->
  PullPolicy_ options = PullAlways ->
  pullWithRetry ext name' (Platform options) w = Ret (err, w1, l1) ->
  exists r,
    Fetch ext chk name options w
    = Ret (r, w1, Debugf ("Pulling image " +:+ style_Symbol ext name') :: l1)
    /\ match err with
       | Some e =>
           if IsNotFound e then fetchDaemonImage ext name' w1 = Ret (r, w1, [])
           else r = Err e
       | None => fetchDaemonImage ext name' w1 = Ret (r, w1, [])
       end.
Proof.
  intros Htr Hlayout Hdaemon Hpol Hpull.
  destruct (fetchDaemonImage_same_world name' w1) as [r Hlookup].
  unfold Fetch. rewrite Htr, Hlayout, Hdaemon, Hpol. cbn [negb].
  unfold recordPull, intervalPolicy. rewrite Hpol.
  unfold pullAndResolve, bind, ret, log. rewrite Hpull.
  destruct err as [e|].
  - destruct (IsNotFound e); cbn [negb].
    + exists r. rewrite Hlookup. split; [|reflexivity].
      destruct r; simpl; rewrite ?app_nil_r; reflexivity.
    + exists (Err e). split; [|reflexivity]. simpl. now rewrite ?app_nil_r.
  - exists r. rewrite Hlookup. split; [|reflexivity].
    destruct r; simpl; rewrite ?app_nil_r; reflexivity.
Qed.

(** X21. What [pullImage] reports: it always returns, it changes nothing
    but the daemon, and without credentials it returns their error before
    the daemon is asked.  It reports success only when the credentials
    resolved, the daemon started the pull, and the stream was displayed and
    closed without error; and what the daemon's client calls not found it
    reports as [ErrNotFound]. *)
Theorem pullImage_reports (name platform : string) (w : World D C) :
  exists err w',
    pullImage ext name platform w = Ret (err, w', [])
    /\ proc w' = proc w /\ checker w' = checker w
    /\ (forall e, registryAuth ext name = Err e -> err = Some e /\ w' = w)
    /\ (err = None ->
        exists regAuth rc,
          registryAuth ext name = Ok regAuth
          /\ docker_ImagePull ext name regAuth platform (daemon w) = (Ok rc, daemon w')
          /\ DisplayJSONMessagesStream ext rc = None /\ Close ext rc = None)
    /\ (forall regAuth e d',
          registryAuth ext name = Ok regAuth ->
          docker_ImagePull ext name regAuth platform (daemon w) = (Err e, d') ->
          client_IsErrNotFound e = true ->
          exists e', err = Some e' /\ IsNotFound e' = true /\ daemon w' = d').
Proof.
  unfold pullImage.
  destruct (registryAuth ext name) as [regAuth|e0].
  2:{ exists (Some e0), w. unfold ret.
      split; [reflexivity|]. split; [reflexivity|]. split; [reflexivity|].
      split; [intros e [= <-]; auto|]. split; [discriminate|].
      intros regAuth e d' Hauth. discriminate Hauth. }
  unfold bind, get_daemon, set_daemon, ret.
  destruct (docker_ImagePull ext name regAuth platform (daemon w)) as [pulled d'] eqn:Hpull.
  destruct pulled as [rc|e0]; simpl.
  - destruct (DisplayJSONMessagesStream ext rc) as [e1|] eqn:Hshow; simpl;
      [|destruct (Close ext rc) as [e2|] eqn:Hclose];
      (eexists _, _; split; [reflexivity|]; split; [reflexivity|];
       split; [reflexivity|]; split; [intros e Hbad; discriminate Hbad|]; split;
       [ intros Hnone; try discriminate Hnone; exists regAuth, rc; simpl; auto
       | intros regAuth' e d'' [= <-] Hpull' _; rewrite Hpull in Hpull';
         discriminate Hpull' ]).
  - destruct (client_IsErrNotFound e0) eqn:Hnf; simpl;
      (eexists _, _; split; [reflexivity|]; split; [reflexivity|];
       split; [reflexivity|]; split; [intros e Hbad; discriminate Hbad|]; split;
       [ discriminate
       | intros regAuth' e d'' [= <-] Hpull' Hnf'; rewrite Hpull in Hpull';
         injection Hpull' as <- <-; simpl;
         first [ congruence | eexists; repeat split ] ]).
Qed.

(** X22. In [fetcher.go] the policies [PullHourly], [PullDaily] and
    [PullWeekly] are [PullWithInterval] under other names: [Fetch] does the
    same under each, and the interval it checks against is the one in the
    ledger whatever the name says. *)
Theorem Fetch_interval_policies_alike (name : string) (options : FetchOptions)
    (w : World D C) :
  intervalPolicy options = true ->
  Fetch ext chk name options w
  = Fetch ext chk name
      {| Daemon := Daemon options; Platform := Platform options;
         PullPolicy_ := PullWithInterval; LayoutOption_ := LayoutOption_ options |} w.
Proof.
  intros Hpol. unfold Fetch, recordPull, pullAndResolve, intervalPolicy in *.
  cbn [Daemon Platform PullPolicy_ LayoutOption_].
  destruct (PullPolicy_ options); try discriminate Hpol; reflexivity.
Qed.

End PullFurther.

(** The theorem on busybox held by the daemon and missing from the
    registry. *)
Lemma Fetch_pull_outcome_witness :
  @Fetch RFC3339.utc _ _ _ _ _ _ (Sim.ext []) (@PullChecker RFC3339.utc None)
    "busybox" (Sim.daemon_mode PullAlways)
    (Sim.world (Sim.process (Sim.files NoDir None) Sim.t_2024) ["busybox"])
  = Ret (Ok ("busybox", true),
         Sim.world (Sim.process (Sim.files NoDir None) Sim.t_2024) ["busybox"],
         [Debugf "Pulling image 'busybox'"]).
Proof.
  edestruct (@Fetch_pull_outcome RFC3339.utc _ _ _ _ _ _ (Sim.ext [])
               (@PullChecker RFC3339.utc None) "busybox" "busybox"
               (Sim.daemon_mode PullAlways)
               (Sim.world (Sim.process (Sim.files NoDir None) Sim.t_2024) ["busybox"]))
    as (r & Hrun & Hcase);
    [reflexivity | reflexivity | reflexivity | reflexivity
    | vm_compute; reflexivity |].
  vm_compute in Hcase. injection Hcase as <-. exact Hrun.
Defined.

(** The theorem on [PullDaily]. *)
Lemma Fetch_interval_policies_alike_witness :
  @Fetch RFC3339.utc _ _ _ _ _ _ (Sim.ext ["busybox"]) (@PullChecker RFC3339.utc None)
    "busybox" (Sim.daemon_mode PullDaily)
    (Sim.world (Sim.process (Sim.files (File (Json Sim.busybox_ledger)) None)
                  (Sim.t_2024 + 2 * Sim.hour)) [])
  = @Fetch RFC3339.utc _ _ _ _ _ _ (Sim.ext ["busybox"]) (@PullChecker RFC3339.utc None)
      "busybox" (Sim.daemon_mode PullWithInterval)
      (Sim.world (Sim.process (Sim.files (File (Json Sim.busybox_ledger)) None)
                    (Sim.t_2024 + 2 * Sim.hour)) []).
Proof.
  apply (@Fetch_interval_policies_alike RFC3339.utc _ _ _ _ _ _ (Sim.ext ["busybox"])
           (@PullChecker RFC3339.utc None) "busybox" (Sim.daemon_mode PullDaily)).
  reflexivity.
Defined.

(** ** A bare number in the ledger *)

Section BareNumber.

Context `{TimeLib}.

(** X23. A pulling interval in the ledger that is a bare number, as [15],
    panics the interval check of every image on record: the duration
    parser reads past the end of the text, and neither
    [CheckImagePullInterval] nor [Fetch] under an interval policy recovers,
    so [Fetch] panics before it looks for the image. *)
Theorem CheckImagePullInterval_bare_number (imageID timestamp : string) (st : State)
    (home : string) (doc : ImageJSON) (recorded value : Z) :
  fs_home (fs st) = Ok home -> fs_disk (fs st) = File (Json doc) ->
  fs_read (fs st) = None ->
  ImageIDtoTIME (Image doc) !! imageID = Some timestamp ->
  time_Parse timestamp = Ok recorded ->
  PullingInterval (Interval doc) <> "" ->
  all_digits (PullingInterval (Interval doc)) = true ->
  Atoi (PullingInterval (Interval doc)) = Ok value ->
  CheckImagePullInterval imageID st = Panic "index out of range"
  /\ CheckImagePullInterval_method imageID st = Panic "index out of range"
  /\ forall (D Img V1Image Authenticator Stream : Type)
       (ext : @Collaborators D Img V1Image Authenticator Stream)
       (failed : option ImageJSON) (name : string) (options : FetchOptions)
       (w : World D unit),
       TranslateRegistry ext name = Ok imageID ->
       layout_set (LayoutOption_ options) = false ->
       Daemon options = true ->
       intervalPolicy options = true ->
       proc w = st ->
       Fetch ext (PullChecker failed) name options w = Panic "index out of range".
Proof.
  intros Hhome Hdisk Hrd Hsome Hparse Hne Hall Hatoi.
  assert (Hcheck : CheckImagePullInterval imageID st = Panic "index out of range").
  { unfold CheckImagePullInterval, ReadImageJSON, bind.
    rewrite (readImageJSON_file st home doc) by assumption.
    rewrite Hsome, Hparse.
    now rewrite (parseDurationString_digits_only _ value Hne Hall Hatoi). }
  split; [exact Hcheck|]. split; [exact Hcheck|].
  intros D Img V1Image Authenticator Stream ext failed name options w
    Htr Hlayout Hdaemon Hpol Hproc.
  unfold Fetch. rewrite Htr, Hlayout, Hdaemon. cbn [negb].
  assert (Hcase : intervalCase ext (PullChecker failed) imageID w
                  = Panic "index out of range").
  { unfold intervalCase, bind, in_checker, PullChecker, on_process. simpl.
    now rewrite Hproc, Hcheck. }
  unfold intervalPolicy in Hpol.
  destruct (PullPolicy_ options); try discriminate Hpol;
    unfold bind at 1; now rewrite Hcase.
Qed.

(** X24. A pruning interval in the ledger that is a bare number panics
    [PruneOldImages], whether or not a prune is on record, unless the
    timestamp of the last prune is unreadable (the error of which comes
    first). *)
Theorem PruneOldImages_bare_number (st : State) (home : string) (doc : ImageJSON)
    (value : Z) :
  fs_home (fs st) = Ok home -> fs_disk (fs st) = File (Json doc) ->
  fs_read (fs st) = None ->
  LastPrune (Interval doc) = ""
  \/ (exists lastPrune, time_Parse (LastPrune (Interval doc)) = Ok lastPrune) ->
  PruningIinterval (Interval doc) <> "" ->
  all_digits (PruningIinterval (Interval doc)) = true ->
  Atoi (PruningIinterval (Interval doc)) = Ok value ->
  PruneOldImages st = Panic "index out of range".
Proof.
  intros Hhome Hdisk Hrd Hlast Hne Hall Hatoi.
  unfold PruneOldImages. unfold bind at 1.
  rewrite (readImageJSON_file st home doc) by assumption.
  pose proof (parseDurationString_digits_only _ value Hne Hall Hatoi) as Hpanic.
  destruct (String.eqb (LastPrune (Interval doc)) "") eqn:Hempty; cbn [negb].
  - unfold bind, ret. now rewrite Hpanic.
  - destruct Hlast as [Hlast|[lastPrune Hlast]].
    { rewrite Hlast in Hempty. discriminate. }
    rewrite Hlast. unfold bind. now rewrite Hpanic.
Qed.

End BareNumber.

(** The theorem on busybox on record in a ledger whose pulling interval is
    [15]. *)
Lemma CheckImagePullInterval_bare_number_witness :
  @CheckImagePullInterval RFC3339.utc "busybox"
    (Sim.process
       (Sim.files
          (File (Json (Sim.ledger "15" "7d" "" [("busybox", "2024-01-01T00:00:00Z")])))
          None) Sim.t_2024)
  = Panic "index out of range"
  /\ @Fetch RFC3339.utc _ _ _ _ _ _ (Sim.ext ["busybox"]) (@PullChecker RFC3339.utc None)
       "busybox" (Sim.daemon_mode PullWithInterval)
       (Sim.world
          (Sim.process
             (Sim.files
                (File (Json (Sim.ledger "15" "7d" ""
                               [("busybox", "2024-01-01T00:00:00Z")])))
                None) Sim.t_2024) ["busybox"])
     = Panic "index out of range".
Proof.
  destruct (@CheckImagePullInterval_bare_number RFC3339.utc
              "busybox" "2024-01-01T00:00:00Z"
              (Sim.process
                 (Sim.files
                    (File (Json (Sim.ledger "15" "7d" ""
                                   [("busybox", "2024-01-01T00:00:00Z")])))
                    None) Sim.t_2024)
              "/home/pack"
              (Sim.ledger "15" "7d" "" [("busybox", "2024-01-01T00:00:00Z")])
              Sim.t_2024 15)
    as (Hcheck & _ & Hfetch);
    [reflexivity | reflexivity | reflexivity | reflexivity | vm_compute; reflexivity
    | discriminate | reflexivity | reflexivity |].
  split; [exact Hcheck|].
  apply Hfetch; reflexivity.
Defined.

(** The theorem on a ledger never pruned whose pruning interval is [7]. *)
Lemma PruneOldImages_bare_number_witness :
  @PruneOldImages RFC3339.utc
    (Sim.process
       (Sim.files
          (File (Json (Sim.ledger "1h" "7" "" [("busybox", "2024-01-01T00:00:00Z")])))
          None) Sim.t_2024)
  = Panic "index out of range".
Proof.
  apply (@PruneOldImages_bare_number RFC3339.utc
           (Sim.process
              (Sim.files
                 (File (Json (Sim.ledger "1h" "7" ""
                                [("busybox", "2024-01-01T00:00:00Z")])))
                 None) Sim.t_2024)
           "/home/pack"
           (Sim.ledger "1h" "7" "" [("busybox", "2024-01-01T00:00:00Z")]) 7);
    first [reflexivity | discriminate | now left].
Defined.

(** ** Failed writes *)

Section FailedWrites.

Context `{TimeLib}.












End FailedWrites.


(** ** Within the interval *)

Section WithinInterval.

Context `{TimeLib}.
Context {D C Img V1Image Authenticator Stream : Type}.
Variable ext : @Collaborators D Img V1Image Authenticator Stream.
Variable chk : ImagePullChecker.t C.

(** X26. Within the interval [fetcher.go] does not pull: under an interval
    policy, when the check answers that no pull is due and the daemon
    holds the image, [Fetch] returns the daemon's image; the daemon is as
    it was, and neither the prune nor the record of a pull is run, the
    ledger and the checker being as the check left them. *)
Theorem Fetch_within_interval (name name' : string) (options : FetchOptions)
    (w : World D C) (cerr : option error) (c1 : C) (st1 : State)
    (l1 : list LogLine) (image : Img) :
  TranslateRegistry ext name = Ok name' ->
  layout_set (LayoutOption_ options) = false ->
  Daemon options = true ->
  intervalPolicy options = true ->
  ImagePullChecker.CheckImagePullInterval chk name' (checker w, proc w)
  = Ret ((false, cerr), (c1, st1), l1) ->
  local_NewImage ext name' (daemon w) = Ok image ->
  Found ext image = true ->
  exists l,
    Fetch ext chk name options w
    = Ret (Ok image, {| proc := st1; daemon := daemon w; checker := c1 |}, l)
    /\ (cerr = None -> l = l1).
Proof.
  intros Htr Hlayout Hdaemon Hpol Hcheck Hlocal Hfound.
  rewrite (Fetch_interval ext chk name name' options w Htr Hlayout Hdaemon Hpol).
  unfold intervalCase, bind, in_checker. rewrite Hcheck. cbn [negb].
  unfold fetchWithoutPull, fetchDaemonImage, bind, get_daemon.
  destruct cerr as [e|]; unfold log, ret; cbn [daemon proc checker];
    rewrite Hlocal, Hfound; cbn [negb]; eexists; (split; [reflexivity|]).
  - discriminate.
  - intros _. simpl. now rewrite !app_nil_r.
Qed.

(** X27. The earlier [Fetch] pulls whether or not a pull is due: under
    [PullWithInterval], once the check has answered without error and the
    daemon lookup has found the image, the answer of the check plays no
    part, and every call that returns has gone through the pull. *)
Theorem Legacy_Fetch_pulls_within_interval (name name' : string)
    (options : FetchOptions) (w w' : World D C) (pull : bool) (st1 : State)
    (l1 l : list LogLine) (image : Img) (r : result Img) :
  TranslateRegistry ext name = Ok name' ->
  layout_set (LayoutOption_ options) = false ->
  Daemon options = true ->
  PullPolicy_ options = PullWithInterval ->
  CheckImagePullInterval_method (Legacy.imageID_of name') (proc w)
  = Ret ((pull, None), st1, l1) ->
  local_NewImage ext name' (daemon w) = Ok image ->
  Found ext image = true ->
  Legacy.Fetch ext name options w = Ret (r, w', l) ->
  In (Debugf ("Pulling image " +:+ style_Symbol ext name')) l.
Proof.
  intros Htr Hlayout Hdaemon Hpol Hcheck Hlocal Hfound Hrun.
  unfold Legacy.Fetch in Hrun. rewrite Htr, Hlayout, Hdaemon, Hpol in Hrun.
  cbn [negb] in Hrun. cbv zeta in Hrun.
  apply bind_Ret in Hrun as (returned & wA & lA & lB & Hswitch & Htail & ->).
  apply bind_Ret in Hswitch as ([pull' err'] & wB & l2 & l3 & Hcheck' & Hswitch & _).
  unfold in_proc in Hcheck'. rewrite Hcheck in Hcheck'.
  injection Hcheck' as <- <- <- _.
  apply bind_Ret in Hswitch as (found & wC & l4 & l5 & Hlookup & Hswitch & _).
  unfold fetchDaemonImage, bind, get_daemon in Hlookup.
  cbn [daemon proc checker] in Hlookup. rewrite Hlocal, Hfound in Hlookup.
  injection Hlookup as <- <- _.
  apply bind_Ret in Hswitch as (perr & wD & l6 & l7 & _ & Hswitch & _).
  apply bind_Ret in Hswitch as (u & wE & l8 & l9 & _ & Hret & _).
  injection Hret as <- _ _.
  unfold pullAndResolve in Htail.
  apply bind_Ret in Htail as (u' & wF & l10 & l11 & Hlog & _ & ->).
  injection Hlog as _ _ <-.
  apply in_or_app. right. now left.
Qed.

End WithinInterval.

(** The theorem on busybox, pulled at midnight with an interval of one
    hour and asked for half an hour later under [PullHourly]. *)
Lemma Fetch_within_interval_witness :
  exists l,
    @Fetch RFC3339.utc _ _ _ _ _ _ (Sim.ext ["busybox"]) (@PullChecker RFC3339.utc None)
      "busybox" (Sim.daemon_mode PullHourly)
      (Sim.world (Sim.process (Sim.files (File (Json Sim.busybox_ledger)) None)
                    (Sim.t_2024 + 30 * Minute)) ["busybox"])
    = Ret (Ok ("busybox", true),
           {| proc := {| interval := ""; imagePath := "/home/pack/.pack/image.json";
                         fs := Sim.files (File (Json Sim.busybox_ledger)) None;
                         ticks := fun _ => Sim.t_2024 + 30 * Minute; reads := 1 |};
              daemon := ["busybox"]; checker := tt |}, l)
    /\ (@None error = None -> l = []).
Proof.
  apply (@Fetch_within_interval RFC3339.utc _ _ _ _ _ _ (Sim.ext ["busybox"])
           (@PullChecker RFC3339.utc None) "busybox" "busybox"
           (Sim.daemon_mode PullHourly)
           (Sim.world (Sim.process (Sim.files (File (Json Sim.busybox_ledger)) None)
                         (Sim.t_2024 + 30 * Minute)) ["busybox"])
           None tt
           {| interval := ""; imagePath := "/home/pack/.pack/image.json";
              fs := Sim.files (File (Json Sim.busybox_ledger)) None;
              ticks := fun _ => Sim.t_2024 + 30 * Minute; reads := 1 |}
           [] ("busybox", true));
    first [reflexivity | vm_compute; reflexivity].
Defined.

(** The theorem on the same call through the earlier [Fetch]. *)
Lemma Legacy_Fetch_pulls_within_interval_witness :
  exists r w' l,
    @Legacy.Fetch RFC3339.utc _ _ _ _ _ _ (Sim.ext ["busybox"])
      "busybox" (Sim.daemon_mode PullWithInterval)
      (Sim.world (Sim.process (Sim.files (File (Json Sim.busybox_ledger)) None)
                    (Sim.t_2024 + 30 * Minute)) ["busybox"])
    = Ret (r, w', l)
    /\ In (Debugf ("Pulling image " +:+ "'busybox'")) l.
Proof.
  destruct (@Legacy.Fetch RFC3339.utc _ _ _ _ _ _ (Sim.ext ["busybox"])
              "busybox" (Sim.daemon_mode PullWithInterval)
              (Sim.world (Sim.process (Sim.files (File (Json Sim.busybox_ledger)) None)
                            (Sim.t_2024 + 30 * Minute)) ["busybox"]))
    as [[[r w'] l]| |] eqn:Hrun;
    [|vm_compute in Hrun; discriminate Hrun..].
  exists r, w', l. split; [reflexivity|].
  apply (@Legacy_Fetch_pulls_within_interval RFC3339.utc _ unit _ _ _ _
           (Sim.ext ["busybox"]) "busybox" "busybox"
           (Sim.daemon_mode PullWithInterval)
           (Sim.world (Sim.process (Sim.files (File (Json Sim.busybox_ledger)) None)
                         (Sim.t_2024 + 30 * Minute)) ["busybox"])
           w' false
           {| interval := ""; imagePath := "/home/pack/.pack/image.json";
              fs := Sim.files (File (Json Sim.busybox_ledger)) None;
              ticks := fun _ => Sim.t_2024 + 30 * Minute; reads := 1 |}
           [] l ("busybox", true) r);
    first [reflexivity | vm_compute; reflexivity | exact Hrun].
Defined.

(** ** What [readImageJSON] writes *)


(** ** Eviction and record *)

Section EvictAndRecord.

Context `{TimeLib}.
Context {D Img V1Image Authenticator Stream : Type}.
Variable ext : @Collaborators D Img V1Image Authenticator Stream.
Variable failed : option ImageJSON.

(** X29. An image on record that the daemon no longer holds is struck from
    the ledger: under an interval policy, within the interval, when the
    daemon lookup is NotFound and the ledger reads and can be written,
    [Fetch] returns NotFound without a pull, and the ledger file then holds
    the same document without the entry of the image, so that the next
    check of this image answers that a pull is due. *)
Theorem Fetch_evicts_missing_image (name name' timestamp : string)
    (options : FetchOptions) (w : World D unit) (home : string) (doc : ImageJSON)
    (recorded pullingInterval : Z) (image : Img) :
  TranslateRegistry ext name = Ok name' ->
  layout_set (LayoutOption_ options) = false ->
  Daemon options = true ->
  intervalPolicy options = true ->
  fs_home (fs (proc w)) = Ok home ->
  fs_disk (fs (proc w)) = File (Json doc) ->
  fs_read (fs (proc w)) = None ->
  fs_write (fs (proc w)) = None ->
  ImageIDtoTIME (Image doc) !! name' = Some timestamp ->
  time_Parse timestamp = Ok recorded ->
  parseDurationString (PullingInterval (Interval doc)) = Ret (Ok pullingInterval) ->
  int_min < pullingInterval ->
  ticks (proc w) (reads (proc w)) - recorded <= pullingInterval ->
  local_NewImage ext name' (daemon w) = Ok image ->
  Found ext image = false ->
  exists e w',
    Fetch ext (PullChecker failed) name options w = Ret (Err e, w', [])
    /\ IsNotFound e = true
    /\ daemon w' = daemon w
    /\ fs_disk (fs (proc w'))
       = File (Json {| Interval := Interval doc;
                       Image := {| ImageIDtoTIME :=
                                     delete name' (ImageIDtoTIME (Image doc)) |} |})
    /\ exists st'',
         CheckImagePullInterval name' (proc w') = Ret ((true, None), st'', []).
Proof.
  intros Htr Hlayout Hdaemon Hpol Hhome Hdisk Hrd Hwr Hsome Hparse Hdur Hmin
    Hwithin Hlocal Hfound.
  rewrite (Fetch_interval ext (PullChecker failed) name name' options w
             Htr Hlayout Hdaemon Hpol).
  pose proof (CheckImagePullInterval_on_file name' timestamp (proc w) home doc
                recorded pullingInterval Hhome Hdisk Hrd Hsome Hparse Hdur Hmin)
    as Hcheck.
  rewrite bool_decide_eq_false_2 in Hcheck by lia.
  set (st1 := tick (located (proc w) home)) in *.
  assert (Hread1 : readImageJSON st1 = Ret (Ok doc, st1, [])).
  { exact (readImageJSON_file st1 home doc Hhome Hdisk Hrd). }
  assert (Hwrite1 :
    WriteFile
      (json_MarshalIndent
         {| Interval := Interval doc;
            Image := {| ImageIDtoTIME := delete name' (ImageIDtoTIME (Image doc)) |} |})
      st1
    = Ret (None,
           {| interval := interval st1; imagePath := imagePath st1;
              fs := with_disk (fs st1)
                      (File (Json {| Interval := Interval doc;
                                     Image := {| ImageIDtoTIME :=
                                                   delete name'
                                                     (ImageIDtoTIME (Image doc)) |} |}))
                      (S (fs_writes (fs st1)));
              ticks := ticks st1; reads := reads st1 |}, [])).
  { unfold WriteFile, bind, get_state, with_fs, json_MarshalIndent.
    change (imagePath st1) with (ledgerPath home).
    rewrite (os_WriteFile_ok (fs st1) home (Json doc)) by assumption.
    reflexivity. }
  eexists _, _. split.
  - unfold intervalCase, bind, in_checker, PullChecker, on_process.
    cbn [ImagePullChecker.CheckImagePullInterval ImagePullChecker.ReadImageJSON
         checker proc daemon snd fst].
    rewrite Hcheck. cbn [negb snd fst proc daemon checker]. unfold ret at 1.
    unfold fetchWithoutPull, fetchDaemonImage, bind, get_daemon.
    cbn [daemon proc checker snd fst]. rewrite Hlocal, Hfound. cbn [negb].
    unfold ret at 1. cbn [IsNotFound daemon proc checker snd fst].
    unfold in_checker, in_proc, ReadImageJSON, bind.
    cbn [ImagePullChecker.ReadImageJSON daemon proc checker snd fst].
    rewrite Hread1. cbn [ret].
    unfold ret at 1. cbn [daemon proc checker snd fst].
    rewrite Hwrite1. unfold ret. cbn [app]. reflexivity.
  - split; [reflexivity|]. split; [reflexivity|]. split; [reflexivity|].
    cbn [proc]. eexists.
    unfold CheckImagePullInterval, ReadImageJSON, bind.
    erewrite readImageJSON_file; [|exact Hhome|reflexivity|exact Hrd].
    cbn [Image ImageIDtoTIME]. rewrite lookup_delete_eq. reflexivity.
Qed.

Lemma pullAndResolve_recorded (name : string) (options : FetchOptions)
    (record : M (World D unit) (option error)) (w w3 w4 : World D unit)
    (image : Img) (l3 l4 : list LogLine) :
  pullAndResolve ext name options (ret None) w = Ret (Ok image, w3, l3) ->
  record w3 = Ret (None, w4, l4) ->
  pullAndResolve ext name options record w = Ret (Ok image, w4, (l3 ++ l4)%list).
Proof.
  unfold pullAndResolve. cbv zeta. intros Hplain Hrecord.
  apply bind_Ret in Hplain as (u & w0 & l0 & l0' & Hlog & Hplain & ->).
  apply bind_Ret in Hplain as (err & w1 & l1 & l1' & Hpull & Hplain & ->).
  rewrite <- !app_assoc.
  eapply bind_Ret_2; [exact Hlog|]. eapply bind_Ret_2; [exact Hpull|].
  assert (Hresolve : forall tail : M (World D unit) (result Img),
            tail = (let! r := fetchDaemonImage ext name in
                    match r with
                    | Err err => ret (Err err)
                    | Ok image =>
                        let! u := ret None in
                        match u with
                        | Some err => ret (Err err)
                        | None => ret (Ok image)
                        end
                    end) ->
            tail w1 = Ret (Ok image, w3, l1') ->
            (let! r := fetchDaemonImage ext name in
             match r with
             | Err err => ret (Err err)
             | Ok image =>
                 let! u := record in
                 match u with
                 | Some err => ret (Err err)
                 | None => ret (Ok image)
                 end
             end) w1 = Ret (Ok image, w4, (l1' ++ l4)%list)).
  { intros tail -> Htail.
    apply bind_Ret in Htail as (r & w2 & l2 & l2' & Hlookup & Htail & ->).
    destruct r as [image0|e1]; [|discriminate].
    unfold bind, ret in Htail. injection Htail as <- <- <-.
    rewrite <- app_assoc. eapply bind_Ret_2; [exact Hlookup|].
    simpl. unfold bind. rewrite Hrecord. simpl. now rewrite app_nil_r. }
  destruct err as [e0|].
  - destruct (negb (IsNotFound e0)); [discriminate|].
    now apply (Hresolve _ eq_refl).
  - now apply (Hresolve _ eq_refl).
Qed.

(** X30. A pull that is due and delivers is put on record at the time read
    after it: under an interval policy, when the interval case goes on to
    the pull, the pull and the lookup after it deliver the image, and the
    ledger reads and can be written, [Fetch] returns the image and the
    ledger file then holds the document with the image stamped with the
    clock reading that follows the pull, every other entry and the interval
    block as they were. *)
Theorem Fetch_due_records (name name' : string) (options : FetchOptions)
    (w w1 w3 : World D unit) (l1 l3 l4 : list LogLine) (image : Img)
    (doc : ImageJSON) (st4 : State) :
  TranslateRegistry ext name = Ok name' ->
  layout_set (LayoutOption_ options) = false ->
  Daemon options = true ->
  intervalPolicy options = true ->
  intervalCase ext (PullChecker failed) name' w = Ret (None, w1, l1) ->
  pullAndResolve ext name' options (ret None) w1 = Ret (Ok image, w3, l3) ->
  readImageJSON (tick (proc w3)) = Ret (Ok doc, st4, l4) ->
  fs_write (fs (proc w3)) = None ->
  exists w',
    Fetch ext (PullChecker failed) name options w
    = Ret (Ok image, w', (l1 ++ l3 ++ l4)%list)
    /\ daemon w' = daemon w3
    /\ fs_disk (fs (proc w'))
       = File (Json (with_record doc name'
                       (time_Format (ticks (proc w3) (reads (proc w3))))))
    /\ fs_writes (fs (proc w')) = S (fs_writes (fs st4)).
Proof.
  intros Htr Hlayout Hdaemon Hpol Hcase Hplain Hread Hwrite.
  rewrite (Fetch_interval ext (PullChecker failed) name name' options w
             Htr Hlayout Hdaemon Hpol).
  pose proof (UpdateImagePullRecord_run name'
                (time_Format (ticks (proc w3) (reads (proc w3))))
                (tick (proc w3)) st4 l4 doc Hread Hwrite) as Hupdate.
  eexists. split.
  - eapply bind_Ret_2; [exact Hcase|]. cbv beta iota.
    eapply (pullAndResolve_recorded _ _ _ _ _ _ _ _ _ Hplain).
    unfold recordPull. rewrite Hpol.
    unfold bind, in_proc, time_Now, in_checker, PullChecker, on_process.
    cbn [ImagePullChecker.UpdateImagePullRecord proc checker daemon snd fst].
    fold (tick (proc w3)). rewrite Hupdate. cbn [app]. reflexivity.
  - repeat split.
Qed.

End EvictAndRecord.

(** The theorem on busybox, on record and within its interval, that the
    daemon has lost. *)
Lemma Fetch_evicts_missing_image_witness :
  exists e w',
    @Fetch RFC3339.utc _ _ _ _ _ _ (Sim.ext ["busybox"]) (@PullChecker RFC3339.utc None)
      "busybox" (Sim.daemon_mode PullWithInterval)
      (Sim.world (Sim.process (Sim.files (File (Json Sim.busybox_ledger)) None)
                    (Sim.t_2024 + 30 * Minute)) [])
    = Ret (Err e, w', [])
    /\ IsNotFound e = true
    /\ daemon w' = []
    /\ fs_disk (fs (proc w'))
       = File (Json {| Interval := Interval Sim.busybox_ledger;
                       Image := {| ImageIDtoTIME :=
                                     delete "busybox"
                                       (ImageIDtoTIME (Image Sim.busybox_ledger)) |} |})
    /\ exists st'',
         @CheckImagePullInterval RFC3339.utc "busybox" (proc w')
         = Ret ((true, None), st'', []).
Proof.
  apply (@Fetch_evicts_missing_image RFC3339.utc _ _ _ _ _ (Sim.ext ["busybox"]) None
           "busybox" "busybox" "2024-01-01T00:00:00Z"
           (Sim.daemon_mode PullWithInterval)
           (Sim.world (Sim.process (Sim.files (File (Json Sim.busybox_ledger)) None)
                         (Sim.t_2024 + 30 * Minute)) [])
           "/home/pack" Sim.busybox_ledger Sim.t_2024 Sim.hour ("busybox", false));
    first [reflexivity | vm_compute; reflexivity | vm_compute; discriminate].
Defined.

(** The theorem on busybox, on record for two hours with an interval of
    one, pulled again. *)
Lemma Fetch_due_records_witness :
  exists w',
    @Fetch RFC3339.utc _ _ _ _ _ _ (Sim.ext ["busybox"]) (@PullChecker RFC3339.utc None)
      "busybox" (Sim.daemon_mode PullWithInterval)
      (Sim.world (Sim.process (Sim.files (File (Json Sim.busybox_ledger)) None)
                    (Sim.t_2024 + 2 * Sim.hour)) [])
    = Ret (Ok ("busybox", true), w', [Debugf "Pulling image 'busybox'"])
    /\ daemon w' = ["busybox"]
    /\ fs_disk (fs (proc w'))
       = File (Json (with_record
                       (Sim.ledger "1h" "7d" "2024-01-01T02:00:00Z"
                          [("busybox", "2024-01-01T00:00:00Z")])
                       "busybox" "2024-01-01T02:00:00Z"))
    /\ fs_writes (fs (proc w')) = 2%nat.
Proof.
  apply (@Fetch_due_records RFC3339.utc _ _ _ _ _ (Sim.ext ["busybox"]) None
           "busybox" "busybox" (Sim.daemon_mode PullWithInterval)
           (Sim.world (Sim.process (Sim.files (File (Json Sim.busybox_ledger)) None)
                         (Sim.t_2024 + 2 * Sim.hour)) [])
           {| proc :=
                {| interval := ""; imagePath := "/home/pack/.pack/image.json";
                   fs := with_disk (Sim.files (File (Json Sim.busybox_ledger)) None)
                           (File (Json (Sim.ledger "1h" "7d" "2024-01-01T02:00:00Z"
                                          [("busybox", "2024-01-01T00:00:00Z")]))) 1;
                   ticks := fun _ => Sim.t_2024 + 2 * Sim.hour; reads := 3 |};
              daemon := []; checker := tt |}
           {| proc :=
                {| interval := ""; imagePath := "/home/pack/.pack/image.json";
                   fs := with_disk (Sim.files (File (Json Sim.busybox_ledger)) None)
                           (File (Json (Sim.ledger "1h" "7d" "2024-01-01T02:00:00Z"
                                          [("busybox", "2024-01-01T00:00:00Z")]))) 1;
                   ticks := fun _ => Sim.t_2024 + 2 * Sim.hour; reads := 3 |};
              daemon := ["busybox"]; checker := tt |}
           [] [Debugf "Pulling image 'busybox'"] [] ("busybox", true)
           (Sim.ledger "1h" "7d" "2024-01-01T02:00:00Z"
              [("busybox", "2024-01-01T00:00:00Z")])
           {| interval := ""; imagePath := "/home/pack/.pack/image.json";
              fs := with_disk (Sim.files (File (Json Sim.busybox_ledger)) None)
                      (File (Json (Sim.ledger "1h" "7d" "2024-01-01T02:00:00Z"
                                     [("busybox", "2024-01-01T00:00:00Z")]))) 1;
              ticks := fun _ => Sim.t_2024 + 2 * Sim.hour; reads := 4 |});
    first [reflexivity | vm_compute; reflexivity].
Defined.
